(** * toggle-input: a shallow embedding of the ToggleInput custom element

    The component of [src/toggle-input.js] is a class extending
    [HTMLElement].  Its state lives in the host element's content
    attributes, in a native checkbox kept in the shadow tree, in the
    optional [ElementInternals] object, in an optional hidden input appended
    to the surrounding form and in a few private fields.  Every method of
    the class is embedded as a function from states to states; what the
    browser does on behalf of the component (attribute reactions, the
    activation behaviour of the native checkbox, insertion and removal) is
    written out next to the method that relies on it. *)

From Stdlib Require Import String List Bool.
From stdpp Require Import base decidable option gmap strings list fin_maps.
Import ListNotations.
Open Scope string_scope.
#[local] Set Warnings "-clear-no-such-hyp".

(** ** JavaScript values handed to the property setters *)

(** The setters only look at truthiness ([if (val)]), at [v == null] and at
    the string a value converts to when it is stored as an attribute.
    Numbers, objects and symbols are not modelled. *)
Inductive JSVal : Type :=
| JUndefined
| JNull
| JBool (b : bool)
| JStr (s : string).

Definition truthy (v : JSVal) : bool :=
  match v with
  | JUndefined | JNull => false
  | JBool b => b
  | JStr s => negb (String.eqb s "")
  end.

(** [v == null] holds for [null] and [undefined] only. *)
Definition looselyNull (v : JSVal) : bool :=
  match v with
  | JUndefined | JNull => true
  | _ => false
  end.

Definition toString (v : JSVal) : string :=
  match v with
  | JUndefined => "undefined"
  | JNull => "null"
  | JBool true => "true"
  | JBool false => "false"
  | JStr s => s
  end.

(** [a || d] where [a] is a string or [null] and [d] a string. *)
Definition orElse (a : option string) (d : string) : string :=
  match a with
  | Some v => if String.eqb v "" then d else v
  | None => d
  end.

(** [a ?? d] where [a] is a string or [null]. *)
Definition nullish (a : option string) (d : string) : string :=
  match a with
  | Some v => v
  | None => d
  end.

(** Truthiness of a string or [null]. *)
Definition truthyStr (a : option string) : bool :=
  match a with
  | Some v => negb (String.eqb v "")
  | None => false
  end.

(** The result of [getAttribute] as a value: a string or [null]. *)
Definition ofAttribute (a : option string) : JSVal :=
  match a with
  | Some v => JStr v
  | None => JNull
  end.

(** [v || ''] stored in a string attribute. *)
Definition orEmpty (v : JSVal) : string :=
  if truthy v then toString v else "".

(** [input.value = v]: the IDL attribute converts [null] to the empty
    string and any other value to its string. *)
Definition inputValue (v : JSVal) : string :=
  match v with
  | JNull => ""
  | _ => toString v
  end.

(** The argument of [ElementInternals.setFormValue], a nullable string:
    [null] and [undefined] stand for no value, any other value for its
    string. *)
Definition submissionValue (v : JSVal) : option string :=
  if looselyNull v then None else Some (toString v).

(** ** Data model *)

(** The native [<input type="checkbox">] of the shadow tree ([this._native]),
    reduced to the IDL attributes the component reads or writes. *)
Record Native : Type := mkNative {
  n_checked : bool;
  n_disabled : bool;
  n_indeterminate : bool;
  n_name : string;
  n_value : string
}.

(** [ElementInternals]: the form value of [setFormValue] and what
    [setValidity] stored.  The component only ever raises the flags
    [valueMissing] and [customError]. *)
Record ElementInternals : Type := mkInternals {
  formValue : option string;
  valueMissing : bool;
  customError : bool;
  validationMessage : string
}.

(** The fallback [<input type="hidden">]: its [name] and [value] content
    attributes and the form it was appended to. *)
Record HiddenInput : Type := mkHidden {
  h_name : option string;
  h_value : option string;
  h_parent : option nat
}.

(** An event handed to [this.dispatchEvent], or fired at the host by the
    browser. *)
Record Event : Type := mkEvent {
  ev_type : string;
  ev_bubbles : bool;
  ev_composed : bool;
  ev_cancelable : bool
}.

(** Calls into the platform that leave no trace in the component state. *)
Inductive Effect : Type :=
| ButtonFocus
| ButtonBlur
| PreventDefault
| Alert (msg : string).

(** Forms are identified by a number; [form] is the result of
    [this.closest('form')]. *)
Record ToggleInput : Type := mkToggle {
  attrs : gmap string string;
  native : Native;
  internals : option ElementInternals;
  hiddenInput : option HiddenInput;
  customValidity : string;
  defaultChecked : bool;
  defaultIndeterminate : bool;
  classList : gset string;
  ownProps : gmap string JSVal;
  isConnected : bool;
  form : option nat;
  clickListener : bool;
  keydownListener : bool;
  resetListeners : gset nat;
  events : list Event;
  effects : list Effect
}.

(** *** Field updates *)

Definition set_attrs (f : gmap string string -> gmap string string) (s : ToggleInput) : ToggleInput :=
  mkToggle (f (attrs s)) (native s) (internals s) (hiddenInput s) (customValidity s)
    (defaultChecked s) (defaultIndeterminate s) (classList s) (ownProps s)
    (isConnected s) (form s) (clickListener s) (keydownListener s) (resetListeners s)
    (events s) (effects s).

Definition set_native (f : Native -> Native) (s : ToggleInput) : ToggleInput :=
  mkToggle (attrs s) (f (native s)) (internals s) (hiddenInput s) (customValidity s)
    (defaultChecked s) (defaultIndeterminate s) (classList s) (ownProps s)
    (isConnected s) (form s) (clickListener s) (keydownListener s) (resetListeners s)
    (events s) (effects s).

Definition set_internals (i : option ElementInternals) (s : ToggleInput) : ToggleInput :=
  mkToggle (attrs s) (native s) i (hiddenInput s) (customValidity s)
    (defaultChecked s) (defaultIndeterminate s) (classList s) (ownProps s)
    (isConnected s) (form s) (clickListener s) (keydownListener s) (resetListeners s)
    (events s) (effects s).

Definition set_hiddenInput (h : option HiddenInput) (s : ToggleInput) : ToggleInput :=
  mkToggle (attrs s) (native s) (internals s) h (customValidity s)
    (defaultChecked s) (defaultIndeterminate s) (classList s) (ownProps s)
    (isConnected s) (form s) (clickListener s) (keydownListener s) (resetListeners s)
    (events s) (effects s).

Definition set_customValidity (m : string) (s : ToggleInput) : ToggleInput :=
  mkToggle (attrs s) (native s) (internals s) (hiddenInput s) m
    (defaultChecked s) (defaultIndeterminate s) (classList s) (ownProps s)
    (isConnected s) (form s) (clickListener s) (keydownListener s) (resetListeners s)
    (events s) (effects s).

Definition set_defaults (c i : bool) (s : ToggleInput) : ToggleInput :=
  mkToggle (attrs s) (native s) (internals s) (hiddenInput s) (customValidity s)
    c i (classList s) (ownProps s)
    (isConnected s) (form s) (clickListener s) (keydownListener s) (resetListeners s)
    (events s) (effects s).

Definition set_classList (f : gset string -> gset string) (s : ToggleInput) : ToggleInput :=
  mkToggle (attrs s) (native s) (internals s) (hiddenInput s) (customValidity s)
    (defaultChecked s) (defaultIndeterminate s) (f (classList s)) (ownProps s)
    (isConnected s) (form s) (clickListener s) (keydownListener s) (resetListeners s)
    (events s) (effects s).

Definition set_ownProps (f : gmap string JSVal -> gmap string JSVal) (s : ToggleInput) : ToggleInput :=
  mkToggle (attrs s) (native s) (internals s) (hiddenInput s) (customValidity s)
    (defaultChecked s) (defaultIndeterminate s) (classList s) (f (ownProps s))
    (isConnected s) (form s) (clickListener s) (keydownListener s) (resetListeners s)
    (events s) (effects s).

Definition set_position (c : bool) (f : option nat) (s : ToggleInput) : ToggleInput :=
  mkToggle (attrs s) (native s) (internals s) (hiddenInput s) (customValidity s)
    (defaultChecked s) (defaultIndeterminate s) (classList s) (ownProps s)
    c f (clickListener s) (keydownListener s) (resetListeners s)
    (events s) (effects s).

Definition set_listeners (c k : bool) (s : ToggleInput) : ToggleInput :=
  mkToggle (attrs s) (native s) (internals s) (hiddenInput s) (customValidity s)
    (defaultChecked s) (defaultIndeterminate s) (classList s) (ownProps s)
    (isConnected s) (form s) c k (resetListeners s)
    (events s) (effects s).

Definition set_resetListeners (f : gset nat -> gset nat) (s : ToggleInput) : ToggleInput :=
  mkToggle (attrs s) (native s) (internals s) (hiddenInput s) (customValidity s)
    (defaultChecked s) (defaultIndeterminate s) (classList s) (ownProps s)
    (isConnected s) (form s) (clickListener s) (keydownListener s) (f (resetListeners s))
    (events s) (effects s).

(** [this.dispatchEvent(e)]: the host has no listener of its own for the
    event types it dispatches, so the call only shows in the log. *)
Definition dispatchEvent (e : Event) (s : ToggleInput) : ToggleInput :=
  mkToggle (attrs s) (native s) (internals s) (hiddenInput s) (customValidity s)
    (defaultChecked s) (defaultIndeterminate s) (classList s) (ownProps s)
    (isConnected s) (form s) (clickListener s) (keydownListener s) (resetListeners s)
    (events s ++ [e]) (effects s).

Definition perform (e : Effect) (s : ToggleInput) : ToggleInput :=
  mkToggle (attrs s) (native s) (internals s) (hiddenInput s) (customValidity s)
    (defaultChecked s) (defaultIndeterminate s) (classList s) (ownProps s)
    (isConnected s) (form s) (clickListener s) (keydownListener s) (resetListeners s)
    (events s) (effects s ++ [e]).

Definition nat_checked (b : bool) (n : Native) : Native :=
  mkNative b (n_disabled n) (n_indeterminate n) (n_name n) (n_value n).
Definition nat_disabled (b : bool) (n : Native) : Native :=
  mkNative (n_checked n) b (n_indeterminate n) (n_name n) (n_value n).
Definition nat_indeterminate (b : bool) (n : Native) : Native :=
  mkNative (n_checked n) (n_disabled n) b (n_name n) (n_value n).
Definition nat_name (v : string) (n : Native) : Native :=
  mkNative (n_checked n) (n_disabled n) (n_indeterminate n) v (n_value n).
Definition nat_value (v : string) (n : Native) : Native :=
  mkNative (n_checked n) (n_disabled n) (n_indeterminate n) (n_name n) v.

(** ** DOM primitives on the host element *)

Definition getAttribute (name : string) (s : ToggleInput) : option string :=
  attrs s !! name.

Definition hasAttribute (name : string) (s : ToggleInput) : bool :=
  match attrs s !! name with
  | Some _ => true
  | None => false
  end.

(** [static get observedAttributes()] (lines 15-17). *)
Definition observedAttributes : list string :=
  ["checked"; "disabled"; "name"; "value"; "aria-label"; "required";
   "indeterminate"; "autofocus"; "tabindex"].

Definition observed (name : string) : bool :=
  bool_decide (name ∈ observedAttributes).

(** The attribute list is changed without any custom element reaction:
    what [setAttribute] and [removeAttribute] do for a name that is not
    observed. *)
Definition setAttribute0 (name value : string) (s : ToggleInput) : ToggleInput :=
  set_attrs (fun m => <[name := value]> m) s.

Definition removeAttribute0 (name : string) (s : ToggleInput) : ToggleInput :=
  set_attrs (fun m => delete name m) s.

(** ** Getters (lines 184-200) *)

Definition get_checked (s : ToggleInput) : bool := n_checked (native s).
Definition get_disabled (s : ToggleInput) : bool := n_disabled (native s).
Definition get_indeterminate (s : ToggleInput) : bool := n_indeterminate (native s).
Definition get_name (s : ToggleInput) : option string := getAttribute "name" s.
Definition get_value (s : ToggleInput) : string := nullish (getAttribute "value" s) "on".
Definition get_required (s : ToggleInput) : bool := hasAttribute "required" s.

(** ** The properties as the class reads them *)

(** [this.required], [this.name] and [this.value] inside the methods, and
    [el.required], [el.name] and [el.value] for the page: a property
    assigned to the element before it was upgraded is an own data property
    and shadows the accessor of the prototype, until [_upgradeProperty]
    deletes it.  [connectedCallback] replays [name] and [value]
    (lines 134-135) but not [required], so an early [required] property
    shadows the accessor for good.  [this_required] is the truthiness of
    [this.required], the only use the class makes of it.

    [this.disabled] is read by the click and keydown handlers only
    (lines 211, 219); they run while the listeners of lines 139-140 are
    registered, that is after [connectedCallback] has replayed an early
    [disabled] property (line 133), and are embedded with the accessor. *)
Definition this_required (s : ToggleInput) : bool :=
  match ownProps s !! "required" with
  | Some v => truthy v
  | None => get_required s
  end.

Definition this_name (s : ToggleInput) : JSVal :=
  match ownProps s !! "name" with
  | Some v => v
  | None => ofAttribute (get_name s)
  end.

Definition this_value (s : ToggleInput) : JSVal :=
  match ownProps s !! "value" with
  | Some v => v
  | None => JStr (get_value s)
  end.

(** [focus()] and [blur()] (lines 375-376). *)
Definition focus (s : ToggleInput) : ToggleInput := perform ButtonFocus s.
Definition blur (s : ToggleInput) : ToggleInput := perform ButtonBlur s.

(** ** [_render] (lines 269-291) *)

(** The three attributes written here, [aria-checked], [aria-disabled] and
    [aria-required], are not observed, so [setAttribute] and
    [removeAttribute] enqueue no reaction for them (lemma
    [setAttribute_unobserved] below). *)
Definition _render (s : ToggleInput) : ToggleInput :=
  let checked := n_checked (native s) in
  let disabled := n_disabled (native s) in
  let required := this_required s in
  let indeterminate := n_indeterminate (native s) in
  let s := setAttribute0 "aria-checked"
             (if indeterminate then "mixed" else if checked then "true" else "false") s in
  let s := if disabled then setAttribute0 "aria-disabled" "true" s
           else removeAttribute0 "aria-disabled" s in
  let s := if required then setAttribute0 "aria-required" "true" s
           else removeAttribute0 "aria-required" s in
  let s :=
    if indeterminate then
      set_classList (fun c => ({[ "indeterminate" ]} ∪ c) ∖ {[ "on" ]}) s
    else if checked then
      set_classList (fun c => ({[ "on" ]} ∪ c) ∖ {[ "indeterminate" ]}) s
    else
      set_classList (fun c => (c ∖ {[ "on" ]}) ∖ {[ "indeterminate" ]}) s in
  if disabled then set_classList (fun c => {[ "disabled" ]} ∪ c) s
  else set_classList (fun c => c ∖ {[ "disabled" ]}) s.

(** ** Form participation (lines 293-333) *)

(** Lines 317-323, the part of [_updateHiddenInput] that runs once
    [this._hiddenInput] is known to exist: the hidden input carries the
    host's name ([this.name || '']) and value ([this.value]) while the
    native checkbox is checked and loses both attributes otherwise. *)
Definition writeHiddenInput (h : HiddenInput) (s : ToggleInput) : HiddenInput :=
  if n_checked (native s) then
    mkHidden (Some (orEmpty (this_name s))) (Some (inputValue (this_value s))) (h_parent h)
  else
    mkHidden None None (h_parent h).

(** [_ensureHiddenInput] (lines 293-309).  The call of
    [this._updateHiddenInput()] on line 307 happens when
    [this._hiddenInput] has just been assigned, so it goes straight to
    lines 317-323. *)
Definition _ensureHiddenInput (s : ToggleInput) : ToggleInput :=
  if negb (isConnected s) then s
  else
    match form s, hiddenInput s with
    | None, Some _ => set_hiddenInput None s
    | _, _ =>
        match internals s, form s, hiddenInput s with
        | None, Some f, None =>
            if truthy (this_name s) then
              let h := mkHidden (Some (toString (this_name s))) None (Some f) in
              set_hiddenInput (Some (writeHiddenInput h s)) s
            else s
        | _, _, _ => s
        end
    end.

(** [_updateHiddenInput] (lines 311-324). *)
Definition _updateHiddenInput (s : ToggleInput) : ToggleInput :=
  let s := match hiddenInput s with
           | None => _ensureHiddenInput s
           | Some _ => s
           end in
  match hiddenInput s with
  | None => s
  | Some h => set_hiddenInput (Some (writeHiddenInput h s)) s
  end.

(** [ElementInternals.setFormValue]. *)
Definition setFormValue (v : option string) (i : ElementInternals) : ElementInternals :=
  mkInternals v (valueMissing i) (customError i) (validationMessage i).

(** [ElementInternals.setValidity(flags, message, anchor)]: the flags
    absent from the dictionary are false; the call with only [{}] clears
    the message.  The component always passes a non-empty message with a
    raised flag and its own button as anchor, so the call never throws. *)
Definition setValidity (vm ce : bool) (msg : string) (i : ElementInternals) : ElementInternals :=
  mkInternals (formValue i) vm ce msg.

(** [ElementInternals.validity.valid]. *)
Definition valid (i : ElementInternals) : bool :=
  negb (valueMissing i || customError i).

(** [_updateFormValue] (lines 326-333). *)
Definition _updateFormValue (s : ToggleInput) : ToggleInput :=
  match internals s with
  | Some i =>
      if n_checked (native s)
      then set_internals (Some (setFormValue (submissionValue (this_value s)) i)) s
      else set_internals (Some (setFormValue None i)) s
  | None => _updateHiddenInput s
  end.

(** ** Validation (lines 335-373) *)

Definition nonEmpty (m : string) : bool := negb (String.eqb m "").

(** [_updateValidity] (lines 335-349); [aria-invalid] is not observed. *)
Definition _updateValidity (s : ToggleInput) : ToggleInput :=
  let isValueMissing := this_required s && negb (n_checked (native s)) in
  match internals s with
  | Some i =>
      let vm := isValueMissing in
      let ce := nonEmpty (customValidity s) in
      if vm || ce then
        set_internals
          (Some (setValidity vm ce
                   (orElse (Some (customValidity s)) "This checkbox cannot be left unchecked.") i)) s
      else
        set_internals (Some (setValidity false false "" i)) s
  | None =>
      if isValueMissing || nonEmpty (customValidity s) then setAttribute0 "aria-invalid" "true" s
      else removeAttribute0 "aria-invalid" s
  end.

(** [checkValidity] (lines 351-355): the state after the call and the
    value returned. *)
Definition checkValidity (s : ToggleInput) : ToggleInput * bool :=
  let s := _updateValidity s in
  match internals s with
  | Some i => (s, valid i)
  | None =>
      (s, negb (this_required s && negb (n_checked (native s))) && negb (nonEmpty (customValidity s)))
  end.

(** [ElementInternals.reportValidity()] runs the report validity steps of
    the HTML Standard on the host: an element that is a candidate for
    constraint validation and has a validity flag raised gets a cancelable
    [invalid] event fired at it and the answer is false; otherwise the
    answer is true.  The class is form-associated (line 13), and a
    form-associated custom element is barred from constraint validation
    when it is disabled or carries the [readonly] attribute.  The element
    is taken to have no disabled [fieldset] and no [datalist] among its
    ancestors, which would bar it as well. *)
Definition invalidEvent : Event := mkEvent "invalid" false false true.

Definition barred (s : ToggleInput) : bool :=
  hasAttribute "disabled" s || hasAttribute "readonly" s.

(** [reportValidity] (lines 357-365). *)
Definition reportValidity (s : ToggleInput) : ToggleInput * bool :=
  let s := _updateValidity s in
  match internals s with
  | Some i =>
      if barred s || valid i then (s, true) else (dispatchEvent invalidEvent s, false)
  | None =>
      let (s, ok) := checkValidity s in
      if ok then (s, true)
      else
        let msg := orElse (Some (customValidity s)) "Please fill out this field." in
        (perform (Alert msg) (focus s), false)
  end.

(** [setCustomValidity] (lines 367-373). *)
Definition setCustomValidity (message : JSVal) (s : ToggleInput) : ToggleInput :=
  let s := set_customValidity (if truthy message then toString message else "") s in
  match internals s with
  | Some i =>
      if nonEmpty (customValidity s) then
        set_internals (Some (setValidity false true (customValidity s) i)) s
      else _updateValidity s
  | None => _updateValidity s
  end.

(** ** Attribute reactions (lines 161-182) *)

(** Lines 164-181: what the callback does once the value is known to have
    changed. *)
Definition reflectAttribute (name : string) (s : ToggleInput) : ToggleInput :=
  let s := if String.eqb name "checked"
           then set_native (nat_checked (hasAttribute "checked" s)) s else s in
  let s := if String.eqb name "disabled"
           then set_native (nat_disabled (hasAttribute "disabled" s)) s else s in
  let s := if String.eqb name "name"
           then set_native (nat_name (orElse (getAttribute "name" s) "")) s else s in
  let s := if String.eqb name "value"
           then set_native (nat_value (nullish (getAttribute "value" s) "on")) s else s in
  let s := if String.eqb name "indeterminate"
           then set_native (nat_indeterminate (hasAttribute "indeterminate" s)) s else s in
  let s := _render s in
  let s := if String.eqb name "name" || String.eqb name "value"
              || String.eqb name "checked" || String.eqb name "indeterminate"
           then _updateFormValue (_updateHiddenInput s) else s in
  let s := if String.eqb name "required" || String.eqb name "checked"
              || String.eqb name "aria-label"
           then _updateValidity s else s in
  if String.eqb name "autofocus" && hasAttribute "autofocus" s then focus s else s.

Definition attributeChangedCallback (name : string) (oldVal newVal : option string)
    (s : ToggleInput) : ToggleInput :=
  if bool_decide (oldVal = newVal) then s else reflectAttribute name s.

(** [Element.setAttribute] on the host: the attribute is written and, for an
    observed name, [attributeChangedCallback] runs before the call
    returns, also when the value did not change. *)
Definition setAttribute (name value : string) (s : ToggleInput) : ToggleInput :=
  let old := getAttribute name s in
  let s := setAttribute0 name value s in
  if observed name then attributeChangedCallback name old (Some value) s else s.

(** [Element.removeAttribute] on the host: nothing happens when the
    attribute is absent. *)
Definition removeAttribute (name : string) (s : ToggleInput) : ToggleInput :=
  match getAttribute name s with
  | None => s
  | Some old =>
      let s := removeAttribute0 name s in
      if observed name then attributeChangedCallback name (Some old) None s else s
  end.

(** ** Setters (lines 185-200) *)

Definition set_checked (val : JSVal) (s : ToggleInput) : ToggleInput :=
  if truthy val then setAttribute "checked" "" s else removeAttribute "checked" s.

Definition set_disabled (val : JSVal) (s : ToggleInput) : ToggleInput :=
  if truthy val then setAttribute "disabled" "" s else removeAttribute "disabled" s.

Definition set_name (v : JSVal) (s : ToggleInput) : ToggleInput :=
  if looselyNull v then removeAttribute "name" s else setAttribute "name" (toString v) s.

Definition set_value (v : JSVal) (s : ToggleInput) : ToggleInput :=
  if looselyNull v then removeAttribute "value" s else setAttribute "value" (toString v) s.

Definition set_required (val : JSVal) (s : ToggleInput) : ToggleInput :=
  if truthy val then setAttribute "required" "" s else removeAttribute "required" s.

Definition set_indeterminate (val : JSVal) (s : ToggleInput) : ToggleInput :=
  if truthy val then setAttribute "indeterminate" "" s else removeAttribute "indeterminate" s.

(** The properties the class defines accessors for (lines 184-200). *)
Definition classProperties : list string :=
  ["checked"; "disabled"; "name"; "value"; "required"; "indeterminate"].

Definition classProperty (prop : string) : bool :=
  bool_decide (prop ∈ classProperties).

(** [el[prop] = value] once the element is an instance of the class: the
    accessors of the prototype are found unless an own property shadows
    them.  The last branch is an assignment to a name that means nothing
    to the class nor to the platform: it creates an own property.  It is
    not a model of an assignment to a field of the instance
    ([_customValidity], [_defaultChecked], ...) or to an accessor the
    element inherits from the platform ([tabIndex], [ariaChecked], ...);
    the statements that classify the operations of a page keep to
    [classProperty]. *)
Definition assign (prop : string) (value : JSVal) (s : ToggleInput) : ToggleInput :=
  match ownProps s !! prop with
  | Some _ => set_ownProps (fun m => <[prop := value]> m) s
  | None =>
      if String.eqb prop "checked" then set_checked value s
      else if String.eqb prop "disabled" then set_disabled value s
      else if String.eqb prop "name" then set_name value s
      else if String.eqb prop "value" then set_value value s
      else if String.eqb prop "required" then set_required value s
      else if String.eqb prop "indeterminate" then set_indeterminate value s
      else set_ownProps (fun m => <[prop := value]> m) s
  end.

(** [_upgradeProperty] (lines 202-208): a property assigned before the
    element was upgraded is deleted and replayed through the setter. *)
Definition _upgradeProperty (prop : string) (s : ToggleInput) : ToggleInput :=
  match ownProps s !! prop with
  | Some value => assign prop value (set_ownProps (fun m => delete prop m) s)
  | None => s
  end.

(** ** User interaction (lines 210-248) *)

Definition inputEvent : Event := mkEvent "input" true true false.
Definition changeEvent : Event := mkEvent "change" true true false.
Definition clickEvent : Event := mkEvent "click" true true true.

(** The two branches shared by the handlers and by [toggle]. *)
Definition mirrorChecked (s : ToggleInput) : ToggleInput :=
  if n_checked (native s) then setAttribute "checked" "" s else removeAttribute "checked" s.

(** [_onNativeInput] (lines 226-236). *)
Definition _onNativeInput (s : ToggleInput) : ToggleInput :=
  let s := if n_indeterminate (native s) then removeAttribute "indeterminate" s else s in
  let s := mirrorChecked s in
  let s := _updateHiddenInput s in
  let s := _updateFormValue s in
  let s := _updateValidity s in
  let s := _render s in
  dispatchEvent inputEvent s.

(** [_onNativeChange] (lines 238-248). *)
Definition _onNativeChange (s : ToggleInput) : ToggleInput :=
  let s := if n_indeterminate (native s) then removeAttribute "indeterminate" s else s in
  let s := mirrorChecked s in
  let s := _updateHiddenInput s in
  let s := _updateFormValue s in
  let s := _updateValidity s in
  let s := _render s in
  dispatchEvent changeEvent s.

(** [this._native.click()] as the HTML Standard defines it for a checkbox
    (the [click()] method; legacy-pre-activation behaviour and input
    activation behaviour of [input] elements): a disabled control ignores
    the call; otherwise the checkedness is set to its opposite and the
    [indeterminate] IDL attribute to false, and then, when the element is
    connected, an [input] event and a [change] event are fired at it, which
    the listeners registered on lines 121-122 receive.  The native
    checkbox lives in the host's shadow tree, so it is connected exactly
    when the host is.  No listener of the page is assumed to cancel the
    click. *)
Definition nativeClick (s : ToggleInput) : ToggleInput :=
  if n_disabled (native s) then s
  else
    let s := set_native (fun n => nat_indeterminate false (nat_checked (negb (n_checked n)) n)) s in
    if isConnected s then _onNativeChange (_onNativeInput s) else s.

(** [_onClick] (lines 210-216). *)
Definition _onClick (s : ToggleInput) : ToggleInput :=
  if get_disabled s then s
  else dispatchEvent clickEvent (nativeClick s).

Definition togglingKey (key : string) : bool :=
  String.eqb key " " || String.eqb key "Spacebar" || String.eqb key "Enter".

(** [_onKeyDown] (lines 218-224). *)
Definition _onKeyDown (key : string) (s : ToggleInput) : ToggleInput :=
  if get_disabled s then s
  else if togglingKey key then nativeClick (perform PreventDefault s)
  else s.

(** [_onFormReset] (lines 250-257). *)
Definition _onFormReset (s : ToggleInput) : ToggleInput :=
  let s := if defaultChecked s then setAttribute "checked" "" s
           else removeAttribute "checked" s in
  let s := if defaultIndeterminate s then setAttribute "indeterminate" "" s
           else removeAttribute "indeterminate" s in
  let s := _updateHiddenInput s in
  let s := _updateFormValue s in
  let s := _updateValidity s in
  _render s.

(** [toggle] (lines 259-267). *)
Definition toggle (s : ToggleInput) : ToggleInput :=
  let s := set_native (fun n => nat_checked (negb (n_checked n)) n) s in
  let s := if n_indeterminate (native s) then set_native (nat_indeterminate false) s else s in
  let s := mirrorChecked s in
  let s := _updateHiddenInput s in
  let s := _updateFormValue s in
  let s := _updateValidity s in
  _render s.

(** ** Life cycle (lines 19-159) *)

(** The constructor (lines 19-123).  [attachInternalsAvailable] tells
    whether [this.attachInternals] exists in the browser; [own] holds the
    properties assigned to the element before it was upgraded. *)
Definition constructor (attachInternalsAvailable : bool) (own : gmap string JSVal) : ToggleInput :=
  mkToggle ∅ (mkNative false false false "" "on")
    (if attachInternalsAvailable then Some (mkInternals None false false "") else None)
    None "" false false ∅ own false None false false ∅ [] [].

(** [connectedCallback] (lines 125-152), stage by stage. *)

(** Lines 126-127: the role and the tab stop, unless the page gave some. *)
Definition cc_prepare (s : ToggleInput) : ToggleInput :=
  let s := if negb (hasAttribute "role" s) then setAttribute "role" "checkbox" s else s in
  if negb (hasAttribute "tabindex" s) then setAttribute "tabindex" "0" s else s.

(** Lines 129-130: the defaults a form reset goes back to. *)
Definition cc_capture (s : ToggleInput) : ToggleInput :=
  set_defaults (hasAttribute "checked" s) (hasAttribute "indeterminate" s) s.

(** Lines 132-138: early property assignments are replayed, then the
    first rendering. *)
Definition cc_upgrade (s : ToggleInput) : ToggleInput :=
  let s := _upgradeProperty "checked" s in
  let s := _upgradeProperty "disabled" s in
  let s := _upgradeProperty "name" s in
  let s := _upgradeProperty "value" s in
  let s := _upgradeProperty "indeterminate" s in
  _render s.

(** Lines 139-140: the click and keydown listeners. *)
Definition cc_listen (s : ToggleInput) : ToggleInput := set_listeners true true s.

(** Lines 142-144: form value, validity and hidden input. *)
Definition cc_form (s : ToggleInput) : ToggleInput :=
  let s := _updateFormValue s in
  let s := _updateValidity s in
  _ensureHiddenInput s.

(** Lines 146-151: the reset listener on the surrounding form, and the
    autofocus. *)
Definition cc_finish (s : ToggleInput) : ToggleInput :=
  let s := match form s with
           | Some f => set_resetListeners (fun l => {[ f ]} ∪ l) s
           | None => s
           end in
  if hasAttribute "autofocus" s then focus s else s.

Definition connectedCallback (s : ToggleInput) : ToggleInput :=
  cc_finish (cc_form (cc_listen (cc_upgrade (cc_capture (cc_prepare s))))).

(** [disconnectedCallback] (lines 154-159). *)
Definition disconnectedCallback (s : ToggleInput) : ToggleInput :=
  let s := set_listeners false false s in
  match form s with
  | Some f => set_resetListeners (fun l => l ∖ {[ f ]}) s
  | None => s
  end.

(** The element ends up at a place of some tree, connected or not, with
    [f] its closest form.  The reactions run when the DOM operation is
    over, so both callbacks see the new place: [disconnectedCallback] if
    the element was connected before, [connectedCallback] if it is now. *)
Definition place (c : bool) (f : option nat) (s : ToggleInput) : ToggleInput :=
  let was := isConnected s in
  let s := set_position c f s in
  let s := if was then disconnectedCallback s else s in
  if c then connectedCallback s else s.

(** The element becomes an instance of the class: it is created by
    [document.createElement] or by the parser, or an element that was in
    the page before the class was defined is upgraded.  The constructor
    runs; the attributes [atts] the element already carries are reported
    one by one through [attributeChangedCallback] (observed names only, old
    value [null]); [connectedCallback] follows if the element is in a
    document.  [c] and [f] tell where the element is, [own] which
    properties were assigned to it before the upgrade. *)
Definition upgradeReaction (s : ToggleInput) (a : string * string) : ToggleInput :=
  if observed a.1 then attributeChangedCallback a.1 None (Some a.2) s else s.

Definition upgrade (attachInternalsAvailable : bool) (own : gmap string JSVal)
    (atts : list (string * string)) (c : bool) (f : option nat) : ToggleInput :=
  let s := constructor attachInternalsAvailable own in
  let s := set_position c f (set_attrs (fun _ => list_to_map atts) s) in
  let s := fold_left upgradeReaction atts s in
  if c then connectedCallback s else s.

(** ** Operations of a page on the element *)

Inductive Op : Type :=
| OSetAttribute (name value : string)
| ORemoveAttribute (name : string)
| OAssign (prop : string) (value : JSVal)
| OToggle
| OCheckValidity
| OReportValidity
| OSetCustomValidity (message : JSVal)
| OFocus
| OBlur
| OUserClick
| OKeyDown (key : string)
| OFormReset (f : nat)
| OPlace (connected : bool) (f : option nat).

(** A click or a key press reaches the handler only while the listener is
    registered, and a reset of form [f] only if [_onFormReset] listens on
    that form. *)
Definition step (o : Op) (s : ToggleInput) : ToggleInput :=
  match o with
  | OSetAttribute name value => setAttribute name value s
  | ORemoveAttribute name => removeAttribute name s
  | OAssign prop value => assign prop value s
  | OToggle => toggle s
  | OCheckValidity => (checkValidity s).1
  | OReportValidity => (reportValidity s).1
  | OSetCustomValidity message => setCustomValidity message s
  | OFocus => focus s
  | OBlur => blur s
  | OUserClick => if clickListener s then _onClick s else s
  | OKeyDown key => if keydownListener s then _onKeyDown key s else s
  | OFormReset f => if bool_decide (f ∈ resetListeners s) then _onFormReset s else s
  | OPlace c f => place c f s
  end.

Definition run (ops : list Op) (s : ToggleInput) : ToggleInput :=
  fold_left (fun s o => step o s) ops s.

(** * Reasoning about the embedding *)

(** ** Shapes *)

(** The methods below only touch the form value, the validity, the hidden
    input, the ARIA attributes and the class list: each is a few field
    updates on its argument. *)
Ltac unfold_low :=
  unfold _updateFormValue, _updateValidity, _updateHiddenInput, _ensureHiddenInput,
    _render, focus, blur, setAttribute0, removeAttribute0 in *.

Ltac shape :=
  intros s; unfold_low; cbv zeta; destruct s; cbn;
  repeat match goal with
  | |- context [if ?c then _ else _] => destruct c
  | |- context [match ?c with Some _ => _ | None => _ end] => destruct c
  end; reflexivity.

Lemma render_shape s :
  _render s = set_classList (fun _ => classList (_render s)) (set_attrs (fun _ => attrs (_render s)) s).
Proof. revert s. shape. Qed.

Lemma ensureHiddenInput_shape s :
  _ensureHiddenInput s = set_hiddenInput (hiddenInput (_ensureHiddenInput s)) s.
Proof. revert s. shape. Qed.

Lemma updateHiddenInput_shape s :
  _updateHiddenInput s = set_hiddenInput (hiddenInput (_updateHiddenInput s)) s.
Proof. revert s. shape. Qed.

Lemma updateFormValue_shape s :
  _updateFormValue s =
  set_hiddenInput (hiddenInput (_updateFormValue s)) (set_internals (internals (_updateFormValue s)) s).
Proof. revert s. shape. Qed.

Lemma updateValidity_shape s :
  _updateValidity s =
  set_attrs (fun _ => attrs (_updateValidity s)) (set_internals (internals (_updateValidity s)) s).
Proof. revert s. shape. Qed.

(** The attributes the component writes for itself; none is observed. *)
Definition internalAttr (k : string) : bool :=
  bool_decide (k ∈ ["aria-checked"; "aria-disabled"; "aria-required"; "aria-invalid"]).

Lemma internalAttr_false k :
  internalAttr k = false ->
  k <> "aria-checked" /\ k <> "aria-disabled" /\ k <> "aria-required" /\ k <> "aria-invalid".
Proof.
  unfold internalAttr. intros H. apply bool_decide_eq_false in H.
  repeat split; intros ->; apply H; set_solver.
Qed.

Ltac attr_low :=
  intros k s Hk; apply internalAttr_false in Hk; destruct Hk as (? & ? & ? & ?);
  unfold_low; cbv zeta;
  repeat match goal with
  | |- context [if ?c then _ else _] => destruct c
  | |- context [match ?c with Some _ => _ | None => _ end] => destruct c
  end; cbn;
  repeat first [rewrite lookup_insert_ne by congruence | rewrite lookup_delete_ne by congruence];
  reflexivity.

Lemma attrs_render k s :
  internalAttr k = false -> attrs (_render s) !! k = attrs s !! k.
Proof. revert k s. attr_low. Qed.

Lemma attrs_updateValidity k s :
  internalAttr k = false -> attrs (_updateValidity s) !! k = attrs s !! k.
Proof. revert k s. attr_low. Qed.

Lemma attrs_ensureHiddenInput s : attrs (_ensureHiddenInput s) = attrs s.
Proof. now rewrite ensureHiddenInput_shape. Qed.

Lemma attrs_updateHiddenInput s : attrs (_updateHiddenInput s) = attrs s.
Proof. now rewrite updateHiddenInput_shape. Qed.

Lemma attrs_updateFormValue s : attrs (_updateFormValue s) = attrs s.
Proof. now rewrite updateFormValue_shape. Qed.

(** ** Tactics *)

(** A field read through a call that does not write it. *)
Ltac frame :=
  first
    [ reflexivity
    | rewrite render_shape; reflexivity
    | rewrite ensureHiddenInput_shape; reflexivity
    | rewrite updateHiddenInput_shape; reflexivity
    | rewrite updateFormValue_shape; reflexivity
    | rewrite updateValidity_shape; reflexivity ].

Ltac is_low t :=
  lazymatch t with
  | _render _ => idtac
  | _ensureHiddenInput _ => idtac
  | _updateHiddenInput _ => idtac
  | _updateFormValue _ => idtac
  | _updateValidity _ => idtac
  | focus _ => idtac
  | blur _ => idtac
  | perform _ _ => idtac
  | dispatchEvent _ _ => idtac
  | setAttribute0 _ _ _ => idtac
  | removeAttribute0 _ _ => idtac
  | set_attrs _ _ => idtac
  | set_native _ _ => idtac
  | set_defaults _ _ _ => idtac
  | set_listeners _ _ _ => idtac
  | set_resetListeners _ _ => idtac
  | set_position _ _ _ => idtac
  | set_ownProps _ _ => idtac
  | set_customValidity _ _ => idtac
  | set_internals _ _ => idtac
  | set_hiddenInput _ _ => idtac
  end.

Ltac push_field p :=
  match goal with
  | |- context [p ?t] =>
      is_low t;
      lazymatch t with
      | ?f ?s =>
          let H := fresh in
          assert (H : p t = p s) by frame;
          rewrite !H; clear H
      end
  end.

Ltac push_attr :=
  first
    [ rewrite attrs_ensureHiddenInput
    | rewrite attrs_updateHiddenInput
    | rewrite attrs_updateFormValue
    | rewrite attrs_render by (first [assumption | reflexivity])
    | rewrite attrs_updateValidity by (first [assumption | reflexivity]) ].

Ltac push :=
  repeat first
    [ push_field native | push_field internals | push_field hiddenInput
    | push_field customValidity | push_field defaultChecked
    | push_field defaultIndeterminate | push_field ownProps
    | push_field isConnected | push_field form | push_field clickListener
    | push_field keydownListener | push_field resetListeners
    | push_field events | push_field attrs | push_attr ].

Ltac unfold_reads :=
  unfold this_required, this_name, this_value,
    get_checked, get_disabled, get_indeterminate, get_name, get_value,
    get_required, hasAttribute, getAttribute in *.

(** ** The browser's attribute reactions and the unobserved names *)

Lemma setAttribute_unobserved name value s :
  observed name = false -> setAttribute name value s = setAttribute0 name value s.
Proof. intros H. unfold setAttribute. cbn. now rewrite H. Qed.

Lemma removeAttribute_unobserved name s :
  observed name = false -> removeAttribute name s = removeAttribute0 name s.
Proof.
  intros H. unfold removeAttribute, removeAttribute0, getAttribute.
  destruct (attrs s !! name) eqn:E; cbn; rewrite ?H; [reflexivity|].
  destruct s; cbn in *. unfold set_attrs; cbn. now rewrite delete_id.
Qed.

Lemma observed_cases name :
  observed name = true ->
  name = "checked" \/ name = "disabled" \/ name = "name" \/ name = "value" \/
  name = "aria-label" \/ name = "required" \/ name = "indeterminate" \/
  name = "autofocus" \/ name = "tabindex".
Proof.
  unfold observed, observedAttributes. intros H. apply bool_decide_eq_true in H.
  repeat (apply elem_of_cons in H as [H|H]; [tauto|]).
  now apply elem_of_nil in H.
Qed.

Ltac names H :=
  apply observed_cases in H;
  destruct H as [->|[->|[->|[->|[->|[->|[->|[->| ->]]]]]]]].

Ltac eval_names := cbn [String.eqb Ascii.eqb Bool.eqb orb andb negb].


(** ** What an operation leaves alone *)

(** The fields only the life-cycle callbacks write: the defaults captured
    on connection, the place in the tree and the registered listeners. *)
Record sameHost (s s' : ToggleInput) : Prop := mkSameHost {
  sh_defaultChecked : defaultChecked s' = defaultChecked s;
  sh_defaultIndeterminate : defaultIndeterminate s' = defaultIndeterminate s;
  sh_isConnected : isConnected s' = isConnected s;
  sh_form : form s' = form s;
  sh_clickListener : clickListener s' = clickListener s;
  sh_keydownListener : keydownListener s' = keydownListener s;
  sh_resetListeners : resetListeners s' = resetListeners s
}.

Lemma sameHost_refl s : sameHost s s.
Proof. now constructor. Qed.

Lemma sameHost_trans s1 s2 s3 : sameHost s1 s2 -> sameHost s2 s3 -> sameHost s1 s3.
Proof. intros [] []. constructor; congruence. Qed.

Ltac host_low := constructor; frame.

Lemma render_host s : sameHost s (_render s).
Proof. host_low. Qed.
Lemma ensureHiddenInput_host s : sameHost s (_ensureHiddenInput s).
Proof. host_low. Qed.
Lemma updateHiddenInput_host s : sameHost s (_updateHiddenInput s).
Proof. host_low. Qed.
Lemma updateFormValue_host s : sameHost s (_updateFormValue s).
Proof. host_low. Qed.
Lemma updateValidity_host s : sameHost s (_updateValidity s).
Proof. host_low. Qed.
Lemma perform_host e s : sameHost s (perform e s).
Proof. host_low. Qed.
Lemma dispatchEvent_host e s : sameHost s (dispatchEvent e s).
Proof. host_low. Qed.
Lemma setAttribute0_host k v s : sameHost s (setAttribute0 k v s).
Proof. host_low. Qed.
Lemma removeAttribute0_host k s : sameHost s (removeAttribute0 k s).
Proof. host_low. Qed.
Lemma set_native_host f s : sameHost s (set_native f s).
Proof. host_low. Qed.
Lemma set_ownProps_host f s : sameHost s (set_ownProps f s).
Proof. host_low. Qed.
Lemma set_customValidity_host m s : sameHost s (set_customValidity m s).
Proof. host_low. Qed.
Lemma set_internals_host i s : sameHost s (set_internals i s).
Proof. host_low. Qed.
Lemma focus_host s : sameHost s (focus s).
Proof. host_low. Qed.
Lemma blur_host s : sameHost s (blur s).
Proof. host_low. Qed.

Create HintDb host discriminated.
#[export] Hint Constants Opaque : host.
#[export] Hint Resolve sameHost_refl render_host ensureHiddenInput_host updateHiddenInput_host
  updateFormValue_host updateValidity_host perform_host dispatchEvent_host
  setAttribute0_host removeAttribute0_host set_native_host set_ownProps_host
  set_customValidity_host set_internals_host focus_host blur_host : host.

(** One step back along a chain of calls: the last call is peeled off and
    justified by a lemma of the database. *)
Ltac host_step :=
  lazymatch goal with
  | |- sameHost ?s ?s => apply sameHost_refl
  | |- sameHost _ (if _ then ?f ?x else ?x) =>
      apply (sameHost_trans _ x);
      [| generalize x; intros ?;
         lazymatch goal with |- sameHost _ (if ?c then _ else _) => destruct c end;
         auto with host ]
  | |- sameHost _ (if _ then ?f ?x else ?g ?x) =>
      apply (sameHost_trans _ x);
      [| generalize x; intros ?;
         lazymatch goal with |- sameHost _ (if ?c then _ else _) => destruct c end;
         auto with host ]
  | |- sameHost _ (match _ with Some _ => _ | None => ?x end) =>
      apply (sameHost_trans _ x);
      [| generalize x; intros ?;
         lazymatch goal with
         | |- sameHost _ (match ?c with Some _ => _ | None => _ end) => destruct c
         end; auto with host ]
  | |- sameHost _ (?f ?x) =>
      apply (sameHost_trans _ x); [| generalize x; intros ?; solve [auto with host] ]
  end.

Ltac host_chain := cbv zeta; repeat host_step.

(** ** [attributeChangedCallback] *)

Lemma attributeChangedCallback_same name o s :
  attributeChangedCallback name o o s = s.
Proof. unfold attributeChangedCallback. now rewrite bool_decide_eq_true_2. Qed.

(** Case analysis on [oldVal === newVal]; the second case is left with the
    body of the callback, the tests on the name evaluated. *)
Lemma attributeChangedCallback_changed name o n s :
  o <> n -> attributeChangedCallback name o n s = reflectAttribute name s.
Proof. intros H. unfold attributeChangedCallback. now rewrite bool_decide_eq_false_2. Qed.

Ltac callback o n :=
  destruct (decide (o = n)) as [->|?];
  [ rewrite attributeChangedCallback_same
  | rewrite attributeChangedCallback_changed by assumption;
    unfold reflectAttribute; eval_names; cbv zeta ].

Lemma attributeChangedCallback_host name o n s :
  observed name = true -> sameHost s (attributeChangedCallback name o n s).
Proof.
  intros H. names H; (callback o n; [apply sameHost_refl|]); host_chain.
Qed.

Lemma attributeChangedCallback_attrs name o n k s :
  observed name = true -> internalAttr k = false ->
  attrs (attributeChangedCallback name o n s) !! k = attrs s !! k.
Proof.
  intros H Hk. names H; (callback o n; [reflexivity|]); repeat case_match; push; reflexivity.
Qed.

(** ** The state kept for the form *)

(** The native checkbox mirrors the [checked] attribute of the host. *)
Definition checkedMirrored (s : ToggleInput) : Prop :=
  get_checked s = hasAttribute "checked" s.

(** A hidden input exists only when there is no [ElementInternals]. *)
Definition fallbackOnly (s : ToggleInput) : Prop :=
  internals s = None \/ hiddenInput s = None.

(** What the form would submit follows the checked state: the form value
    of the internals, or the name and value of the hidden input. *)
Definition valueSynced (s : ToggleInput) : Prop :=
  (forall i, internals s = Some i ->
     formValue i = if get_checked s then submissionValue (this_value s) else None) /\
  (forall h, hiddenInput s = Some h ->
     h_name h = (if get_checked s then Some (orEmpty (this_name s)) else None) /\
     h_value h = (if get_checked s then Some (inputValue (this_value s)) else None)).

(** On the fallback path a connected, named element inside a form has its
    hidden input. *)
Definition hiddenPresent (s : ToggleInput) : Prop :=
  internals s = None -> isConnected s = true -> form s <> None ->
  truthy (this_name s) = true -> hiddenInput s <> None.

Definition synced (s : ToggleInput) : Prop :=
  valueSynced s /\ hiddenPresent s /\ fallbackOnly s.

(** All that [synced] reads. *)
Definition formView (s : ToggleInput) :=
  (n_checked (native s), this_name s, this_value s,
   formValue <$> internals s, hiddenInput s, isConnected s, form s).

Lemma synced_view s s' : formView s' = formView s -> synced s -> synced s'.
Proof.
  unfold formView. intros E. injection E as E1 E2 E3 E4 E5 E6 E7.
  unfold synced, valueSynced, hiddenPresent, fallbackOnly, get_checked.
  rewrite E1, E2, E3, E5, E6, E7.
  intros ((Hi & Hh) & Hp & Hf). repeat split.
  - intros i Hi'. rewrite Hi' in E4. destruct (internals s) as [j|]; [|discriminate].
    cbn in E4. injection E4 as ->. now apply Hi.
  - now apply Hh.
  - now apply Hh.
  - intros Hn. apply Hp. destruct (internals s); [now rewrite Hn in E4|reflexivity].
  - destruct Hf as [Hf|Hf]; [left|now right].
    rewrite Hf in E4. now destruct (internals s').
Qed.

Lemma fallbackOnly_view s s' : formView s' = formView s -> fallbackOnly s -> fallbackOnly s'.
Proof.
  unfold formView. intros E. injection E as E1 E2 E3 E4 E5 E6 E7.
  unfold fallbackOnly. rewrite E5. intros [Hf|Hf]; [left|now right].
  rewrite Hf in E4. now destruct (internals s').
Qed.

Lemma formValue_updateValidity s :
  formValue <$> internals (_updateValidity s) = formValue <$> internals s.
Proof.
  unfold _updateValidity. cbv zeta.
  destruct (internals s) as [i|] eqn:E; [destruct (_ || _); reflexivity|].
  destruct (_ || _); cbn; now rewrite E.
Qed.

Lemma render_view s : formView (_render s) = formView s.
Proof. unfold formView. unfold_reads. push. reflexivity. Qed.

Lemma updateValidity_view s : formView (_updateValidity s) = formView s.
Proof. unfold formView. rewrite formValue_updateValidity. unfold_reads. push. reflexivity. Qed.

Lemma perform_view e s : formView (perform e s) = formView s.
Proof. reflexivity. Qed.

Lemma dispatchEvent_view e s : formView (dispatchEvent e s) = formView s.
Proof. reflexivity. Qed.

Ltac low_crush :=
  unfold synced, valueSynced, hiddenPresent, fallbackOnly;
  unfold_low; unfold writeHiddenInput; unfold_reads; cbv zeta; cbn;
  repeat match goal with
  | |- context [if ?c then _ else _] => destruct c eqn:?; cbn
  | |- context [match ?c with Some _ => _ | None => _ end] => destruct c eqn:?; cbn
  end; cbn in *;
  repeat split; intros;
  repeat match goal with
  | H : Some ?a = Some ?b |- _ =>
      assert (a = b) by congruence; clear H; try subst
  end;
  try solve [auto | congruence | naive_solver].

Lemma updateFormValue_synced s : fallbackOnly s -> synced (_updateFormValue s).
Proof. intros H. destruct s. revert H. low_crush. Qed.

Lemma ensureHiddenInput_synced s : synced s -> synced (_ensureHiddenInput s).
Proof. intros H. destruct s. revert H. low_crush. Qed.

Lemma ensureHiddenInput_fallbackOnly s : fallbackOnly s -> fallbackOnly (_ensureHiddenInput s).
Proof. intros H. destruct s. revert H. low_crush. Qed.

Lemma updateHiddenInput_fallbackOnly s : fallbackOnly s -> fallbackOnly (_updateHiddenInput s).
Proof. intros H. destruct s. revert H. low_crush. Qed.

Lemma updateHiddenInput_synced s : synced s -> synced (_updateHiddenInput s).
Proof. intros H. destruct s. revert H. low_crush. Qed.

Lemma updateFormValue_keeps_synced s : synced s -> synced (_updateFormValue s).
Proof. intros (_ & _ & H). now apply updateFormValue_synced. Qed.

Lemma updateFormValue_fallbackOnly s : fallbackOnly s -> fallbackOnly (_updateFormValue s).
Proof. intros H. now apply updateFormValue_synced. Qed.

Lemma render_synced s : synced s -> synced (_render s).
Proof. apply synced_view, render_view. Qed.

Lemma updateValidity_synced s : synced s -> synced (_updateValidity s).
Proof. apply synced_view, updateValidity_view. Qed.

Lemma render_fallbackOnly s : fallbackOnly s -> fallbackOnly (_render s).
Proof. apply fallbackOnly_view, render_view. Qed.

Lemma updateValidity_fallbackOnly s : fallbackOnly s -> fallbackOnly (_updateValidity s).
Proof. apply fallbackOnly_view, updateValidity_view. Qed.

(** Updates of fields that [synced] does not read. *)
Lemma synced_perform e s : synced s -> synced (perform e s).
Proof. exact id. Qed.
Lemma synced_dispatchEvent e s : synced s -> synced (dispatchEvent e s).
Proof. exact id. Qed.
Lemma synced_focus s : synced s -> synced (focus s).
Proof. exact id. Qed.
Lemma synced_blur s : synced s -> synced (blur s).
Proof. exact id. Qed.
Lemma synced_set_ownProps f s :
  f (ownProps s) !! "name" = ownProps s !! "name" ->
  f (ownProps s) !! "value" = ownProps s !! "value" ->
  synced s -> synced (set_ownProps f s).
Proof.
  intros H1 H2. apply synced_view. unfold formView, this_name, this_value. cbn.
  now rewrite H1, H2.
Qed.
Lemma synced_set_customValidity m s : synced s -> synced (set_customValidity m s).
Proof. exact id. Qed.
Lemma synced_set_defaults c i s : synced s -> synced (set_defaults c i s).
Proof. exact id. Qed.
Lemma synced_set_listeners c k s : synced s -> synced (set_listeners c k s).
Proof. exact id. Qed.
Lemma synced_set_resetListeners f s : synced s -> synced (set_resetListeners f s).
Proof. exact id. Qed.

Lemma fallbackOnly_perform e s : fallbackOnly s -> fallbackOnly (perform e s).
Proof. exact id. Qed.
Lemma fallbackOnly_dispatchEvent e s : fallbackOnly s -> fallbackOnly (dispatchEvent e s).
Proof. exact id. Qed.
Lemma fallbackOnly_focus s : fallbackOnly s -> fallbackOnly (focus s).
Proof. exact id. Qed.
Lemma fallbackOnly_blur s : fallbackOnly s -> fallbackOnly (blur s).
Proof. exact id. Qed.
Lemma fallbackOnly_set_attrs f s : fallbackOnly s -> fallbackOnly (set_attrs f s).
Proof. exact id. Qed.
Lemma fallbackOnly_setAttribute0 k v s : fallbackOnly s -> fallbackOnly (setAttribute0 k v s).
Proof. exact id. Qed.
Lemma fallbackOnly_removeAttribute0 k s : fallbackOnly s -> fallbackOnly (removeAttribute0 k s).
Proof. exact id. Qed.
Lemma fallbackOnly_set_native f s : fallbackOnly s -> fallbackOnly (set_native f s).
Proof. exact id. Qed.
Lemma fallbackOnly_set_ownProps f s : fallbackOnly s -> fallbackOnly (set_ownProps f s).
Proof. exact id. Qed.
Lemma fallbackOnly_set_customValidity m s : fallbackOnly s -> fallbackOnly (set_customValidity m s).
Proof. exact id. Qed.
Lemma fallbackOnly_set_defaults c i s : fallbackOnly s -> fallbackOnly (set_defaults c i s).
Proof. exact id. Qed.
Lemma fallbackOnly_set_listeners c k s : fallbackOnly s -> fallbackOnly (set_listeners c k s).
Proof. exact id. Qed.
Lemma fallbackOnly_set_resetListeners f s : fallbackOnly s -> fallbackOnly (set_resetListeners f s).
Proof. exact id. Qed.
Lemma fallbackOnly_set_position c f s : fallbackOnly s -> fallbackOnly (set_position c f s).
Proof. exact id. Qed.

Create HintDb sync discriminated.
#[export] Hint Constants Opaque : sync.
#[export] Hint Resolve updateHiddenInput_synced updateFormValue_keeps_synced
  ensureHiddenInput_synced render_synced updateValidity_synced synced_perform
  synced_dispatchEvent synced_focus synced_blur
  synced_set_customValidity synced_set_defaults synced_set_listeners
  synced_set_resetListeners : sync.

Create HintDb fallback discriminated.
#[export] Hint Constants Opaque : fallback.
#[export] Hint Resolve updateHiddenInput_fallbackOnly updateFormValue_fallbackOnly
  ensureHiddenInput_fallbackOnly render_fallbackOnly updateValidity_fallbackOnly
  fallbackOnly_perform fallbackOnly_dispatchEvent fallbackOnly_focus fallbackOnly_blur
  fallbackOnly_set_attrs fallbackOnly_setAttribute0 fallbackOnly_removeAttribute0
  fallbackOnly_set_native fallbackOnly_set_ownProps fallbackOnly_set_customValidity
  fallbackOnly_set_defaults fallbackOnly_set_listeners fallbackOnly_set_resetListeners
  fallbackOnly_set_position : fallback.

(** A property proved along a chain of calls, last call first: [P (f x)]
    is reduced to [P x] by the lemma for [f] that [keep] finds.  The state
    [x] is abstracted first, so that no step is checked against the whole
    chain. *)
Ltac chain_close P keep :=
  lazymatch goal with
  | H : P _ |- _ => first [keep; exact H | exact H]
  end.

Ltac chain_step P keep :=
  lazymatch goal with
  | |- P (if _ then ?f ?x else ?x) =>
      cut (P x);
      [ generalize x; intros ? ?;
        lazymatch goal with |- P (if ?c then _ else _) => destruct c end;
        chain_close P keep |]
  | |- P (if _ then ?f ?x else ?g ?x) =>
      cut (P x);
      [ generalize x; intros ? ?;
        lazymatch goal with |- P (if ?c then _ else _) => destruct c end;
        chain_close P keep |]
  | |- P (match _ with Some _ => _ | None => ?x end) =>
      cut (P x);
      [ generalize x; intros ? ?;
        lazymatch goal with |- P (match ?c with Some _ => _ | None => _ end) => destruct c end;
        chain_close P keep |]
  | |- P (?f ?x) => cut (P x); [generalize x; intros ? ?; chain_close P keep |]
  end.

Ltac keep_fallbackOnly :=
  first
    [ simple apply updateHiddenInput_fallbackOnly | simple apply updateFormValue_fallbackOnly
    | simple apply ensureHiddenInput_fallbackOnly | simple apply render_fallbackOnly
    | simple apply updateValidity_fallbackOnly | simple apply fallbackOnly_perform
    | simple apply fallbackOnly_dispatchEvent | simple apply fallbackOnly_focus
    | simple apply fallbackOnly_blur | simple apply fallbackOnly_set_attrs
    | simple apply fallbackOnly_setAttribute0 | simple apply fallbackOnly_removeAttribute0
    | simple apply fallbackOnly_set_native | simple apply fallbackOnly_set_ownProps
    | simple apply fallbackOnly_set_customValidity | simple apply fallbackOnly_set_defaults
    | simple apply fallbackOnly_set_listeners | simple apply fallbackOnly_set_resetListeners
    | simple apply fallbackOnly_set_position ].

Ltac keep_synced :=
  first
    [ simple apply updateHiddenInput_synced | simple apply updateFormValue_keeps_synced
    | simple apply ensureHiddenInput_synced | simple apply render_synced
    | simple apply updateValidity_synced | simple apply synced_perform
    | simple apply synced_dispatchEvent | simple apply synced_focus
    | simple apply synced_blur
    | simple apply synced_set_customValidity | simple apply synced_set_defaults
    | simple apply synced_set_listeners | simple apply synced_set_resetListeners ].

Ltac fallback_chain :=
  cbv zeta; repeat (first [assumption | chain_step fallbackOnly keep_fallbackOnly]).

Ltac sync_chain :=
  cbv zeta;
  repeat (first
    [ assumption
    | lazymatch goal with
      | |- synced (_updateFormValue _) => apply updateFormValue_synced; fallback_chain
      end
    | chain_step synced keep_synced ]).

Lemma reflectAttribute_fallbackOnly name s :
  observed name = true -> fallbackOnly s -> fallbackOnly (reflectAttribute name s).
Proof.
  intros H Hs. names H; unfold reflectAttribute; eval_names; fallback_chain.
Qed.

Lemma attributeChangedCallback_fallbackOnly name o n s :
  observed name = true -> fallbackOnly s -> fallbackOnly (attributeChangedCallback name o n s).
Proof.
  intros H Hs. destruct (decide (o = n)) as [->|?].
  - now rewrite attributeChangedCallback_same.
  - rewrite attributeChangedCallback_changed by assumption.
    now apply reflectAttribute_fallbackOnly.
Qed.

(** ** [setAttribute] and [removeAttribute] *)

Lemma setAttribute0_same name value s :
  attrs s !! name = Some value -> setAttribute0 name value s = s.
Proof.
  intros H. destruct s; cbn in *. unfold setAttribute0, set_attrs; cbn.
  now rewrite insert_id.
Qed.

Lemma setAttribute_host name value s : sameHost s (setAttribute name value s).
Proof.
  unfold setAttribute. cbv zeta. destruct (observed name) eqn:H; [|auto with host].
  apply (sameHost_trans _ (setAttribute0 name value s)); [auto with host|].
  now apply attributeChangedCallback_host.
Qed.

Lemma removeAttribute_host name s : sameHost s (removeAttribute name s).
Proof.
  unfold removeAttribute. destruct (getAttribute name s); [|auto with host].
  cbv zeta. destruct (observed name) eqn:H; [|auto with host].
  apply (sameHost_trans _ (removeAttribute0 name s)); [auto with host|].
  now apply attributeChangedCallback_host.
Qed.

Lemma setAttribute_fallbackOnly name value s :
  fallbackOnly s -> fallbackOnly (setAttribute name value s).
Proof.
  intros Hs. unfold setAttribute. cbv zeta. destruct (observed name) eqn:H; [|assumption].
  now apply attributeChangedCallback_fallbackOnly.
Qed.

Lemma removeAttribute_fallbackOnly name s :
  fallbackOnly s -> fallbackOnly (removeAttribute name s).
Proof.
  intros Hs. unfold removeAttribute. destruct (getAttribute name s); [|assumption].
  cbv zeta. destruct (observed name) eqn:H; [|assumption].
  now apply attributeChangedCallback_fallbackOnly.
Qed.

#[export] Hint Resolve attributeChangedCallback_host setAttribute_host removeAttribute_host : host.
#[export] Hint Resolve setAttribute_fallbackOnly removeAttribute_fallbackOnly : fallback.


(** The attribute list after the call, read at a name the component does
    not write for itself. *)
Lemma setAttribute_attrs name value k s :
  internalAttr k = false ->
  attrs (setAttribute name value s) !! k =
  if decide (k = name) then Some value else attrs s !! k.
Proof.
  intros Hk. unfold setAttribute. cbv zeta.
  assert (E : attrs (setAttribute0 name value s) !! k =
              if decide (k = name) then Some value else attrs s !! k).
  { cbn. destruct (decide (k = name)) as [->|?];
      [apply lookup_insert_eq|now apply lookup_insert_ne]. }
  destruct (observed name) eqn:H; [|exact E].
  now rewrite attributeChangedCallback_attrs.
Qed.

Lemma removeAttribute_attrs name k s :
  internalAttr k = false ->
  attrs (removeAttribute name s) !! k =
  if decide (k = name) then None else attrs s !! k.
Proof.
  intros Hk. unfold removeAttribute, getAttribute.
  destruct (attrs s !! name) eqn:Ea.
  - cbv zeta.
    assert (E : attrs (removeAttribute0 name s) !! k =
                if decide (k = name) then None else attrs s !! k).
    { cbn. destruct (decide (k = name)) as [->|?];
        [apply lookup_delete_eq|now apply lookup_delete_ne]. }
    destruct (observed name) eqn:H; [|exact E].
    now rewrite attributeChangedCallback_attrs.
  - destruct (decide (k = name)) as [->|?]; [assumption|reflexivity].
Qed.

(** ** The [checked] attribute and the native checkbox *)

Lemma reflectAttribute_checked name s :
  observed name = true ->
  n_checked (native (reflectAttribute name s)) =
  if String.eqb name "checked" then hasAttribute "checked" s else n_checked (native s).
Proof.
  intros H. names H; unfold reflectAttribute; eval_names; cbv zeta;
    repeat case_match; push; reflexivity.
Qed.

Lemma reflectAttribute_indeterminate name s :
  observed name = true ->
  n_indeterminate (native (reflectAttribute name s)) =
  if String.eqb name "indeterminate" then hasAttribute "indeterminate" s
  else n_indeterminate (native s).
Proof.
  intros H. names H; unfold reflectAttribute; eval_names; cbv zeta;
    repeat case_match; push; reflexivity.
Qed.

Lemma hasAttribute_setAttribute name value k s :
  internalAttr k = false ->
  hasAttribute k (setAttribute name value s) =
  if decide (k = name) then true else hasAttribute k s.
Proof.
  intros Hk. unfold hasAttribute. rewrite setAttribute_attrs by assumption.
  now destruct (decide (k = name)).
Qed.

Lemma hasAttribute_removeAttribute name k s :
  internalAttr k = false ->
  hasAttribute k (removeAttribute name s) =
  if decide (k = name) then false else hasAttribute k s.
Proof.
  intros Hk. unfold hasAttribute. rewrite removeAttribute_attrs by assumption.
  now destruct (decide (k = name)).
Qed.

(** The native checkedness after [setAttribute]: only a change of the
    [checked] attribute itself reaches it. *)
Lemma setAttribute_n_checked name value s :
  n_checked (native (setAttribute name value s)) =
  if decide (name = "checked") then
    if decide (attrs s !! "checked" = Some value) then n_checked (native s) else true
  else n_checked (native s).
Proof.
  unfold setAttribute, getAttribute. cbv zeta. destruct (decide (name = "checked")) as [->|Hn].
  - change (observed "checked") with true. cbv iota.
    destruct (decide (attrs s !! "checked" = Some value)) as [E|E].
    + rewrite E, attributeChangedCallback_same. reflexivity.
    + rewrite attributeChangedCallback_changed by exact E.
      rewrite reflectAttribute_checked by reflexivity. cbn.
      unfold hasAttribute. cbn. now rewrite lookup_insert_eq.
  - destruct (observed name) eqn:H; [|reflexivity].
    destruct (decide (attrs s !! name = Some value)) as [E|E].
    + rewrite E, attributeChangedCallback_same. reflexivity.
    + rewrite attributeChangedCallback_changed by exact E.
      rewrite reflectAttribute_checked by assumption.
      destruct (String.eqb_spec name "checked"); [contradiction|reflexivity].
Qed.

Lemma removeAttribute_n_checked name s :
  n_checked (native (removeAttribute name s)) =
  if decide (name = "checked") then
    if hasAttribute "checked" s then false else n_checked (native s)
  else n_checked (native s).
Proof.
  unfold removeAttribute, getAttribute, hasAttribute.
  destruct (decide (name = "checked")) as [->|Hn].
  - destruct (attrs s !! "checked") eqn:E; [|reflexivity].
    cbv zeta. change (observed "checked") with true. cbv iota.
    rewrite attributeChangedCallback_changed by discriminate.
    rewrite reflectAttribute_checked by reflexivity. cbn.
    unfold hasAttribute. cbn. now rewrite lookup_delete_eq.
  - destruct (attrs s !! name) eqn:E; [|reflexivity].
    cbv zeta. destruct (observed name) eqn:H; [|reflexivity].
    rewrite attributeChangedCallback_changed by discriminate.
    rewrite reflectAttribute_checked by assumption.
    destruct (String.eqb_spec name "checked"); [contradiction|reflexivity].
Qed.

Lemma setAttribute_checkedMirrored name value s :
  checkedMirrored s -> checkedMirrored (setAttribute name value s).
Proof.
  unfold checkedMirrored, get_checked. intros Hs.
  rewrite setAttribute_n_checked, hasAttribute_setAttribute by reflexivity.
  destruct (decide (name = "checked")) as [->|Hn].
  - destruct (decide ("checked" = "checked")); [|contradiction].
    destruct (decide (attrs s !! "checked" = Some value)) as [E|E]; [|reflexivity].
    rewrite Hs. unfold hasAttribute. now rewrite E.
  - destruct (decide ("checked" = name)); [congruence|]. exact Hs.
Qed.

Lemma removeAttribute_checkedMirrored name s :
  checkedMirrored s -> checkedMirrored (removeAttribute name s).
Proof.
  unfold checkedMirrored, get_checked. intros Hs.
  rewrite removeAttribute_n_checked, hasAttribute_removeAttribute by reflexivity.
  destruct (decide (name = "checked")) as [->|Hn].
  - destruct (decide ("checked" = "checked")); [|contradiction].
    rewrite <- Hs. now destruct (n_checked (native s)).
  - destruct (decide ("checked" = name)); [congruence|]. exact Hs.
Qed.

(** Lines 228, 240 and 262 bring the attribute in line with the native
    checkbox, whatever the attribute was before. *)
Lemma mirrorChecked_checkedMirrored s : checkedMirrored (mirrorChecked s).
Proof.
  unfold checkedMirrored, get_checked, mirrorChecked.
  destruct (n_checked (native s)) eqn:E.
  - rewrite setAttribute_n_checked, hasAttribute_setAttribute by reflexivity.
    destruct (decide ("checked" = "checked")); [|contradiction].
    rewrite E. now destruct (decide _).
  - rewrite removeAttribute_n_checked, hasAttribute_removeAttribute by reflexivity.
    destruct (decide ("checked" = "checked")); [|contradiction].
    rewrite E. now destruct (hasAttribute _ _).
Qed.

Lemma mirrorChecked_n_checked s :
  n_checked (native (mirrorChecked s)) = n_checked (native s).
Proof.
  unfold mirrorChecked. destruct (n_checked (native s)) eqn:E.
  - rewrite setAttribute_n_checked.
    destruct (decide ("checked" = "checked")); [|contradiction].
    rewrite E. now destruct (decide _).
  - rewrite removeAttribute_n_checked.
    destruct (decide ("checked" = "checked")); [|contradiction].
    rewrite E. now destruct (hasAttribute _ _).
Qed.

(** ** The form value across attribute changes *)

Lemma reflectAttribute_synced name s :
  observed name = true -> fallbackOnly s ->
  (name <> "checked" -> name <> "name" -> name <> "value" -> name <> "indeterminate" ->
   synced s) ->
  synced (reflectAttribute name s).
Proof.
  intros H Hf Hs.
  names H; unfold reflectAttribute; eval_names; sync_chain; now apply Hs.
Qed.

Lemma observed_form_names name :
  observed name = false -> name <> "checked" /\ name <> "name" /\ name <> "value".
Proof. intros H. repeat split; intros ->; discriminate H. Qed.

Lemma setAttribute0_view name value s :
  name <> "name" -> name <> "value" -> formView (setAttribute0 name value s) = formView s.
Proof.
  intros H1 H2. unfold formView. unfold_reads. cbn.
  now rewrite !lookup_insert_ne by congruence.
Qed.

Lemma removeAttribute0_view name s :
  name <> "name" -> name <> "value" -> formView (removeAttribute0 name s) = formView s.
Proof.
  intros H1 H2. unfold formView. unfold_reads. cbn.
  now rewrite !lookup_delete_ne by congruence.
Qed.

Lemma setAttribute_synced name value s : synced s -> synced (setAttribute name value s).
Proof.
  intros Hs. unfold setAttribute, getAttribute. cbv zeta.
  destruct (observed name) eqn:H.
  - destruct (decide (attrs s !! name = Some value)) as [E|E].
    + rewrite E, attributeChangedCallback_same. now rewrite setAttribute0_same.
    + rewrite attributeChangedCallback_changed by exact E.
      apply reflectAttribute_synced; [assumption|apply Hs|].
      intros _ H1 H2 _. apply (synced_view s); [now apply setAttribute0_view|assumption].
  - apply observed_form_names in H as (_ & H1 & H2).
    apply (synced_view s); [now apply setAttribute0_view|assumption].
Qed.

Lemma removeAttribute_synced name s : synced s -> synced (removeAttribute name s).
Proof.
  intros Hs. unfold removeAttribute, getAttribute.
  destruct (attrs s !! name) eqn:E; [|assumption]. cbv zeta.
  destruct (observed name) eqn:H.
  - rewrite attributeChangedCallback_changed by discriminate.
    apply reflectAttribute_synced; [assumption|apply Hs|].
    intros _ H1 H2 _. apply (synced_view s); [now apply removeAttribute0_view|assumption].
  - apply observed_form_names in H as (_ & H1 & H2).
    apply (synced_view s); [now apply removeAttribute0_view|assumption].
Qed.

#[export] Hint Resolve setAttribute_synced removeAttribute_synced : sync.


(** ** Place, defaults and events *)

Definition samePlace (s s' : ToggleInput) : Prop :=
  isConnected s' = isConnected s /\ form s' = form s.

Definition sameDefaults (s s' : ToggleInput) : Prop :=
  defaultChecked s' = defaultChecked s /\ defaultIndeterminate s' = defaultIndeterminate s.

Definition sameEvents (s s' : ToggleInput) : Prop := events s' = events s.

Lemma samePlace_refl s : samePlace s s.
Proof. now split. Qed.
Lemma samePlace_trans s1 s2 s3 : samePlace s1 s2 -> samePlace s2 s3 -> samePlace s1 s3.
Proof. intros [] []. split; congruence. Qed.
Lemma sameDefaults_refl s : sameDefaults s s.
Proof. now split. Qed.
Lemma sameDefaults_trans s1 s2 s3 : sameDefaults s1 s2 -> sameDefaults s2 s3 -> sameDefaults s1 s3.
Proof. intros [] []. split; congruence. Qed.
Lemma sameEvents_refl s : sameEvents s s.
Proof. reflexivity. Qed.
Lemma sameEvents_trans s1 s2 s3 : sameEvents s1 s2 -> sameEvents s2 s3 -> sameEvents s1 s3.
Proof. unfold sameEvents. congruence. Qed.

Lemma sameHost_place s s' : sameHost s s' -> samePlace s s'.
Proof. intros []. now split. Qed.
Lemma sameHost_defaults s s' : sameHost s s' -> sameDefaults s s'.
Proof. intros []. now split. Qed.

Create HintDb place discriminated.
#[export] Hint Constants Opaque : place.
Create HintDb defaults discriminated.
#[export] Hint Constants Opaque : defaults.
Create HintDb quiet discriminated.
#[export] Hint Constants Opaque : quiet.
#[export] Hint Resolve samePlace_refl : place.
#[export] Hint Resolve sameDefaults_refl : defaults.
#[export] Hint Resolve sameEvents_refl : quiet.
#[export] Hint Extern 1 (samePlace ?s (?f ?s)) => (is_low (f s); split; frame) : place.
#[export] Hint Extern 1 (sameDefaults ?s (?f ?s)) => (is_low (f s); split; frame) : defaults.
#[export] Hint Extern 1 (sameEvents ?s (?f ?s)) => (is_low (f s); unfold sameEvents; frame) : quiet.
#[export] Hint Extern 5 (samePlace _ _) => (apply sameHost_place; solve [auto with host]) : place.
#[export] Hint Extern 5 (sameDefaults _ _) => (apply sameHost_defaults; solve [auto with host]) : defaults.

(** The chain tactic for a transitive relation between the state before
    and the state after. *)
Ltac rel_step R trans solver :=
  lazymatch goal with
  | |- R ?s ?s => solver
  | |- R _ (if _ then ?f ?x else ?x) =>
      apply (trans _ x);
      [| generalize x; intros ?;
         lazymatch goal with |- R _ (if ?c then _ else _) => destruct c end; solver ]
  | |- R _ (if _ then ?f ?x else ?g ?x) =>
      apply (trans _ x);
      [| generalize x; intros ?;
         lazymatch goal with |- R _ (if ?c then _ else _) => destruct c end; solver ]
  | |- R _ (match _ with Some _ => _ | None => ?x end) =>
      apply (trans _ x);
      [| generalize x; intros ?;
         lazymatch goal with
         | |- R _ (match ?c with Some _ => _ | None => _ end) => destruct c
         end; solver ]
  | |- R _ (?f ?x) => apply (trans _ x); [| generalize x; intros ?; solver ]
  end.

Ltac place_chain :=
  cbv zeta; repeat rel_step samePlace samePlace_trans ltac:(solve [auto with place]).
Ltac defaults_chain :=
  cbv zeta; repeat rel_step sameDefaults sameDefaults_trans ltac:(solve [auto with defaults]).
Ltac quiet_chain :=
  cbv zeta; repeat rel_step sameEvents sameEvents_trans ltac:(solve [auto with quiet]).

Lemma attributeChangedCallback_quiet name o n s :
  observed name = true -> sameEvents s (attributeChangedCallback name o n s).
Proof.
  intros H. names H; (callback o n; [apply sameEvents_refl|]); quiet_chain.
Qed.

Lemma setAttribute_quiet name value s : sameEvents s (setAttribute name value s).
Proof.
  unfold setAttribute. cbv zeta. destruct (observed name) eqn:H; [|reflexivity].
  now apply (attributeChangedCallback_quiet name _ _ (setAttribute0 name value s)).
Qed.

Lemma removeAttribute_quiet name s : sameEvents s (removeAttribute name s).
Proof.
  unfold removeAttribute. destruct (getAttribute name s); [|reflexivity].
  cbv zeta. destruct (observed name) eqn:H; [|reflexivity].
  now apply (attributeChangedCallback_quiet name _ _ (removeAttribute0 name s)).
Qed.

#[export] Hint Resolve setAttribute_quiet removeAttribute_quiet : quiet.

(** ** Setters and assignments *)

Lemma checkedMirrored_same s s' :
  n_checked (native s') = n_checked (native s) ->
  attrs s' !! "checked" = attrs s !! "checked" ->
  checkedMirrored s -> checkedMirrored s'.
Proof.
  unfold checkedMirrored, get_checked, hasAttribute. now intros -> ->.
Qed.

Create HintDb checked discriminated.
#[export] Hint Constants Opaque : checked.
#[export] Hint Resolve setAttribute_checkedMirrored removeAttribute_checkedMirrored
  mirrorChecked_checkedMirrored : checked.
#[export] Hint Extern 2 (checkedMirrored (?f ?s)) =>
  (is_low (f s); apply (checkedMirrored_same s); [push; reflexivity|push; reflexivity|]) : checked.

Lemma mirrorChecked_host s : sameHost s (mirrorChecked s).
Proof. unfold mirrorChecked. destruct (n_checked _); auto with host. Qed.

Lemma mirrorChecked_fallbackOnly s : fallbackOnly s -> fallbackOnly (mirrorChecked s).
Proof. unfold mirrorChecked. destruct (n_checked _); auto with fallback. Qed.

Lemma mirrorChecked_quiet s : sameEvents s (mirrorChecked s).
Proof. unfold mirrorChecked. destruct (n_checked _); auto with quiet. Qed.

#[export] Hint Resolve mirrorChecked_host : host.
#[export] Hint Resolve mirrorChecked_fallbackOnly : fallback.

#[export] Hint Resolve mirrorChecked_quiet : quiet.

Ltac setter f := unfold f; repeat case_match.

Lemma set_checked_host v s : sameHost s (set_checked v s).
Proof. setter set_checked; auto with host. Qed.
Lemma set_disabled_host v s : sameHost s (set_disabled v s).
Proof. setter set_disabled; auto with host. Qed.
Lemma set_name_host v s : sameHost s (set_name v s).
Proof. setter set_name; auto with host. Qed.
Lemma set_value_host v s : sameHost s (set_value v s).
Proof. setter set_value; auto with host. Qed.
Lemma set_required_host v s : sameHost s (set_required v s).
Proof. setter set_required; auto with host. Qed.
Lemma set_indeterminate_host v s : sameHost s (set_indeterminate v s).
Proof. setter set_indeterminate; auto with host. Qed.

Lemma set_checked_checkedMirrored v s : checkedMirrored s -> checkedMirrored (set_checked v s).
Proof. setter set_checked; auto with checked. Qed.
Lemma set_disabled_checkedMirrored v s : checkedMirrored s -> checkedMirrored (set_disabled v s).
Proof. setter set_disabled; auto with checked. Qed.
Lemma set_name_checkedMirrored v s : checkedMirrored s -> checkedMirrored (set_name v s).
Proof. setter set_name; auto with checked. Qed.
Lemma set_value_checkedMirrored v s : checkedMirrored s -> checkedMirrored (set_value v s).
Proof. setter set_value; auto with checked. Qed.
Lemma set_required_checkedMirrored v s : checkedMirrored s -> checkedMirrored (set_required v s).
Proof. setter set_required; auto with checked. Qed.
Lemma set_indeterminate_checkedMirrored v s :
  checkedMirrored s -> checkedMirrored (set_indeterminate v s).
Proof. setter set_indeterminate; auto with checked. Qed.

Lemma set_checked_synced v s : synced s -> synced (set_checked v s).
Proof. setter set_checked; auto with sync. Qed.
Lemma set_disabled_synced v s : synced s -> synced (set_disabled v s).
Proof. setter set_disabled; auto with sync. Qed.
Lemma set_name_synced v s : synced s -> synced (set_name v s).
Proof. setter set_name; auto with sync. Qed.
Lemma set_value_synced v s : synced s -> synced (set_value v s).
Proof. setter set_value; auto with sync. Qed.
Lemma set_required_synced v s : synced s -> synced (set_required v s).
Proof. setter set_required; auto with sync. Qed.
Lemma set_indeterminate_synced v s : synced s -> synced (set_indeterminate v s).
Proof. setter set_indeterminate; auto with sync. Qed.

Lemma set_checked_fallbackOnly v s : fallbackOnly s -> fallbackOnly (set_checked v s).
Proof. setter set_checked; auto with fallback. Qed.
Lemma set_disabled_fallbackOnly v s : fallbackOnly s -> fallbackOnly (set_disabled v s).
Proof. setter set_disabled; auto with fallback. Qed.
Lemma set_name_fallbackOnly v s : fallbackOnly s -> fallbackOnly (set_name v s).
Proof. setter set_name; auto with fallback. Qed.
Lemma set_value_fallbackOnly v s : fallbackOnly s -> fallbackOnly (set_value v s).
Proof. setter set_value; auto with fallback. Qed.
Lemma set_required_fallbackOnly v s : fallbackOnly s -> fallbackOnly (set_required v s).
Proof. setter set_required; auto with fallback. Qed.
Lemma set_indeterminate_fallbackOnly v s : fallbackOnly s -> fallbackOnly (set_indeterminate v s).
Proof. setter set_indeterminate; auto with fallback. Qed.

Lemma set_checked_quiet v s : sameEvents s (set_checked v s).
Proof. setter set_checked; auto with quiet. Qed.
Lemma set_disabled_quiet v s : sameEvents s (set_disabled v s).
Proof. setter set_disabled; auto with quiet. Qed.
Lemma set_name_quiet v s : sameEvents s (set_name v s).
Proof. setter set_name; auto with quiet. Qed.
Lemma set_value_quiet v s : sameEvents s (set_value v s).
Proof. setter set_value; auto with quiet. Qed.
Lemma set_required_quiet v s : sameEvents s (set_required v s).
Proof. setter set_required; auto with quiet. Qed.
Lemma set_indeterminate_quiet v s : sameEvents s (set_indeterminate v s).
Proof. setter set_indeterminate; auto with quiet. Qed.

#[export] Hint Resolve set_checked_host set_disabled_host set_name_host set_value_host
  set_required_host set_indeterminate_host : host.
#[export] Hint Resolve set_checked_checkedMirrored set_disabled_checkedMirrored
  set_name_checkedMirrored set_value_checkedMirrored set_required_checkedMirrored
  set_indeterminate_checkedMirrored : checked.
#[export] Hint Resolve set_checked_synced set_disabled_synced set_name_synced
  set_value_synced set_required_synced set_indeterminate_synced : sync.
#[export] Hint Resolve set_checked_fallbackOnly set_disabled_fallbackOnly
  set_name_fallbackOnly set_value_fallbackOnly set_required_fallbackOnly
  set_indeterminate_fallbackOnly : fallback.
#[export] Hint Resolve set_checked_quiet set_disabled_quiet set_name_quiet set_value_quiet
  set_required_quiet set_indeterminate_quiet : quiet.

(** An assignment is one of the six setters or a plain own property. *)
Lemma assign_cases (P : ToggleInput -> Prop) prop v s :
  P (set_ownProps (fun m => <[prop := v]> m) s) ->
  P (set_checked v s) -> P (set_disabled v s) -> P (set_name v s) ->
  P (set_value v s) -> P (set_required v s) -> P (set_indeterminate v s) ->
  P (assign prop v s).
Proof.
  intros. unfold assign. destruct (ownProps s !! prop); [assumption|].
  repeat (destruct (String.eqb prop _); [assumption|]). assumption.
Qed.

Lemma assign_host prop v s : sameHost s (assign prop v s).
Proof. apply assign_cases; auto with host. Qed.
Lemma assign_checkedMirrored prop v s : checkedMirrored s -> checkedMirrored (assign prop v s).
Proof. intros H. apply assign_cases; auto with checked. Qed.

(** No own property shadows the accessor of property [k]. *)
Definition unshadowed (k : string) (s : ToggleInput) : Prop := ownProps s !! k = None.

(** An assignment to a shadowed [name] or [value] would change what
    [this.name] or [this.value] reads, and nothing else. *)
Lemma assign_synced prop v s :
  unshadowed "name" s -> unshadowed "value" s -> synced s -> synced (assign prop v s).
Proof.
  unfold unshadowed. intros Hn Hv H. unfold assign. destruct (ownProps s !! prop) eqn:E.
  - apply synced_set_ownProps; [..|exact H]; apply lookup_insert_ne; congruence.
  - repeat match goal with
    | |- context [String.eqb prop ?k] =>
        destruct (String.eqb_spec prop k) as [->|?]; cbv iota; [solve [auto with sync]|]
    end.
    apply synced_set_ownProps; [..|exact H]; apply lookup_insert_ne; congruence.
Qed.
Lemma assign_fallbackOnly prop v s : fallbackOnly s -> fallbackOnly (assign prop v s).
Proof. intros H. apply assign_cases; auto with fallback. Qed.
Lemma assign_quiet prop v s : sameEvents s (assign prop v s).
Proof. apply assign_cases; auto with quiet. Qed.

#[export] Hint Resolve assign_host : host.
#[export] Hint Resolve assign_checkedMirrored : checked.
#[export] Hint Resolve assign_fallbackOnly : fallback.
#[export] Hint Resolve assign_quiet : quiet.

Lemma upgradeProperty_host prop s : sameHost s (_upgradeProperty prop s).
Proof.
  unfold _upgradeProperty. destruct (ownProps s !! prop); [|auto with host].
  apply (sameHost_trans _ (set_ownProps (fun m => delete prop m) s)); auto with host.
Qed.
Lemma upgradeProperty_checkedMirrored prop s :
  checkedMirrored s -> checkedMirrored (_upgradeProperty prop s).
Proof.
  intros H. unfold _upgradeProperty. destruct (ownProps s !! prop); [|assumption].
  apply assign_checkedMirrored. exact H.
Qed.
Lemma upgradeProperty_fallbackOnly prop s :
  fallbackOnly s -> fallbackOnly (_upgradeProperty prop s).
Proof.
  intros H. unfold _upgradeProperty. destruct (ownProps s !! prop); [|assumption].
  apply assign_fallbackOnly. exact H.
Qed.

#[export] Hint Resolve upgradeProperty_host : host.
#[export] Hint Resolve upgradeProperty_checkedMirrored : checked.
#[export] Hint Resolve upgradeProperty_fallbackOnly : fallback.

(** The chain tactics learn the lemmas on attribute changes, setters and
    assignments. *)
Ltac keep_fallbackOnly ::=
  first
    [ simple apply updateHiddenInput_fallbackOnly | simple apply updateFormValue_fallbackOnly
    | simple apply ensureHiddenInput_fallbackOnly | simple apply render_fallbackOnly
    | simple apply updateValidity_fallbackOnly | simple apply fallbackOnly_perform
    | simple apply fallbackOnly_dispatchEvent | simple apply fallbackOnly_focus
    | simple apply fallbackOnly_blur | simple apply fallbackOnly_set_attrs
    | simple apply fallbackOnly_setAttribute0 | simple apply fallbackOnly_removeAttribute0
    | simple apply fallbackOnly_set_native | simple apply fallbackOnly_set_ownProps
    | simple apply fallbackOnly_set_customValidity | simple apply fallbackOnly_set_defaults
    | simple apply fallbackOnly_set_listeners | simple apply fallbackOnly_set_resetListeners
    | simple apply fallbackOnly_set_position
    | simple apply setAttribute_fallbackOnly | simple apply removeAttribute_fallbackOnly
    | simple apply mirrorChecked_fallbackOnly | simple apply assign_fallbackOnly
    | simple apply upgradeProperty_fallbackOnly ].

Ltac keep_synced ::=
  first
    [ simple apply updateHiddenInput_synced | simple apply updateFormValue_keeps_synced
    | simple apply ensureHiddenInput_synced | simple apply render_synced
    | simple apply updateValidity_synced | simple apply synced_perform
    | simple apply synced_dispatchEvent | simple apply synced_focus
    | simple apply synced_blur
    | simple apply synced_set_customValidity | simple apply synced_set_defaults
    | simple apply synced_set_listeners | simple apply synced_set_resetListeners
    | simple apply setAttribute_synced | simple apply removeAttribute_synced ].

Ltac keep_checked :=
  first
    [ simple apply setAttribute_checkedMirrored | simple apply removeAttribute_checkedMirrored
    | simple apply assign_checkedMirrored | simple apply upgradeProperty_checkedMirrored
    | lazymatch goal with
      | |- checkedMirrored (?f ?s) =>
          is_low (f s); apply (checkedMirrored_same s); [push; reflexivity|push; reflexivity|]
      end ].

Ltac checked_chain :=
  cbv zeta;
  repeat (first
    [ assumption
    | apply mirrorChecked_checkedMirrored
    | chain_step checkedMirrored keep_checked ]).

(** ** Methods and handlers *)

Lemma toggle_host s : sameHost s (toggle s).
Proof. unfold toggle. host_chain. Qed.

Lemma toggle_quiet s : sameEvents s (toggle s).
Proof. unfold toggle. quiet_chain. Qed.

Lemma toggle_checkedMirrored s : checkedMirrored (toggle s).
Proof. unfold toggle. checked_chain. Qed.

Lemma toggle_synced s : fallbackOnly s -> synced (toggle s).
Proof. intros H. unfold toggle. sync_chain. Qed.

Lemma onFormReset_host s : sameHost s (_onFormReset s).
Proof. unfold _onFormReset. host_chain. Qed.

Lemma onFormReset_quiet s : sameEvents s (_onFormReset s).
Proof. unfold _onFormReset. quiet_chain. Qed.

Lemma onFormReset_checkedMirrored s : checkedMirrored s -> checkedMirrored (_onFormReset s).
Proof. intros H. unfold _onFormReset. checked_chain. Qed.

Lemma onFormReset_synced s : fallbackOnly s -> synced (_onFormReset s).
Proof. intros H. unfold _onFormReset. sync_chain. Qed.

Lemma onNativeInput_host s : sameHost s (_onNativeInput s).
Proof. unfold _onNativeInput. host_chain. Qed.

Lemma onNativeInput_checkedMirrored s : checkedMirrored (_onNativeInput s).
Proof. unfold _onNativeInput. checked_chain. Qed.

Lemma onNativeInput_synced s : fallbackOnly s -> synced (_onNativeInput s).
Proof. intros H. unfold _onNativeInput. sync_chain. Qed.

Lemma onNativeChange_host s : sameHost s (_onNativeChange s).
Proof. unfold _onNativeChange. host_chain. Qed.

Lemma onNativeChange_checkedMirrored s : checkedMirrored (_onNativeChange s).
Proof. unfold _onNativeChange. checked_chain. Qed.

Lemma onNativeChange_synced s : fallbackOnly s -> synced (_onNativeChange s).
Proof. intros H. unfold _onNativeChange. sync_chain. Qed.

#[export] Hint Resolve toggle_host onFormReset_host onNativeInput_host onNativeChange_host : host.

Lemma nativeClick_host s : sameHost s (nativeClick s).
Proof.
  unfold nativeClick. destruct (n_disabled _); [apply sameHost_refl|]. cbv zeta.
  set (s1 := set_native _ s). assert (H1 : sameHost s s1) by (constructor; reflexivity).
  destruct (isConnected s1); [|exact H1].
  apply (sameHost_trans _ s1); [exact H1|].
  apply (sameHost_trans _ (_onNativeInput s1)); auto with host.
Qed.

(** The browser fires [input] and [change] only at a connected checkbox;
    away from a document the click would flip the native checkbox and leave
    the attribute behind. *)
Lemma nativeClick_checkedMirrored s :
  isConnected s = true -> checkedMirrored s -> checkedMirrored (nativeClick s).
Proof.
  intros Hc H. unfold nativeClick. destruct (n_disabled _); [exact H|]. cbv zeta.
  change (isConnected (set_native _ s)) with (isConnected s). rewrite Hc.
  apply onNativeChange_checkedMirrored.
Qed.

Lemma nativeClick_synced s :
  isConnected s = true -> synced s -> synced (nativeClick s).
Proof.
  intros Hc H. unfold nativeClick. destruct (n_disabled _); [exact H|]. cbv zeta.
  change (isConnected (set_native _ s)) with (isConnected s). rewrite Hc.
  apply onNativeChange_synced. apply onNativeInput_synced. apply H.
Qed.

#[export] Hint Resolve nativeClick_host : host.

Lemma onClick_host s : sameHost s (_onClick s).
Proof.
  unfold _onClick. destruct (get_disabled s); [apply sameHost_refl|].
  apply (sameHost_trans _ (nativeClick s)); auto with host.
Qed.

Lemma onKeyDown_host key s : sameHost s (_onKeyDown key s).
Proof.
  unfold _onKeyDown. destruct (get_disabled s); [apply sameHost_refl|].
  destruct (togglingKey key); [|apply sameHost_refl].
  apply (sameHost_trans _ (perform PreventDefault s)); auto with host.
Qed.

Lemma onClick_checkedMirrored s :
  isConnected s = true -> checkedMirrored s -> checkedMirrored (_onClick s).
Proof.
  intros Hc H. unfold _onClick. destruct (get_disabled s); [exact H|].
  now apply nativeClick_checkedMirrored.
Qed.

Lemma onClick_synced s : isConnected s = true -> synced s -> synced (_onClick s).
Proof.
  intros Hc H. unfold _onClick. destruct (get_disabled s); [exact H|].
  now apply nativeClick_synced.
Qed.

Lemma onKeyDown_checkedMirrored key s :
  isConnected s = true -> checkedMirrored s -> checkedMirrored (_onKeyDown key s).
Proof.
  intros Hc H. unfold _onKeyDown. destruct (get_disabled s); [exact H|].
  destruct (togglingKey key); [|exact H].
  now apply (nativeClick_checkedMirrored (perform PreventDefault s)).
Qed.

Lemma onKeyDown_synced key s : isConnected s = true -> synced s -> synced (_onKeyDown key s).
Proof.
  intros Hc H. unfold _onKeyDown. destruct (get_disabled s); [exact H|].
  destruct (togglingKey key); [|exact H].
  now apply (nativeClick_synced (perform PreventDefault s)).
Qed.

(** Validation. *)

Lemma checkValidity_state s : (checkValidity s).1 = _updateValidity s.
Proof. unfold checkValidity. cbv zeta. now destruct (internals _). Qed.

Lemma setValidity_view vm ce msg i s :
  internals s = Some i ->
  formView (set_internals (Some (setValidity vm ce msg i)) s) = formView s.
Proof. intros H. unfold formView. cbn. now rewrite H. Qed.

Lemma reportValidity_host s : sameHost s (reportValidity s).1.
Proof.
  unfold reportValidity. cbv zeta. destruct (internals (_updateValidity s)).
  - destruct (barred _ || valid _); cbn; [auto with host|].
    apply (sameHost_trans _ (_updateValidity s)); auto with host.
  - destruct (checkValidity (_updateValidity s)) as [s' ok] eqn:E.
    assert (Hs : s' = _updateValidity (_updateValidity s))
      by (now rewrite <- checkValidity_state, E).
    subst s'. destruct ok; cbn; host_chain.
Qed.

Lemma reportValidity_checkedMirrored s :
  checkedMirrored s -> checkedMirrored (reportValidity s).1.
Proof.
  intros H. unfold reportValidity. cbv zeta. destruct (internals (_updateValidity s)).
  - destruct (barred _ || valid _); cbn; checked_chain.
  - destruct (checkValidity (_updateValidity s)) as [s' ok] eqn:E.
    assert (Hs : s' = _updateValidity (_updateValidity s))
      by (now rewrite <- checkValidity_state, E).
    subst s'. destruct ok; cbn; checked_chain.
Qed.

Lemma reportValidity_synced s : synced s -> synced (reportValidity s).1.
Proof.
  intros H. unfold reportValidity. cbv zeta. destruct (internals (_updateValidity s)).
  - destruct (barred _ || valid _); cbn; sync_chain.
  - destruct (checkValidity (_updateValidity s)) as [s' ok] eqn:E.
    assert (Hs : s' = _updateValidity (_updateValidity s))
      by (now rewrite <- checkValidity_state, E).
    subst s'. destruct ok; cbn; sync_chain.
Qed.

Lemma setCustomValidity_host m s : sameHost s (setCustomValidity m s).
Proof.
  unfold setCustomValidity. cbv zeta. set (s1 := set_customValidity _ s).
  assert (H1 : sameHost s s1) by (constructor; reflexivity).
  apply (sameHost_trans _ s1); [exact H1|].
  destruct (internals s1); [destruct (nonEmpty _)|]; auto with host.
Qed.

Lemma setCustomValidity_quiet m s : sameEvents s (setCustomValidity m s).
Proof.
  unfold setCustomValidity. cbv zeta. set (s1 := set_customValidity _ s).
  apply (sameEvents_trans _ s1); [reflexivity|].
  destruct (internals s1); [destruct (nonEmpty _)|]; auto with quiet.
Qed.

Lemma setCustomValidity_checkedMirrored m s :
  checkedMirrored s -> checkedMirrored (setCustomValidity m s).
Proof.
  intros H. unfold setCustomValidity. cbv zeta. set (s1 := set_customValidity _ s).
  assert (H1 : checkedMirrored s1) by exact H.
  destruct (internals s1); [destruct (nonEmpty _)|]; auto with checked.
Qed.

Lemma setCustomValidity_synced m s : synced s -> synced (setCustomValidity m s).
Proof.
  intros H. unfold setCustomValidity. cbv zeta. set (s1 := set_customValidity _ s).
  assert (H1 : synced s1) by exact H.
  destruct (internals s1) eqn:E; [destruct (nonEmpty _)|]; auto with sync.
  apply (synced_view s1); [now apply setValidity_view|exact H1].
Qed.

(** ** Life cycle *)

Ltac unfold_cc :=
  unfold connectedCallback, cc_finish, cc_form, cc_listen, cc_upgrade, cc_capture, cc_prepare.

Lemma connectedCallback_place s : samePlace s (connectedCallback s).
Proof. unfold_cc. place_chain. Qed.

Lemma connectedCallback_checkedMirrored s :
  checkedMirrored s -> checkedMirrored (connectedCallback s).
Proof. intros H. unfold_cc. checked_chain. Qed.

Lemma connectedCallback_synced s : fallbackOnly s -> synced (connectedCallback s).
Proof. intros H. unfold_cc. sync_chain. Qed.

Lemma cc_prepare_host s : sameHost s (cc_prepare s).
Proof. unfold cc_prepare. host_chain. Qed.

Lemma cc_prepare_hasAttribute k s :
  internalAttr k = false -> k <> "role" -> k <> "tabindex" ->
  hasAttribute k (cc_prepare s) = hasAttribute k s.
Proof.
  intros Hk H1 H2. unfold cc_prepare. cbv zeta.
  assert (E : forall t, hasAttribute k (if negb (hasAttribute "role" t)
                then setAttribute "role" "checkbox" t else t) = hasAttribute k t).
  { intros t. destruct (negb _); [|reflexivity].
    rewrite hasAttribute_setAttribute by assumption. now destruct (decide _). }
  destruct (negb _); [|apply E].
  rewrite hasAttribute_setAttribute by assumption.
  destruct (decide _); [contradiction|apply E].
Qed.

Lemma cc_upgrade_host s : sameHost s (cc_upgrade s).
Proof. unfold cc_upgrade. host_chain. Qed.

Lemma cc_form_host s : sameHost s (cc_form s).
Proof. unfold cc_form. host_chain. Qed.

Lemma cc_finish_fields s :
  sameDefaults s (cc_finish s) /\ samePlace s (cc_finish s) /\
  clickListener (cc_finish s) = clickListener s /\
  keydownListener (cc_finish s) = keydownListener s /\
  resetListeners (cc_finish s) =
    match form s with
    | Some f => {[ f ]} ∪ resetListeners s
    | None => resetListeners s
    end.
Proof.
  unfold cc_finish, sameDefaults, samePlace. cbv zeta.
  destruct (form s) eqn:E; destruct (hasAttribute _ _); repeat split; exact E.
Qed.

(** What [connectedCallback] leaves in the fields of the host. *)
Lemma connectedCallback_fields s :
  defaultChecked (connectedCallback s) = hasAttribute "checked" s /\
  defaultIndeterminate (connectedCallback s) = hasAttribute "indeterminate" s /\
  clickListener (connectedCallback s) = true /\
  keydownListener (connectedCallback s) = true /\
  resetListeners (connectedCallback s) =
    match form s with
    | Some f => {[ f ]} ∪ resetListeners s
    | None => resetListeners s
    end.
Proof.
  unfold connectedCallback.
  set (s1 := cc_prepare s). set (s2 := cc_capture s1). set (s3 := cc_upgrade s2).
  set (s4 := cc_listen s3). set (s5 := cc_form s4).
  destruct (cc_finish_fields s5) as ((D1 & D2) & (_ & P6) & L1 & L2 & R6).
  destruct (cc_form_host s4 : sameHost s4 s5) as [D51 D52 _ P5 L51 L52 R5].
  destruct (cc_upgrade_host s2 : sameHost s2 s3) as [D31 D32 _ P3 _ _ R3].
  destruct (cc_prepare_host s : sameHost s s1) as [_ _ _ P1 _ _ R1].
  rewrite D1, D2, L1, L2, R6, D51, D52, L51, L52, R5, P5.
  change (defaultChecked s4) with (defaultChecked s3).
  change (defaultIndeterminate s4) with (defaultIndeterminate s3).
  change (resetListeners s4) with (resetListeners s3).
  change (form s4) with (form s3).
  rewrite D31, D32, R3, P3.
  change (form s2) with (form s1). change (resetListeners s2) with (resetListeners s1).
  rewrite P1, R1. unfold s2, cc_capture. cbn.
  unfold s1. rewrite !cc_prepare_hasAttribute by (reflexivity || discriminate).
  repeat split.
Qed.

Lemma disconnectedCallback_fields s :
  clickListener (disconnectedCallback s) = false /\
  keydownListener (disconnectedCallback s) = false /\
  samePlace s (disconnectedCallback s) /\ sameDefaults s (disconnectedCallback s) /\
  formView (disconnectedCallback s) = formView s /\
  (checkedMirrored s -> checkedMirrored (disconnectedCallback s)).
Proof.
  unfold disconnectedCallback, samePlace, sameDefaults, formView, checkedMirrored.
  cbv zeta. cbn. destruct (form s) eqn:E; cbn; rewrite ?E; repeat split; auto.
Qed.

(** ** Own properties *)

(** Nothing but an assignment by the page and [_upgradeProperty] touches
    the own properties of the element. *)
Definition sameOwn (s s' : ToggleInput) : Prop := ownProps s' = ownProps s.

Lemma sameOwn_refl s : sameOwn s s.
Proof. reflexivity. Qed.
Lemma sameOwn_trans s1 s2 s3 : sameOwn s1 s2 -> sameOwn s2 s3 -> sameOwn s1 s3.
Proof. unfold sameOwn. congruence. Qed.

Create HintDb own discriminated.
#[export] Hint Constants Opaque : own.
#[export] Hint Resolve sameOwn_refl : own.
#[export] Hint Extern 1 (sameOwn ?s (?f ?s)) => (is_low (f s); unfold sameOwn; frame) : own.

Ltac own_chain :=
  cbv zeta; repeat rel_step sameOwn sameOwn_trans ltac:(solve [auto with own]).

Lemma attributeChangedCallback_own name o n s :
  observed name = true -> sameOwn s (attributeChangedCallback name o n s).
Proof.
  intros H. names H; (callback o n; [apply sameOwn_refl|]); own_chain.
Qed.

Lemma setAttribute_own name value s : sameOwn s (setAttribute name value s).
Proof.
  unfold setAttribute. cbv zeta. destruct (observed name) eqn:H; [|reflexivity].
  now apply (attributeChangedCallback_own name _ _ (setAttribute0 name value s)).
Qed.

Lemma removeAttribute_own name s : sameOwn s (removeAttribute name s).
Proof.
  unfold removeAttribute. destruct (getAttribute name s); [|reflexivity].
  cbv zeta. destruct (observed name) eqn:H; [|reflexivity].
  now apply (attributeChangedCallback_own name _ _ (removeAttribute0 name s)).
Qed.

#[export] Hint Resolve setAttribute_own removeAttribute_own : own.

Lemma mirrorChecked_own s : sameOwn s (mirrorChecked s).
Proof. unfold mirrorChecked. destruct (n_checked _); auto with own. Qed.

#[export] Hint Resolve mirrorChecked_own : own.

Lemma set_checked_own v s : sameOwn s (set_checked v s).
Proof. setter set_checked; auto with own. Qed.
Lemma set_disabled_own v s : sameOwn s (set_disabled v s).
Proof. setter set_disabled; auto with own. Qed.
Lemma set_name_own v s : sameOwn s (set_name v s).
Proof. setter set_name; auto with own. Qed.
Lemma set_value_own v s : sameOwn s (set_value v s).
Proof. setter set_value; auto with own. Qed.
Lemma set_required_own v s : sameOwn s (set_required v s).
Proof. setter set_required; auto with own. Qed.
Lemma set_indeterminate_own v s : sameOwn s (set_indeterminate v s).
Proof. setter set_indeterminate; auto with own. Qed.

Lemma toggle_own s : sameOwn s (toggle s).
Proof. unfold toggle. own_chain. Qed.

Lemma onFormReset_own s : sameOwn s (_onFormReset s).
Proof. unfold _onFormReset. own_chain. Qed.

Lemma onNativeInput_own s : sameOwn s (_onNativeInput s).
Proof. unfold _onNativeInput. own_chain. Qed.

Lemma onNativeChange_own s : sameOwn s (_onNativeChange s).
Proof. unfold _onNativeChange. own_chain. Qed.

#[export] Hint Resolve toggle_own onFormReset_own onNativeInput_own onNativeChange_own : own.

Lemma nativeClick_own s : sameOwn s (nativeClick s).
Proof.
  unfold nativeClick. destruct (n_disabled _); [reflexivity|]. cbv zeta.
  set (s1 := set_native _ s). assert (H1 : sameOwn s s1) by reflexivity.
  clearbody s1. destruct (isConnected s1); [|exact H1].
  apply (sameOwn_trans _ s1); [exact H1|].
  apply (sameOwn_trans _ (_onNativeInput s1)); auto with own.
Qed.

Lemma onClick_own s : sameOwn s (_onClick s).
Proof.
  unfold _onClick. destruct (get_disabled s); [reflexivity|].
  apply (sameOwn_trans _ (nativeClick s)); [apply nativeClick_own|reflexivity].
Qed.

Lemma onKeyDown_own key s : sameOwn s (_onKeyDown key s).
Proof.
  unfold _onKeyDown. destruct (get_disabled s); [reflexivity|].
  destruct (togglingKey key); [|reflexivity].
  apply (sameOwn_trans _ (perform PreventDefault s)); [reflexivity|apply nativeClick_own].
Qed.

Lemma reportValidity_own s : sameOwn s (reportValidity s).1.
Proof.
  unfold reportValidity. cbv zeta. destruct (internals (_updateValidity s)).
  - destruct (barred _ || valid _); cbn [fst]; own_chain.
  - destruct (checkValidity (_updateValidity s)) as [s' ok] eqn:E.
    assert (Hs : s' = _updateValidity (_updateValidity s))
      by (now rewrite <- checkValidity_state, E).
    subst s'. destruct ok; cbn [fst]; own_chain.
Qed.

Lemma setCustomValidity_own m s : sameOwn s (setCustomValidity m s).
Proof.
  unfold setCustomValidity. cbv zeta. set (s1 := set_customValidity _ s).
  apply (sameOwn_trans _ s1); [reflexivity|]. clearbody s1.
  destruct (internals s1); [destruct (nonEmpty _)|]; auto with own.
Qed.

Lemma disconnectedCallback_own s : sameOwn s (disconnectedCallback s).
Proof. unfold disconnectedCallback. cbv zeta. now destruct (form _). Qed.

(** The own properties that are the class's, one name at a time. *)
Section Unshadowed.

Context (k : string).
Hypothesis k_class : classProperty k = true.

Lemma unshadowed_same s s' : sameOwn s s' -> unshadowed k s -> unshadowed k s'.
Proof. unfold sameOwn, unshadowed. now intros ->. Qed.

Lemma classProperty_other prop :
  classProperty prop = false -> prop <> k.
Proof. intros H ->. rewrite k_class in H. discriminate. Qed.

(** An assignment reaches the setter, or an own property of another
    name. *)
Lemma unshadowed_assign prop v s : unshadowed k s -> unshadowed k (assign prop v s).
Proof.
  unfold unshadowed. intros H. unfold assign. destruct (ownProps s !! prop) eqn:E.
  - cbn. rewrite lookup_insert_ne by congruence. exact H.
  - repeat match goal with
    | |- context [String.eqb prop ?n] =>
        destruct (String.eqb_spec prop n) as [->|?]; cbv iota;
        [ first [ rewrite set_checked_own | rewrite set_disabled_own | rewrite set_name_own
                | rewrite set_value_own | rewrite set_required_own
                | rewrite set_indeterminate_own ]; exact H |]
    end.
    cbn. rewrite lookup_insert_ne; [exact H|].
    apply classProperty_other. apply bool_decide_eq_false.
    intros Hin. repeat (apply elem_of_cons in Hin as [Hin|Hin]; [congruence|]).
    now apply elem_of_nil in Hin.
Qed.

Lemma unshadowed_upgradeProperty prop s :
  unshadowed k s -> unshadowed k (_upgradeProperty prop s).
Proof.
  intros H. unfold _upgradeProperty. destruct (ownProps s !! prop); [|exact H].
  apply unshadowed_assign. unfold unshadowed in *. cbn.
  destruct (decide (prop = k)) as [->|Hn];
    [apply lookup_delete_eq|now rewrite lookup_delete_ne].
Qed.

(** [_upgradeProperty] deletes the own property and goes through the
    setter, which creates none. *)
Lemma upgradeProperty_unshadows s : unshadowed k (_upgradeProperty k s).
Proof.
  unfold _upgradeProperty. destruct (ownProps s !! k) eqn:E; [|exact E].
  apply unshadowed_assign. unfold unshadowed. cbn. apply lookup_delete_eq.
Qed.

Lemma cc_upgrade_unshadowed s : unshadowed k s -> unshadowed k (cc_upgrade s).
Proof.
  intros H. unfold cc_upgrade. cbv zeta.
  apply (unshadowed_same (_upgradeProperty "indeterminate"
           (_upgradeProperty "value" (_upgradeProperty "name"
              (_upgradeProperty "disabled" (_upgradeProperty "checked" s))))));
    [generalize (_upgradeProperty "indeterminate"
           (_upgradeProperty "value" (_upgradeProperty "name"
              (_upgradeProperty "disabled" (_upgradeProperty "checked" s)))));
     intros x; auto with own|].
  now repeat apply unshadowed_upgradeProperty.
Qed.

Lemma cc_rest_own s : sameOwn s (cc_finish (cc_form (cc_listen s))).
Proof. unfold cc_finish, cc_form, cc_listen. own_chain. Qed.

Lemma cc_prepare_own s : sameOwn s (cc_capture (cc_prepare s)).
Proof. unfold cc_capture, cc_prepare. own_chain. Qed.

Lemma connectedCallback_unshadowed s :
  unshadowed k s -> unshadowed k (connectedCallback s).
Proof.
  intros H. unfold connectedCallback.
  apply (unshadowed_same (cc_upgrade (cc_capture (cc_prepare s)))); [apply cc_rest_own|].
  apply cc_upgrade_unshadowed.
  now apply (unshadowed_same s); [apply cc_prepare_own|].
Qed.

Lemma place_unshadowed c f s : unshadowed k s -> unshadowed k (place c f s).
Proof.
  intros H. unfold place. cbv zeta.
  set (s1 := set_position c f s). assert (H1 : unshadowed k s1) by exact H. clearbody s1.
  assert (H2 : unshadowed k (if isConnected s then disconnectedCallback s1 else s1)).
  { destruct (isConnected s); [|exact H1].
    now apply (unshadowed_same s1); [apply disconnectedCallback_own|]. }
  destruct c; [now apply connectedCallback_unshadowed|exact H2].
Qed.

(** Once the accessor of [k] is not shadowed it never is again. *)
Lemma step_unshadowed o s : unshadowed k s -> unshadowed k (step o s).
Proof.
  intros H.
  destruct o as [name value|name|prop value| | | |message| | | |key|f|c f]; unfold step.
  - now apply (unshadowed_same s); [apply setAttribute_own|].
  - now apply (unshadowed_same s); [apply removeAttribute_own|].
  - now apply unshadowed_assign.
  - now apply (unshadowed_same s); [apply toggle_own|].
  - rewrite checkValidity_state. now apply (unshadowed_same s); [auto with own|].
  - now apply (unshadowed_same s); [apply reportValidity_own|].
  - now apply (unshadowed_same s); [apply setCustomValidity_own|].
  - exact H.
  - exact H.
  - destruct (clickListener s); [|exact H].
    now apply (unshadowed_same s); [apply onClick_own|].
  - destruct (keydownListener s); [|exact H].
    now apply (unshadowed_same s); [apply onKeyDown_own|].
  - destruct (bool_decide _); [|exact H].
    now apply (unshadowed_same s); [apply onFormReset_own|].
  - now apply place_unshadowed.
Qed.

Lemma run_unshadowed ops s : unshadowed k s -> unshadowed k (run ops s).
Proof.
  revert s. induction ops as [|o ops IH]; intros s H; [exact H|].
  change (run (o :: ops) s) with (run ops (step o s)).
  apply IH. now apply step_unshadowed.
Qed.

End Unshadowed.

(** The properties [connectedCallback] replays (lines 132-136) shadow no
    accessor once it has run. *)
Definition replayed (s : ToggleInput) : Prop :=
  unshadowed "checked" s /\ unshadowed "disabled" s /\ unshadowed "name" s /\
  unshadowed "value" s /\ unshadowed "indeterminate" s.

Lemma cc_upgrade_replayed s : replayed (cc_upgrade s).
Proof.
  assert (E : forall x, sameOwn x (_render x)) by (intros x; auto with own).
  unfold cc_upgrade. cbv zeta. repeat split;
    (eapply unshadowed_same; [apply E|]);
    repeat first
      [ apply upgradeProperty_unshadows; reflexivity
      | apply unshadowed_upgradeProperty; [reflexivity|] ].
Qed.

Lemma connectedCallback_replayed s : replayed (connectedCallback s).
Proof.
  unfold connectedCallback.
  destruct (cc_upgrade_replayed (cc_capture (cc_prepare s))) as (H1 & H2 & H3 & H4 & H5).
  pose proof (cc_rest_own (cc_upgrade (cc_capture (cc_prepare s)))) as E.
  revert H1 H2 H3 H4 H5 E. generalize (cc_upgrade (cc_capture (cc_prepare s))).
  intros x H1 H2 H3 H4 H5 E. unfold replayed, unshadowed in *. rewrite E. now repeat split.
Qed.

Lemma step_replayed o s : replayed s -> replayed (step o s).
Proof.
  intros (H1 & H2 & H3 & H4 & H5).
  repeat split; apply step_unshadowed; (reflexivity || assumption).
Qed.

(** ** The form state across the other calls *)

Lemma toggle_fallbackOnly s : fallbackOnly s -> fallbackOnly (toggle s).
Proof. intros H. unfold toggle. fallback_chain. Qed.

Lemma onFormReset_fallbackOnly s : fallbackOnly s -> fallbackOnly (_onFormReset s).
Proof. intros H. unfold _onFormReset. fallback_chain. Qed.

Lemma onNativeInput_fallbackOnly s : fallbackOnly s -> fallbackOnly (_onNativeInput s).
Proof. intros H. unfold _onNativeInput. fallback_chain. Qed.

Lemma onNativeChange_fallbackOnly s : fallbackOnly s -> fallbackOnly (_onNativeChange s).
Proof. intros H. unfold _onNativeChange. fallback_chain. Qed.

Lemma nativeClick_fallbackOnly s : fallbackOnly s -> fallbackOnly (nativeClick s).
Proof.
  intros H. unfold nativeClick. destruct (n_disabled _); [exact H|]. cbv zeta.
  set (s1 := set_native _ s). assert (H1 : fallbackOnly s1) by exact H.
  clearbody s1. destruct (isConnected s1); [|exact H1].
  now apply onNativeChange_fallbackOnly, onNativeInput_fallbackOnly.
Qed.

Lemma onClick_fallbackOnly s : fallbackOnly s -> fallbackOnly (_onClick s).
Proof.
  intros H. unfold _onClick. destruct (get_disabled s); [exact H|].
  now apply fallbackOnly_dispatchEvent, nativeClick_fallbackOnly.
Qed.

Lemma onKeyDown_fallbackOnly key s : fallbackOnly s -> fallbackOnly (_onKeyDown key s).
Proof.
  intros H. unfold _onKeyDown. destruct (get_disabled s); [exact H|].
  destruct (togglingKey key); [|exact H].
  now apply (nativeClick_fallbackOnly (perform PreventDefault s)).
Qed.

Lemma reportValidity_fallbackOnly s : fallbackOnly s -> fallbackOnly (reportValidity s).1.
Proof.
  intros H. unfold reportValidity. cbv zeta. destruct (internals (_updateValidity s)).
  - destruct (barred _ || valid _); cbn [fst]; fallback_chain.
  - destruct (checkValidity (_updateValidity s)) as [s' ok] eqn:E.
    assert (Hs : s' = _updateValidity (_updateValidity s))
      by (now rewrite <- checkValidity_state, E).
    subst s'. destruct ok; cbn [fst]; fallback_chain.
Qed.

Lemma setCustomValidity_fallbackOnly m s :
  fallbackOnly s -> fallbackOnly (setCustomValidity m s).
Proof.
  intros H. unfold setCustomValidity. cbv zeta. set (s1 := set_customValidity _ s).
  assert (H1 : fallbackOnly s1) by exact H. clearbody s1.
  destruct (internals s1) eqn:E; [destruct (nonEmpty _)|];
    [|now apply updateValidity_fallbackOnly..].
  right. cbn. destruct H1 as [H1|H1]; [congruence|exact H1].
Qed.

Lemma connectedCallback_fallbackOnly s :
  fallbackOnly s -> fallbackOnly (connectedCallback s).
Proof. intros H. unfold_cc. fallback_chain. Qed.

Lemma disconnectedCallback_fallbackOnly s :
  fallbackOnly s -> fallbackOnly (disconnectedCallback s).
Proof. intros H. unfold disconnectedCallback. cbv zeta. now destruct (form _). Qed.

Lemma place_fallbackOnly c f s : fallbackOnly s -> fallbackOnly (place c f s).
Proof.
  intros H. unfold place. cbv zeta.
  set (s1 := set_position c f s). assert (H1 : fallbackOnly s1) by exact H. clearbody s1.
  assert (H2 : fallbackOnly (if isConnected s then disconnectedCallback s1 else s1))
    by (destruct (isConnected s); [now apply disconnectedCallback_fallbackOnly|exact H1]).
  destruct c; [now apply connectedCallback_fallbackOnly|exact H2].
Qed.

(** A hidden input never sits beside [ElementInternals]. *)
Lemma step_fallbackOnly o s : fallbackOnly s -> fallbackOnly (step o s).
Proof.
  intros H.
  destruct o as [name value|name|prop value| | | |message| | | |key|f|c f]; unfold step.
  - now apply setAttribute_fallbackOnly.
  - now apply removeAttribute_fallbackOnly.
  - now apply assign_fallbackOnly.
  - now apply toggle_fallbackOnly.
  - rewrite checkValidity_state. now apply updateValidity_fallbackOnly.
  - now apply reportValidity_fallbackOnly.
  - now apply setCustomValidity_fallbackOnly.
  - exact H.
  - exact H.
  - destruct (clickListener s); [now apply onClick_fallbackOnly|exact H].
  - destruct (keydownListener s); [now apply onKeyDown_fallbackOnly|exact H].
  - destruct (bool_decide _); [now apply onFormReset_fallbackOnly|exact H].
  - now apply place_fallbackOnly.
Qed.

(** ** The invariant of the reachable states *)

(** The click and keydown listeners are registered exactly while the
    element is connected. *)
Definition listening (s : ToggleInput) : Prop :=
  clickListener s = isConnected s /\ keydownListener s = isConnected s.

(** The state kept for the form: the hidden input is the fallback only,
    and on a connected element the early properties have been replayed and
    the form value is in line with the checked state. *)
Definition formReady (s : ToggleInput) : Prop :=
  fallbackOnly s /\ (isConnected s = true -> replayed s /\ synced s).

Definition Inv (s : ToggleInput) : Prop :=
  checkedMirrored s /\ formReady s /\ listening s.

Lemma listening_host s s' : sameHost s s' -> listening s -> listening s'.
Proof.
  intros [_ _ Ec _ Ek Ed _] [H1 H2]. unfold listening.
  rewrite Ec, Ek, Ed. now split.
Qed.

(** An operation that leaves the place of the element alone. *)
Lemma Inv_host o s :
  sameHost s (step o s) ->
  (checkedMirrored s -> listening s -> checkedMirrored (step o s)) ->
  (isConnected s = true -> replayed s -> synced s -> synced (step o s)) ->
  Inv s -> Inv (step o s).
Proof.
  intros Hh Hc Hs (Ic & (If & Is) & Il).
  split; [now apply Hc|].
  split; [|now apply (listening_host s)].
  split; [now apply step_fallbackOnly|].
  intros Hcon. rewrite (sh_isConnected _ _ Hh) in Hcon. destruct (Is Hcon) as (Hr & Hy).
  split; [now apply step_replayed|now apply Hs].
Qed.

Lemma place_Inv c f s : Inv s -> Inv (place c f s).
Proof.
  intros (Hc & (Hf & _) & Hl).
  pose proof (place_fallbackOnly c f s Hf) as Hf'.
  unfold place in *. cbv zeta in *.
  set (s1 := set_position c f s) in *.
  set (s2 := if isConnected s then disconnectedCallback s1 else s1) in *.
  assert (Hc2 : checkedMirrored s2).
  { unfold s2. destruct (isConnected s); [|exact Hc].
    now apply disconnectedCallback_fields. }
  assert (Hf2 : fallbackOnly s2).
  { unfold s2. destruct (isConnected s); [|exact Hf].
    now apply disconnectedCallback_fallbackOnly. }
  assert (Hp2 : isConnected s2 = c).
  { unfold s2. destruct (isConnected s); [|reflexivity].
    destruct (disconnectedCallback_fields s1) as (_ & _ & (E & _) & _). exact E. }
  assert (Hl2 : c = false -> clickListener s2 = false /\ keydownListener s2 = false).
  { intros ->. unfold s2. destruct (isConnected s) eqn:E.
    - destruct (disconnectedCallback_fields s1) as (E1 & E2 & _). now split.
    - destruct Hl as (Hl1 & Hl2). cbn. split; congruence. }
  clearbody s2. destruct c.
  - split; [now apply connectedCallback_checkedMirrored|].
    split; [split; [exact Hf'|]|].
    + intros _. split; [apply connectedCallback_replayed|now apply connectedCallback_synced].
    + destruct (connectedCallback_place s2) as (E & _).
      destruct (connectedCallback_fields s2) as (_ & _ & Ek & Ed & _).
      unfold listening. rewrite Ek, Ed, E, Hp2. split; exact eq_refl.
  - split; [exact Hc2|]. split; [split; [exact Hf2|]|].
    + rewrite Hp2. discriminate.
    + destruct (Hl2 eq_refl) as (E1 & E2). unfold listening. now rewrite Hp2, E1, E2.
Qed.

Lemma step_Inv o s : Inv s -> Inv (step o s).
Proof.
  destruct o as [name value|name|prop value| | | |message| | | |key|f|c f];
    [apply Inv_host; unfold step..|apply place_Inv].
  - apply setAttribute_host.
  - intros H _. now apply setAttribute_checkedMirrored.
  - intros _ _ H. now apply setAttribute_synced.
  - apply removeAttribute_host.
  - intros H _. now apply removeAttribute_checkedMirrored.
  - intros _ _ H. now apply removeAttribute_synced.
  - apply assign_host.
  - intros H _. now apply assign_checkedMirrored.
  - intros _ (_ & _ & Hn & Hv & _) H. now apply assign_synced.
  - apply toggle_host.
  - intros _ _. apply toggle_checkedMirrored.
  - intros _ _ H. apply toggle_synced, H.
  - rewrite checkValidity_state. apply updateValidity_host.
  - intros H _. rewrite checkValidity_state.
    apply (checkedMirrored_same s); [push; reflexivity|push; reflexivity|exact H].
  - intros _ _ H. rewrite checkValidity_state. now apply updateValidity_synced.
  - apply reportValidity_host.
  - intros H _. now apply reportValidity_checkedMirrored.
  - intros _ _ H. now apply reportValidity_synced.
  - apply setCustomValidity_host.
  - intros H _. now apply setCustomValidity_checkedMirrored.
  - intros _ _ H. now apply setCustomValidity_synced.
  - apply focus_host.
  - intros H _. exact H.
  - intros _ _ H. exact H.
  - apply blur_host.
  - intros H _. exact H.
  - intros _ _ H. exact H.
  - destruct (clickListener s); [apply onClick_host|apply sameHost_refl].
  - intros H (E & _). destruct (clickListener s); [|exact H].
    now apply onClick_checkedMirrored.
  - intros Hc _ H. destruct (clickListener s); [|exact H]. now apply onClick_synced.
  - destruct (keydownListener s); [apply onKeyDown_host|apply sameHost_refl].
  - intros H (_ & E). destruct (keydownListener s); [|exact H].
    now apply onKeyDown_checkedMirrored.
  - intros Hc _ H. destruct (keydownListener s); [|exact H]. now apply onKeyDown_synced.
  - destruct (bool_decide _); [apply onFormReset_host|apply sameHost_refl].
  - intros H _. destruct (bool_decide _); [|exact H]. now apply onFormReset_checkedMirrored.
  - intros _ _ H. destruct (bool_decide _); [|exact H]. apply onFormReset_synced, H.
Qed.

Lemma run_app ops1 ops2 s : run (ops1 ++ ops2) s = run ops2 (run ops1 s).
Proof. apply fold_left_app. Qed.

Lemma run_Inv ops s : Inv s -> Inv (run ops s).
Proof.
  revert s. induction ops as [|o ops IH]; intros s H; [exact H|].
  cbn. apply IH. now apply step_Inv.
Qed.

(** ** The upgrade *)

Lemma upgradeReaction_changed s a :
  observed a.1 = true -> upgradeReaction s a = reflectAttribute a.1 s.
Proof.
  intros H. unfold upgradeReaction. rewrite H.
  now apply attributeChangedCallback_changed.
Qed.

Lemma upgradeReaction_unobserved s a : observed a.1 = false -> upgradeReaction s a = s.
Proof. intros H. unfold upgradeReaction. now rewrite H. Qed.

Lemma upgradeReaction_attrs k s a :
  internalAttr k = false -> attrs (upgradeReaction s a) !! k = attrs s !! k.
Proof.
  intros Hk. unfold upgradeReaction. destruct (observed a.1) eqn:H; [|reflexivity].
  now apply attributeChangedCallback_attrs.
Qed.

Lemma upgradeReaction_n_checked s a :
  n_checked (native (upgradeReaction s a)) =
  if String.eqb a.1 "checked" then hasAttribute "checked" s else n_checked (native s).
Proof.
  destruct (observed a.1) eqn:H.
  - rewrite upgradeReaction_changed by assumption. now apply reflectAttribute_checked.
  - rewrite upgradeReaction_unobserved by assumption.
    destruct (String.eqb_spec a.1 "checked") as [E|E]; [|reflexivity].
    rewrite E in H. discriminate H.
Qed.

Lemma upgradeReaction_host s a : sameHost s (upgradeReaction s a).
Proof.
  unfold upgradeReaction. destruct (observed a.1) eqn:H; [|apply sameHost_refl].
  now apply attributeChangedCallback_host.
Qed.

Lemma upgradeReaction_synced s a : synced s -> synced (upgradeReaction s a).
Proof.
  intros Hs. destruct (observed a.1) eqn:H.
  - rewrite upgradeReaction_changed by assumption.
    apply reflectAttribute_synced; [assumption|apply Hs|auto].
  - now rewrite upgradeReaction_unobserved.
Qed.

Lemma upgradeReaction_fallbackOnly s a : fallbackOnly s -> fallbackOnly (upgradeReaction s a).
Proof.
  intros Hs. unfold upgradeReaction. destruct (observed a.1) eqn:H; [|assumption].
  now apply attributeChangedCallback_fallbackOnly.
Qed.

Section Reactions.
Variable atts : list (string * string).

Lemma reactions_host s : sameHost s (fold_left upgradeReaction atts s).
Proof.
  revert s. induction atts as [|a l IH]; intros s; [apply sameHost_refl|].
  cbn. apply (sameHost_trans _ (upgradeReaction s a)); [apply upgradeReaction_host|apply IH].
Qed.

Lemma reactions_attrs k s :
  internalAttr k = false -> attrs (fold_left upgradeReaction atts s) !! k = attrs s !! k.
Proof.
  intros Hk. revert s. induction atts as [|a l IH]; intros s; [reflexivity|].
  cbn. rewrite IH. now apply upgradeReaction_attrs.
Qed.

Lemma reactions_synced s : synced s -> synced (fold_left upgradeReaction atts s).
Proof.
  revert s. induction atts as [|a l IH]; intros s H; [exact H|].
  cbn. apply IH. now apply upgradeReaction_synced.
Qed.

Lemma reactions_fallbackOnly s :
  fallbackOnly s -> fallbackOnly (fold_left upgradeReaction atts s).
Proof.
  revert s. induction atts as [|a l IH]; intros s H; [exact H|].
  cbn. apply IH. now apply upgradeReaction_fallbackOnly.
Qed.

Lemma reactions_checkedMirrored s :
  checkedMirrored s -> checkedMirrored (fold_left upgradeReaction atts s).
Proof.
  revert s. induction atts as [|a l IH]; intros s H; [exact H|].
  cbn. apply IH. unfold checkedMirrored, get_checked, hasAttribute.
  rewrite upgradeReaction_n_checked, upgradeReaction_attrs by reflexivity.
  destruct (String.eqb a.1 "checked"); [reflexivity|exact H].
Qed.

(** Without a [checked] attribute no reaction touches the native
    checkedness. *)
Lemma reactions_unchecked s :
  "checked" ∉ atts.*1 ->
  n_checked (native (fold_left upgradeReaction atts s)) = n_checked (native s).
Proof.
  revert s. induction atts as [|a l IH]; intros s H; [reflexivity|].
  cbn in *. apply not_elem_of_cons in H as (Ha & Hl).
  rewrite IH by assumption. rewrite upgradeReaction_n_checked.
  destruct (String.eqb_spec a.1 "checked"); [congruence|reflexivity].
Qed.

End Reactions.

(** With a [checked] attribute its reaction brings the native checkbox in
    line, and the reactions after it keep it there. *)
Lemma reactions_checked atts s :
  "checked" ∈ atts.*1 -> checkedMirrored (fold_left upgradeReaction atts s).
Proof.
  revert s. induction atts as [|a l IH]; intros s H; [now apply elem_of_nil in H|].
  cbn in *. apply elem_of_cons in H as [Ha|Hl]; [|now apply IH].
  apply reactions_checkedMirrored. unfold checkedMirrored, get_checked, hasAttribute.
  rewrite upgradeReaction_n_checked, upgradeReaction_attrs by reflexivity.
  rewrite <- Ha. reflexivity.
Qed.

Lemma upgrade_Inv ai own atts c f : Inv (upgrade ai own atts c f).
Proof.
  unfold upgrade. cbv zeta.
  set (s0 := set_position c f (set_attrs _ (constructor ai own))).
  set (s1 := fold_left upgradeReaction atts s0).
  assert (Hf0 : fallbackOnly s0) by (now right).
  assert (Hf1 : fallbackOnly s1) by now apply reactions_fallbackOnly.
  assert (Hc1 : checkedMirrored s1).
  { destruct (decide ("checked" ∈ atts.*1)) as [Hin|Hout]; [now apply reactions_checked|].
    unfold checkedMirrored, get_checked, hasAttribute, s1.
    rewrite reactions_unchecked, reactions_attrs by (assumption || reflexivity). cbn.
    apply not_elem_of_list_to_map_1 in Hout. now rewrite Hout. }
  assert (Hh : sameHost s0 s1) by apply reactions_host.
  clearbody s1. destruct c.
  - split; [now apply connectedCallback_checkedMirrored|].
    split; [split; [now apply connectedCallback_fallbackOnly|]|].
    + intros _. split; [apply connectedCallback_replayed|now apply connectedCallback_synced].
    + destruct (connectedCallback_place s1) as (E & _).
      destruct (connectedCallback_fields s1) as (_ & _ & Ek & Ed & _).
      destruct Hh as [_ _ E' _ _ _ _].
      unfold listening. rewrite Ek, Ed, E, E'. split; exact eq_refl.
  - destruct Hh as [_ _ Ec _ Ek Ed _].
    split; [exact Hc1|]. split; [split; [exact Hf1|]|].
    + rewrite Ec. discriminate.
    + unfold listening. rewrite Ek, Ed, Ec. split; exact eq_refl.
Qed.

(** ** The form of the hidden input *)

(** The element has been in no form but [f0], and its hidden input, if
    there is one, is a child of [f0]. *)
Section HiddenHome.

Context (f0 : nat).

Definition hiddenHome (s : ToggleInput) : Prop :=
  (form s = None \/ form s = Some f0) /\
  forall h, hiddenInput s = Some h -> h_parent h = Some f0.

Lemma hiddenHome_same s s' :
  form s' = form s -> hiddenInput s' = hiddenInput s -> hiddenHome s -> hiddenHome s'.
Proof. unfold hiddenHome. now intros -> ->. Qed.

Lemma writeHiddenInput_parent h s : h_parent (writeHiddenInput h s) = h_parent h.
Proof. unfold writeHiddenInput. now destruct (n_checked _). Qed.

Lemma ensureHiddenInput_hiddenHome s : hiddenHome s -> hiddenHome (_ensureHiddenInput s).
Proof.
  intros H. pose proof H as (Hp & Hh). unfold _ensureHiddenInput.
  destruct (negb (isConnected s)); [exact H|].
  destruct (form s) as [g|] eqn:Ef, (hiddenInput s) as [h0|] eqn:Eh.
  - destruct (internals s); exact H.
  - destruct (internals s); [exact H|].
    destruct (truthy (this_name s)); [|exact H].
    cbv zeta. split; [cbn; now rewrite Ef|]. cbn. intros h E. injection E as <-.
    rewrite writeHiddenInput_parent. cbn. destruct Hp as [Hp|Hp]; congruence.
  - split; [cbn; now rewrite Ef|]. cbn. discriminate.
  - destruct (internals s); exact H.
Qed.

Lemma updateHiddenInput_hiddenHome s : hiddenHome s -> hiddenHome (_updateHiddenInput s).
Proof.
  intros H. unfold _updateHiddenInput. cbv zeta.
  assert (H1 : hiddenHome (match hiddenInput s with
                           | Some _ => s
                           | None => _ensureHiddenInput s
                           end))
    by (destruct (hiddenInput s); [exact H|now apply ensureHiddenInput_hiddenHome]).
  revert H1. generalize (match hiddenInput s with
                         | Some _ => s
                         | None => _ensureHiddenInput s
                         end).
  intros x H1. pose proof H1 as (Hp & Hh).
  destruct (hiddenInput x) as [h0|] eqn:Eh; [|exact H1].
  split; [exact Hp|]. cbn. intros h E. injection E as <-.
  rewrite writeHiddenInput_parent. now apply Hh.
Qed.

Lemma updateFormValue_hiddenHome s : hiddenHome s -> hiddenHome (_updateFormValue s).
Proof.
  intros H. unfold _updateFormValue. destruct (internals s).
  - destruct (n_checked _); exact H.
  - now apply updateHiddenInput_hiddenHome.
Qed.

Ltac home_low :=
  idtac;
  lazymatch goal with
  | |- hiddenHome (_ensureHiddenInput _) => simple apply ensureHiddenInput_hiddenHome
  | |- hiddenHome (_updateHiddenInput _) => simple apply updateHiddenInput_hiddenHome
  | |- hiddenHome (_updateFormValue _) => simple apply updateFormValue_hiddenHome
  | |- hiddenHome (set_position _ _ _) => fail
  | |- hiddenHome (set_hiddenInput _ _) => fail
  | |- hiddenHome (?f ?s) => is_low (f s); apply (hiddenHome_same s); [frame|frame|]
  end.

Ltac keep_home := idtac; home_low.

Ltac home_chain :=
  cbv zeta; repeat first [assumption | chain_step hiddenHome keep_home].

Lemma reflectAttribute_hiddenHome name s :
  observed name = true -> hiddenHome s -> hiddenHome (reflectAttribute name s).
Proof.
  intros H Hs. names H; unfold reflectAttribute; eval_names; home_chain.
Qed.

Lemma setAttribute_hiddenHome name value s :
  hiddenHome s -> hiddenHome (setAttribute name value s).
Proof.
  intros H. unfold setAttribute. cbv zeta.
  assert (H0 : hiddenHome (setAttribute0 name value s)) by exact H.
  destruct (observed name) eqn:Ho; [|exact H0].
  destruct (decide (getAttribute name s = Some value)) as [E|E].
  - now rewrite E, attributeChangedCallback_same.
  - rewrite attributeChangedCallback_changed by exact E.
    now apply reflectAttribute_hiddenHome.
Qed.

Lemma removeAttribute_hiddenHome name s :
  hiddenHome s -> hiddenHome (removeAttribute name s).
Proof.
  intros H. unfold removeAttribute. destruct (getAttribute name s) eqn:Ea; [|exact H].
  cbv zeta. assert (H0 : hiddenHome (removeAttribute0 name s)) by exact H.
  destruct (observed name) eqn:Ho; [|exact H0].
  rewrite attributeChangedCallback_changed by discriminate.
  now apply reflectAttribute_hiddenHome.
Qed.

Lemma mirrorChecked_hiddenHome s : hiddenHome s -> hiddenHome (mirrorChecked s).
Proof.
  intros H. unfold mirrorChecked.
  destruct (n_checked _);
    [now apply setAttribute_hiddenHome|now apply removeAttribute_hiddenHome].
Qed.

Lemma assign_hiddenHome prop v s : hiddenHome s -> hiddenHome (assign prop v s).
Proof.
  intros H. apply assign_cases; [exact H|..];
    unfold set_checked, set_disabled, set_name, set_value, set_required, set_indeterminate;
    match goal with |- context [if ?c then _ else _] => destruct c end;
    first [now apply setAttribute_hiddenHome | now apply removeAttribute_hiddenHome].
Qed.

Lemma upgradeProperty_hiddenHome prop s :
  hiddenHome s -> hiddenHome (_upgradeProperty prop s).
Proof.
  intros H. unfold _upgradeProperty. destruct (ownProps s !! prop); [|exact H].
  apply assign_hiddenHome. exact H.
Qed.

Ltac keep_home ::=
  first
    [ simple apply setAttribute_hiddenHome | simple apply removeAttribute_hiddenHome
    | simple apply mirrorChecked_hiddenHome | simple apply assign_hiddenHome
    | simple apply upgradeProperty_hiddenHome | home_low ].

Lemma toggle_hiddenHome s : hiddenHome s -> hiddenHome (toggle s).
Proof. intros H. unfold toggle. home_chain. Qed.

Lemma onFormReset_hiddenHome s : hiddenHome s -> hiddenHome (_onFormReset s).
Proof. intros H. unfold _onFormReset. home_chain. Qed.

Lemma onNativeInput_hiddenHome s : hiddenHome s -> hiddenHome (_onNativeInput s).
Proof. intros H. unfold _onNativeInput. home_chain. Qed.

Lemma onNativeChange_hiddenHome s : hiddenHome s -> hiddenHome (_onNativeChange s).
Proof. intros H. unfold _onNativeChange. home_chain. Qed.

Lemma nativeClick_hiddenHome s : hiddenHome s -> hiddenHome (nativeClick s).
Proof.
  intros H. unfold nativeClick. destruct (n_disabled _); [exact H|]. cbv zeta.
  set (s1 := set_native _ s). assert (H1 : hiddenHome s1) by exact H.
  clearbody s1. destruct (isConnected s1); [|exact H1].
  now apply onNativeChange_hiddenHome, onNativeInput_hiddenHome.
Qed.

Lemma onClick_hiddenHome s : hiddenHome s -> hiddenHome (_onClick s).
Proof.
  intros H. unfold _onClick. destruct (get_disabled s); [exact H|].
  apply (hiddenHome_same (nativeClick s)); [reflexivity..|].
  now apply nativeClick_hiddenHome.
Qed.

Lemma onKeyDown_hiddenHome key s : hiddenHome s -> hiddenHome (_onKeyDown key s).
Proof.
  intros H. unfold _onKeyDown. destruct (get_disabled s); [exact H|].
  destruct (togglingKey key); [|exact H].
  now apply (nativeClick_hiddenHome (perform PreventDefault s)).
Qed.

Lemma reportValidity_hiddenHome s : hiddenHome s -> hiddenHome (reportValidity s).1.
Proof.
  intros H. unfold reportValidity. cbv zeta. destruct (internals (_updateValidity s)).
  - destruct (barred _ || valid _); cbn [fst]; home_chain.
  - destruct (checkValidity (_updateValidity s)) as [s' ok] eqn:E.
    assert (Hs : s' = _updateValidity (_updateValidity s))
      by (now rewrite <- checkValidity_state, E).
    subst s'. destruct ok; cbn [fst]; home_chain.
Qed.

Lemma setCustomValidity_hiddenHome m s : hiddenHome s -> hiddenHome (setCustomValidity m s).
Proof.
  intros H. unfold setCustomValidity. cbv zeta. set (s1 := set_customValidity _ s).
  assert (H1 : hiddenHome s1) by exact H. clearbody s1.
  destruct (internals s1); [destruct (nonEmpty _)|]; home_chain.
Qed.

Lemma connectedCallback_hiddenHome s : hiddenHome s -> hiddenHome (connectedCallback s).
Proof. intros H. unfold_cc. home_chain. Qed.

Lemma disconnectedCallback_hiddenHome s :
  hiddenHome s -> hiddenHome (disconnectedCallback s).
Proof.
  intros H. unfold disconnectedCallback. cbv zeta.
  destruct (form _) eqn:E; exact H.
Qed.

(** The operations that do not put the element into another form. *)
Definition staysIn (o : Op) : bool :=
  match o with
  | OPlace _ (Some g) => bool_decide (g = f0)
  | _ => true
  end.

Lemma place_hiddenHome c f s :
  staysIn (OPlace c f) = true -> hiddenHome s -> hiddenHome (place c f s).
Proof.
  intros Ho (_ & Hh). unfold place. cbv zeta.
  set (s1 := set_position c f s).
  assert (H1 : hiddenHome s1).
  { split; [|exact Hh]. cbn. destruct f as [g|]; [|now left].
    cbn in Ho. apply bool_decide_eq_true in Ho. subst g. now right. }
  clearbody s1.
  assert (H2 : hiddenHome (if isConnected s then disconnectedCallback s1 else s1))
    by (destruct (isConnected s); [now apply disconnectedCallback_hiddenHome|exact H1]).
  destruct c; [now apply connectedCallback_hiddenHome|exact H2].
Qed.

Lemma step_hiddenHome o s : staysIn o = true -> hiddenHome s -> hiddenHome (step o s).
Proof.
  intros Ho H.
  destruct o as [name value|name|prop value| | | |message| | | |key|f|c f]; unfold step.
  - now apply setAttribute_hiddenHome.
  - now apply removeAttribute_hiddenHome.
  - now apply assign_hiddenHome.
  - now apply toggle_hiddenHome.
  - rewrite checkValidity_state. home_chain.
  - now apply reportValidity_hiddenHome.
  - now apply setCustomValidity_hiddenHome.
  - exact H.
  - exact H.
  - destruct (clickListener s); [now apply onClick_hiddenHome|exact H].
  - destruct (keydownListener s); [now apply onKeyDown_hiddenHome|exact H].
  - destruct (bool_decide _); [now apply onFormReset_hiddenHome|exact H].
  - now apply place_hiddenHome.
Qed.

Lemma run_hiddenHome ops s :
  forallb staysIn ops = true -> hiddenHome s -> hiddenHome (run ops s).
Proof.
  revert s. induction ops as [|o ops IH]; intros s Ho H; [exact H|].
  cbn in Ho. apply andb_true_iff in Ho as (Ho1 & Ho2).
  change (run (o :: ops) s) with (run ops (step o s)).
  apply IH; [exact Ho2|]. now apply step_hiddenHome.
Qed.

Lemma upgrade_hiddenHome ai own atts c f :
  f = None \/ f = Some f0 -> hiddenHome (upgrade ai own atts c f).
Proof.
  intros Hf. unfold upgrade. cbv zeta.
  set (s0 := set_position c f (set_attrs _ (constructor ai own))).
  assert (H0 : hiddenHome s0) by (split; [exact Hf|discriminate]).
  clearbody s0.
  assert (H1 : hiddenHome (fold_left upgradeReaction atts s0)).
  { revert s0 H0. induction atts as [|a atts IH]; intros s0 H0; [exact H0|].
    cbn [fold_left]. apply IH. unfold upgradeReaction.
    destruct (observed a.1) eqn:Ho; [|exact H0].
    rewrite attributeChangedCallback_changed by discriminate.
    now apply reflectAttribute_hiddenHome. }
  destruct c; [now apply connectedCallback_hiddenHome|exact H1].
Qed.

End HiddenHome.

(** ** What the class reads once the early properties are replayed *)

Lemma this_name_unshadowed s : unshadowed "name" s -> this_name s = ofAttribute (get_name s).
Proof. unfold unshadowed, this_name. now intros ->. Qed.

Lemma this_value_unshadowed s : unshadowed "value" s -> this_value s = JStr (get_value s).
Proof. unfold unshadowed, this_value. now intros ->. Qed.

Lemma this_required_unshadowed s : unshadowed "required" s -> this_required s = get_required s.
Proof. unfold unshadowed, this_required. now intros ->. Qed.

Lemma orEmpty_ofAttribute a : orEmpty (ofAttribute a) = orElse a "".
Proof.
  destruct a as [v|]; [|reflexivity]. unfold orEmpty, orElse. cbn.
  now destruct (String.eqb v "") eqn:E; [apply String.eqb_eq in E as ->|].
Qed.

Lemma truthy_ofAttribute a : truthy (ofAttribute a) = truthyStr a.
Proof. now destruct a. Qed.

(** The operations of a page within the reach of [assign]: an assignment
    is to one of the properties of the class. *)
Definition pageOp (o : Op) : bool :=
  match o with
  | OAssign prop _ => classProperty prop
  | _ => true
  end.

(** * The claims *)

(** C1.  For every instance and after every public operation (a property
    assignment such as the [checked] setter, a change of any attribute, a
    user click or key press, [toggle()], a form reset, validation calls,
    insertion and removal), the [checked] property, read from the native
    checkbox, equals the presence of the [checked] attribute on the host. *)
Theorem checked_property_mirrors_attribute
    (ai : bool) (own : gmap string JSVal) (atts : list (string * string))
    (c : bool) (f : option nat) (ops : list Op) :
  let s := run ops (upgrade ai own atts c f) in
  get_checked s = hasAttribute "checked" s.
Proof. intros s. apply (run_Inv ops _ (upgrade_Inv ai own atts c f)). Qed.

(** C2, at its failing input.  An element carrying the [indeterminate]
    attribute is toggled by [toggle()]: line 261 clears the flag of the
    native checkbox and leaves the attribute, so the [indeterminate]
    property is false while the attribute is still present; assigning
    [true] to the property afterwards changes nothing, the attribute already
    having the value the setter writes. *)
Theorem toggle_leaves_indeterminate_attribute :
  let s0 := upgrade true ∅ [("indeterminate", "")] true None in
  let s := run [OToggle] s0 in
  let s' := run [OToggle; OAssign "indeterminate" (JBool true)] s0 in
  (get_indeterminate s0 = true /\ hasAttribute "indeterminate" s0 = true) /\
  (get_indeterminate s = false /\ hasAttribute "indeterminate" s = true) /\
  (get_indeterminate s' = false /\ hasAttribute "indeterminate" s' = true).
Proof. vm_compute. repeat split. Qed.

(** C3, at its failing input.  On the fallback path a checked element
    named [n] is connected inside form 1 and then moved into form 2.  The
    first [connectedCallback] creates the hidden input in form 1 (line
    306).  The second one runs [_ensureHiddenInput] again, which finds a
    form and a hidden input and does nothing (lines 296-307), and
    [_updateHiddenInput] writes name and value into the input where it is.
    So the element is connected, checked and inside form 2, which holds no
    field for it, and form 1 still submits [n=on] for an element it no
    longer contains. *)
Theorem hidden_input_left_in_old_form :
  let s0 := upgrade false ∅ [("name", "n"); ("checked", "")] true (Some 1) in
  let s := step (OPlace true (Some 2)) s0 in
  (isConnected s0 = true /\ form s0 = Some 1 /\
   hiddenInput s0 = Some (mkHidden (Some "n") (Some "on") (Some 1))) /\
  isConnected s = true /\ form s = Some 2 /\ internals s = None /\
  get_checked s = true /\ get_name s = Some "n" /\ get_value s = "on" /\
  hiddenInput s = Some (mkHidden (Some "n") (Some "on") (Some 1)).
Proof. vm_compute. repeat split. Qed.

(** C10, at its failing input.  A connected element carrying the
    [indeterminate] attribute is clicked.  The browser clears the
    [indeterminate] flag of the native checkbox before it fires [input] and
    [change], so the tests on lines 227 and 239 find it false and the
    attribute stays on the host. *)
Theorem click_leaves_indeterminate_attribute :
  let s0 := upgrade true ∅ [("indeterminate", "")] true None in
  let s := step OUserClick s0 in
  (get_indeterminate s0 = true /\ hasAttribute "indeterminate" s0 = true) /\
  get_disabled s0 = false /\
  get_checked s = true /\
  get_indeterminate s = false /\ hasAttribute "indeterminate" s = true /\
  map ev_type (events s) = ["input"; "change"; "click"].
Proof. vm_compute. repeat split. Qed.

(** ** The [indeterminate] attribute under user interaction *)

Lemma setAttribute_n_indeterminate name value s :
  name <> "indeterminate" ->
  n_indeterminate (native (setAttribute name value s)) = n_indeterminate (native s).
Proof.
  intros Hn. unfold setAttribute, getAttribute. cbv zeta.
  destruct (observed name) eqn:H; [|reflexivity].
  destruct (decide (attrs s !! name = Some value)) as [E|E].
  - rewrite E, attributeChangedCallback_same. reflexivity.
  - rewrite attributeChangedCallback_changed by exact E.
    rewrite reflectAttribute_indeterminate by assumption.
    destruct (String.eqb_spec name "indeterminate"); [contradiction|reflexivity].
Qed.

Lemma removeAttribute_n_indeterminate name s :
  name <> "indeterminate" ->
  n_indeterminate (native (removeAttribute name s)) = n_indeterminate (native s).
Proof.
  intros Hn. unfold removeAttribute, getAttribute.
  destruct (attrs s !! name) eqn:E; [|reflexivity].
  cbv zeta. destruct (observed name) eqn:H; [|reflexivity].
  rewrite attributeChangedCallback_changed by discriminate.
  rewrite reflectAttribute_indeterminate by assumption.
  destruct (String.eqb_spec name "indeterminate"); [contradiction|reflexivity].
Qed.

Lemma mirrorChecked_n_indeterminate s :
  n_indeterminate (native (mirrorChecked s)) = n_indeterminate (native s).
Proof.
  unfold mirrorChecked. destruct (n_checked _).
  - now apply setAttribute_n_indeterminate.
  - now apply removeAttribute_n_indeterminate.
Qed.

Lemma mirrorChecked_attrs k s :
  internalAttr k = false -> k <> "checked" ->
  attrs (mirrorChecked s) !! k = attrs s !! k.
Proof.
  intros Hk Hn. unfold mirrorChecked. destruct (n_checked _).
  - rewrite setAttribute_attrs by assumption. now destruct (decide _).
  - rewrite removeAttribute_attrs by assumption. now destruct (decide _).
Qed.

(** The handlers of the native events, run when the native flag is already
    cleared: the attribute is left as it is and the flag stays cleared. *)
Lemma onNativeInput_cleared s :
  n_indeterminate (native s) = false ->
  attrs (_onNativeInput s) !! "indeterminate" = attrs s !! "indeterminate" /\
  n_indeterminate (native (_onNativeInput s)) = false.
Proof.
  intros H. unfold _onNativeInput. rewrite H. cbv zeta. cbn -[_render].
  push. rewrite mirrorChecked_attrs by (reflexivity || discriminate).
  now rewrite mirrorChecked_n_indeterminate.
Qed.

Lemma onNativeChange_cleared s :
  n_indeterminate (native s) = false ->
  attrs (_onNativeChange s) !! "indeterminate" = attrs s !! "indeterminate" /\
  n_indeterminate (native (_onNativeChange s)) = false.
Proof.
  intros H. unfold _onNativeChange. rewrite H. cbv zeta. cbn -[_render].
  push. rewrite mirrorChecked_attrs by (reflexivity || discriminate).
  now rewrite mirrorChecked_n_indeterminate.
Qed.

Lemma nativeClick_indeterminate s :
  attrs (nativeClick s) !! "indeterminate" = attrs s !! "indeterminate".
Proof.
  unfold nativeClick. destruct (n_disabled _); [reflexivity|]. cbv zeta.
  set (s1 := set_native _ s). destruct (isConnected s1); [|reflexivity].
  assert (H1 : n_indeterminate (native s1) = false) by reflexivity.
  destruct (onNativeInput_cleared s1 H1) as (Ea & En).
  destruct (onNativeChange_cleared _ En) as (Ea' & _).
  now rewrite Ea', Ea.
Qed.

(** No click and no key press ever removes the [indeterminate] attribute:
    the defect behind C10, for every state. *)
Lemma user_interaction_keeps_indeterminate_attribute s :
  hasAttribute "indeterminate" (step OUserClick s) = hasAttribute "indeterminate" s /\
  forall key,
    hasAttribute "indeterminate" (step (OKeyDown key) s) = hasAttribute "indeterminate" s.
Proof.
  unfold hasAttribute. cbn. split.
  - destruct (clickListener s); [|reflexivity]. unfold _onClick.
    destruct (get_disabled s); [reflexivity|].
    change (attrs (dispatchEvent clickEvent ?x)) with (attrs x).
    now rewrite nativeClick_indeterminate.
  - intros key. destruct (keydownListener s); [|reflexivity]. unfold _onKeyDown.
    destruct (get_disabled s); [reflexivity|]. destruct (togglingKey key); [|reflexivity].
    now rewrite nativeClick_indeterminate.
Qed.

(** ** Events *)

Lemma upgradeProperty_quiet prop s : sameEvents s (_upgradeProperty prop s).
Proof.
  unfold _upgradeProperty. destruct (ownProps s !! prop); [|reflexivity].
  apply (sameEvents_trans _ (set_ownProps (fun m => delete prop m) s)); [reflexivity|].
  apply assign_quiet.
Qed.

#[export] Hint Resolve upgradeProperty_quiet : quiet.

Lemma connectedCallback_quiet s : sameEvents s (connectedCallback s).
Proof. unfold_cc. quiet_chain. Qed.

Lemma disconnectedCallback_quiet s : sameEvents s (disconnectedCallback s).
Proof. unfold disconnectedCallback. cbv zeta. cbn. now destruct (form s). Qed.

Lemma place_quiet c f s : sameEvents s (place c f s).
Proof.
  unfold place. cbv zeta. set (s1 := set_position c f s).
  set (s2 := if isConnected s then disconnectedCallback s1 else s1).
  assert (H2 : sameEvents s s2).
  { unfold s2. destruct (isConnected s); [|reflexivity].
    apply (sameEvents_trans _ s1); [reflexivity|apply disconnectedCallback_quiet]. }
  destruct c; [|exact H2].
  apply (sameEvents_trans _ s2); [exact H2|apply connectedCallback_quiet].
Qed.

Ltac events_frame :=
  lazymatch goal with
  | |- events ?x = events ?s => change (sameEvents s x); quiet_chain
  end.

Lemma onNativeInput_events s : events (_onNativeInput s) = (events s ++ [inputEvent])%list.
Proof.
  unfold _onNativeInput. cbv zeta.
  change (events (dispatchEvent inputEvent ?x)) with (events x ++ [inputEvent])%list.
  f_equal. events_frame.
Qed.

Lemma onNativeChange_events s : events (_onNativeChange s) = (events s ++ [changeEvent])%list.
Proof.
  unfold _onNativeChange. cbv zeta.
  change (events (dispatchEvent changeEvent ?x)) with (events x ++ [changeEvent])%list.
  f_equal. events_frame.
Qed.

Lemma nativeClick_events s :
  isConnected s = true -> n_disabled (native s) = false ->
  events (nativeClick s) = (events s ++ [inputEvent; changeEvent])%list.
Proof.
  intros Hc Hd. unfold nativeClick. rewrite Hd. cbv zeta.
  change (isConnected (set_native ?g s)) with (isConnected s). rewrite Hc.
  rewrite onNativeChange_events, onNativeInput_events.
  change (events (set_native ?g s)) with (events s).
  now rewrite <- app_assoc.
Qed.

Lemma onClick_events s :
  isConnected s = true -> get_disabled s = false ->
  events (_onClick s) = (events s ++ [inputEvent; changeEvent; clickEvent])%list.
Proof.
  intros Hc Hd. unfold _onClick. rewrite Hd.
  change (events (dispatchEvent clickEvent ?x)) with (events x ++ [clickEvent])%list.
  rewrite nativeClick_events by assumption. now rewrite <- app_assoc.
Qed.

Lemma onKeyDown_events key s :
  isConnected s = true -> get_disabled s = false -> togglingKey key = true ->
  events (_onKeyDown key s) = (events s ++ [inputEvent; changeEvent])%list.
Proof.
  intros Hc Hd Hk. unfold _onKeyDown. rewrite Hd, Hk.
  now rewrite (nativeClick_events (perform PreventDefault s)).
Qed.

(** The events a page takes for a change made by the user. *)
Definition isInteractionEvent (e : Event) : bool :=
  String.eqb (ev_type e) "input" || String.eqb (ev_type e) "change".

Definition interactionEvents (s : ToggleInput) : list Event :=
  List.filter isInteractionEvent (events s).

Definition userInteraction (o : Op) : bool :=
  match o with
  | OUserClick | OKeyDown _ => true
  | _ => false
  end.

Lemma sameEvents_interaction s s' : sameEvents s s' -> interactionEvents s' = interactionEvents s.
Proof. unfold sameEvents, interactionEvents. now intros ->. Qed.

Lemma reportValidity_interaction s :
  interactionEvents (reportValidity s).1 = interactionEvents s.
Proof.
  unfold reportValidity. cbv zeta. destruct (internals (_updateValidity s)).
  - destruct (barred _ || valid _); cbn [fst].
    + apply sameEvents_interaction. unfold sameEvents. push. reflexivity.
    + unfold interactionEvents.
      change (events (dispatchEvent invalidEvent ?x)) with (events x ++ [invalidEvent])%list.
      rewrite List.filter_app. cbn. rewrite app_nil_r. push. reflexivity.
  - destruct (checkValidity (_updateValidity s)) as [s' ok] eqn:E.
    assert (Hs : s' = _updateValidity (_updateValidity s))
      by (now rewrite <- checkValidity_state, E).
    subst s'. apply sameEvents_interaction. unfold sameEvents.
    destruct ok; cbn [fst]; push; reflexivity.
Qed.

(** Nothing but a click or a key press adds an [input] or [change] event. *)
Lemma step_interaction o s :
  userInteraction o = false -> interactionEvents (step o s) = interactionEvents s.
Proof.
  destruct o as [name value|name|prop value| | | |message| | | |key|f|c f]; cbn;
    try discriminate; intros _.
  - apply sameEvents_interaction, setAttribute_quiet.
  - apply sameEvents_interaction, removeAttribute_quiet.
  - apply sameEvents_interaction, assign_quiet.
  - apply sameEvents_interaction, toggle_quiet.
  - rewrite checkValidity_state. apply sameEvents_interaction. unfold sameEvents. push.
    reflexivity.
  - apply reportValidity_interaction.
  - apply sameEvents_interaction, setCustomValidity_quiet.
  - reflexivity.
  - reflexivity.
  - destruct (bool_decide _); [|reflexivity].
    apply sameEvents_interaction, onFormReset_quiet.
  - apply sameEvents_interaction, place_quiet.
Qed.

(** The keys of line 220. *)
Lemma togglingKey_keys key :
  togglingKey key = true <-> key = " " \/ key = "Spacebar" \/ key = "Enter".
Proof.
  unfold togglingKey. rewrite !orb_true_iff, !String.eqb_eq. tauto.
Qed.

(** C5.  In every reachable state: a click on the control of a connected,
    enabled element dispatches a bubbling composed [input] event and a
    bubbling composed [change] event (followed by the host's [click]); so
    does a key press whose key is [" "], ["Spacebar"] or ["Enter"]; a press
    of any other key changes nothing; and no other operation adds an
    [input] or a [change] event, in particular not the [checked] setter,
    not setting or removing the [checked] attribute, not [toggle()] and not
    a form reset, which leave the event log as it is. *)
Theorem events_only_on_user_interaction
    (ai : bool) (own : gmap string JSVal) (atts : list (string * string))
    (c : bool) (f : option nat) (ops : list Op) :
  let s := run ops (upgrade ai own atts c f) in
  (isConnected s = true -> get_disabled s = false ->
   events (step OUserClick s) =
     (events s ++ [mkEvent "input" true true false; mkEvent "change" true true false;
                   mkEvent "click" true true true])%list /\
   forall key, key = " " \/ key = "Spacebar" \/ key = "Enter" ->
     events (step (OKeyDown key) s) =
       (events s ++ [mkEvent "input" true true false; mkEvent "change" true true false])%list) /\
  (forall key, key <> " " -> key <> "Spacebar" -> key <> "Enter" ->
     step (OKeyDown key) s = s) /\
  (forall o, userInteraction o = false ->
     interactionEvents (step o s) = interactionEvents s) /\
  (forall v, events (set_checked v s) = events s) /\
  (forall v, events (setAttribute "checked" v s) = events s) /\
  events (removeAttribute "checked" s) = events s /\
  events (toggle s) = events s /\
  events (_onFormReset s) = events s.
Proof.
  intros s. pose proof (run_Inv ops _ (upgrade_Inv ai own atts c f)) as HI.
  fold s in HI. clearbody s. destruct HI as (_ & _ & Hk & Hd).
  split; [|split; [|split; [|repeat split]]].
  - intros Hc Hdis. unfold step. rewrite Hk, Hd, Hc. split.
    + now apply onClick_events.
    + intros key Hkey. apply onKeyDown_events; [assumption..|].
      now apply togglingKey_keys.
  - intros key H1 H2 H3. unfold step, _onKeyDown.
    assert (Hn : togglingKey key = false).
    { destruct (togglingKey key) eqn:E; [|reflexivity].
      apply togglingKey_keys in E. tauto. }
    rewrite Hn. now destruct (keydownListener s), (get_disabled s).
  - intros o Ho. now apply step_interaction.
  - intros v. apply set_checked_quiet.
  - intros v. apply setAttribute_quiet.
  - apply removeAttribute_quiet.
  - apply toggle_quiet.
  - apply onFormReset_quiet.
Qed.

Lemma events_only_on_user_interaction_witness :
  isConnected (run [] (upgrade true ∅ [] true None)) = true /\
  get_disabled (run [] (upgrade true ∅ [] true None)) = false /\
  events (step OUserClick (run [] (upgrade true ∅ [] true None))) =
    (events (run [] (upgrade true ∅ [] true None)) ++
     [mkEvent "input" true true false; mkEvent "change" true true false;
      mkEvent "click" true true true])%list /\
  events (step (OKeyDown "Enter") (run [] (upgrade true ∅ [] true None))) =
    (events (run [] (upgrade true ∅ [] true None)) ++
     [mkEvent "input" true true false; mkEvent "change" true true false])%list.
Proof.
  assert (Hc : isConnected (run [] (upgrade true ∅ [] true None)) = true)
    by (vm_compute; reflexivity).
  assert (Hd : get_disabled (run [] (upgrade true ∅ [] true None)) = false)
    by (vm_compute; reflexivity).
  split; [exact Hc|]. split; [exact Hd|].
  pose proof (proj1 (events_only_on_user_interaction true ∅ [] true None []) Hc Hd) as T.
  split; [exact (proj1 T)|].
  exact (proj2 T "Enter" (or_intror (or_intror eq_refl))).
Defined.

(** C6.  While the [disabled] property is true, a click and a key press
    leave the whole state of the element as it is (checked, indeterminate,
    form value, validity, attributes) and in particular dispatch no event. *)
Theorem disabled_ignores_user_interaction (s : ToggleInput) :
  get_disabled s = true ->
  _onClick s = s /\ (forall key, _onKeyDown key s = s) /\
  step OUserClick s = s /\ (forall key, step (OKeyDown key) s = s).
Proof.
  intros H. unfold step, _onClick, _onKeyDown. rewrite H.
  split; [reflexivity|]. split; [reflexivity|]. split.
  - now destruct (clickListener s).
  - intros key. now destruct (keydownListener s).
Qed.

Lemma disabled_ignores_user_interaction_witness :
  get_disabled (upgrade true ∅ [("disabled", ""); ("checked", "")] true (Some 0)) = true /\
  step OUserClick (upgrade true ∅ [("disabled", ""); ("checked", "")] true (Some 0)) =
    upgrade true ∅ [("disabled", ""); ("checked", "")] true (Some 0).
Proof.
  assert (Hd : get_disabled
                 (upgrade true ∅ [("disabled", ""); ("checked", "")] true (Some 0)) = true)
    by (vm_compute; reflexivity).
  split; [exact Hd|].
  exact (proj1 (proj2 (proj2 (disabled_ignores_user_interaction
           (upgrade true ∅ [("disabled", ""); ("checked", "")] true (Some 0)) Hd)))).
Defined.

(** ** Validation *)

(** [_updateValidity] leaves what it reads as it is. *)
Lemma updateValidity_reads s :
  this_required (_updateValidity s) = this_required s /\
  get_checked (_updateValidity s) = get_checked s /\
  customValidity (_updateValidity s) = customValidity s.
Proof.
  unfold this_required, get_required, hasAttribute, getAttribute, get_checked.
  push. repeat split.
Qed.

(** What [_updateValidity] leaves behind. *)
Definition validityCurrent (s : ToggleInput) : Prop :=
  let missing := this_required s && negb (get_checked s) in
  match internals s with
  | Some i => valueMissing i = missing /\ customError i = nonEmpty (customValidity s)
  | None =>
      getAttribute "aria-invalid" s =
      if missing || nonEmpty (customValidity s) then Some "true" else None
  end.

Lemma updateValidity_current s : validityCurrent (_updateValidity s).
Proof.
  unfold validityCurrent. cbv zeta.
  destruct (updateValidity_reads s) as (-> & -> & ->).
  unfold _updateValidity, get_checked, getAttribute. cbv zeta.
  generalize (this_required s). intros r.
  destruct (internals s) as [i|] eqn:E.
  - destruct (_ || _) eqn:Eb; cbn; [split; reflexivity|].
    apply orb_false_iff in Eb as (-> & ->). split; reflexivity.
  - destruct (_ || _) eqn:Eb; cbn; rewrite E;
      [apply lookup_insert_eq|apply lookup_delete_eq].
Qed.

Lemma checkValidity_result s :
  (checkValidity s).2 =
  negb (this_required s && negb (get_checked s)) && negb (nonEmpty (customValidity s)).
Proof.
  pose proof (updateValidity_current s) as H. unfold validityCurrent in H. cbv zeta in H.
  destruct (updateValidity_reads s) as (Hr & Hc & Hv). rewrite Hr, Hc, Hv in H.
  unfold checkValidity. cbv zeta.
  destruct (internals (_updateValidity s)) as [i|]; cbn [snd].
  - destruct H as (Hm & Hc'). unfold valid. rewrite Hm, Hc'.
    now rewrite negb_orb.
  - fold (get_checked (_updateValidity s)). now rewrite Hr, Hc, Hv.
Qed.

Lemma render_aria_invalid s : attrs (_render s) !! "aria-invalid" = attrs s !! "aria-invalid".
Proof.
  unfold _render. cbv zeta.
  repeat match goal with
  | |- context [if ?c then _ else _] => destruct c
  end; cbn;
  repeat first [rewrite lookup_insert_ne by discriminate | rewrite lookup_delete_ne by discriminate];
  reflexivity.
Qed.

Lemma render_current s : validityCurrent s -> validityCurrent (_render s).
Proof.
  unfold validityCurrent, this_required, get_required, get_checked, hasAttribute,
    getAttribute. cbv zeta.
  rewrite render_aria_invalid. push. exact id.
Qed.

Lemma truthy_nonEmpty m : nonEmpty (if truthy m then toString m else "") = truthy m.
Proof.
  destruct m as [| |[]|str]; try reflexivity. cbn. unfold nonEmpty.
  destruct (String.eqb str "") eqn:E; cbn; [reflexivity|now rewrite E].
Qed.

Lemma setCustomValidity_fields m s :
  customValidity (setCustomValidity m s) = (if truthy m then toString m else "") /\
  get_checked (setCustomValidity m s) = get_checked s /\
  this_required (setCustomValidity m s) = this_required s.
Proof.
  unfold this_required, get_required, hasAttribute, getAttribute, get_checked.
  unfold setCustomValidity. cbv zeta. set (s1 := set_customValidity _ s).
  destruct (internals s1); [destruct (nonEmpty _)|]; repeat split; push; reflexivity.
Qed.

(** C7.  [checkValidity()] returns true exactly when the element is not
    both required and unchecked and the custom validity message is empty;
    [required] is what the class reads as [this.required] (lines 336 and
    354), which is the presence of the [required] attribute unless a
    property of that name assigned before the upgrade shadows the accessor.
    [setCustomValidity] stores its message (nothing for a falsy one), so
    right after [setCustomValidity(m)] the answer depends on [m] being
    falsy.  For a required unchecked element the call leaves [valueMissing]
    set in the validity of the [ElementInternals], or [aria-invalid="true"]
    on the host when there are no internals. *)
Theorem checkValidity_required_and_custom (s : ToggleInput) :
  ((checkValidity s).2 = true <->
   ~ (this_required s = true /\ get_checked s = false) /\ customValidity s = "") /\
  (ownProps s !! "required" = None -> this_required s = hasAttribute "required" s) /\
  (forall v, ownProps s !! "required" = Some v -> this_required s = truthy v) /\
  (forall m, customValidity (setCustomValidity m s) = if truthy m then toString m else "") /\
  (forall m, (checkValidity (setCustomValidity m s)).2 = true <->
             ~ (this_required s = true /\ get_checked s = false) /\ truthy m = false) /\
  (this_required s = true -> get_checked s = false ->
   (checkValidity s).2 = false /\
   match internals (checkValidity s).1 with
   | Some i => valueMissing i = true /\ valid i = false
   | None => getAttribute "aria-invalid" (checkValidity s).1 = Some "true"
   end).
Proof.
  assert (R : forall t, (checkValidity t).2 = true <->
              ~ (this_required t = true /\ get_checked t = false) /\
              nonEmpty (customValidity t) = false).
  { intros t. rewrite checkValidity_result.
    destruct (this_required t), (get_checked t), (nonEmpty (customValidity t)); cbn;
      intuition congruence. }
  split; [|split; [|split; [|split; [|split]]]].
  - rewrite R. unfold nonEmpty.
    destruct (String.eqb_spec (customValidity s) ""); cbn; intuition congruence.
  - unfold this_required, get_required. now intros ->.
  - unfold this_required. now intros v ->.
  - intros m. apply setCustomValidity_fields.
  - intros m. rewrite R. destruct (setCustomValidity_fields m s) as (Ec & En & Ea).
    rewrite Ec, En, Ea, truthy_nonEmpty. reflexivity.
  - intros Hr Hc. split.
    + rewrite checkValidity_result, Hr, Hc. reflexivity.
    + rewrite checkValidity_state. pose proof (updateValidity_current s) as H.
      unfold validityCurrent in H. cbv zeta in H.
      destruct (updateValidity_reads s) as (Hr' & Hc' & _).
      rewrite Hr', Hc', Hr, Hc in H. cbn in H.
      destruct (internals (_updateValidity s)) as [i|]; [|exact H].
      destruct H as (Hm & _). split; [exact Hm|]. unfold valid. now rewrite Hm.
Qed.

Lemma checkValidity_required_and_custom_witness :
  this_required (upgrade true ∅ [("required", "")] true (Some 0)) = true /\
  get_checked (upgrade true ∅ [("required", "")] true (Some 0)) = false /\
  (checkValidity (upgrade true ∅ [("required", "")] true (Some 0))).2 = false.
Proof.
  assert (Hr : this_required (upgrade true ∅ [("required", "")] true (Some 0)) = true)
    by (vm_compute; reflexivity).
  assert (Hc : get_checked (upgrade true ∅ [("required", "")] true (Some 0)) = false)
    by (vm_compute; reflexivity).
  split; [exact Hr|]. split; [exact Hc|].
  pose proof (checkValidity_required_and_custom
                (upgrade true ∅ [("required", "")] true (Some 0))) as T.
  destruct T as (_ & _ & _ & _ & _ & T). specialize (T Hr Hc). destruct T as (T & _). exact T.
Defined.

(** ** Own properties across the upgrade *)

Lemma reactions_own atts s : sameOwn s (fold_left upgradeReaction atts s).
Proof.
  revert s. induction atts as [|a l IH]; intros s; [apply sameOwn_refl|].
  cbn [fold_left]. apply (sameOwn_trans _ (upgradeReaction s a)); [|apply IH].
  unfold upgradeReaction. destruct (observed a.1) eqn:H; [|apply sameOwn_refl].
  now apply attributeChangedCallback_own.
Qed.

Lemma upgrade_unshadowed k ai own atts c f :
  classProperty k = true -> own !! k = None -> unshadowed k (upgrade ai own atts c f).
Proof.
  intros Hk Ho. unfold upgrade. cbv zeta.
  set (s0 := set_position c f (set_attrs _ (constructor ai own))).
  assert (H0 : unshadowed k s0) by exact Ho.
  clearbody s0.
  assert (H1 : unshadowed k (fold_left upgradeReaction atts s0))
    by (apply (unshadowed_same k s0); [apply reactions_own|exact H0]).
  destruct c; [now apply connectedCallback_unshadowed|exact H1].
Qed.

(** C9 as stated fails.  A [value] property assigned before the upgrade of
    a detached element is an own property of the instance until
    [connectedCallback] replays it (line 135).  Until then [el.value] reads
    the own property, not ["on"], although the element has no [value]
    attribute; and [el.value = null] overwrites the own property without
    reaching the setter, so [el.value] reads [null] afterwards. *)
Lemma shadowed_value_is_not_on :
  let s := upgrade true {["value" := JStr "x"]} [] false None in
  let s' := step (OAssign "value" JNull) s in
  (getAttribute "value" s = None /\ this_value s = JStr "x") /\
  (getAttribute "value" s' = None /\ this_value s' = JNull).
Proof. vm_compute. repeat split. Qed.

(** C9, amended.  On an instance that has no own [value] property, [el.value]
    is what the accessor of line 196 returns: ["on"] when there is no
    [value] attribute.  Assigning [null] (or [undefined]) to the property
    removes the attribute, so the property reads ["on"] afterwards, whatever
    it was.  No own [value] property is left once [connectedCallback] has
    run, and none comes back: this is so in every state reached from a
    connected element, and in every state reached from an element
    constructed without one. *)
Theorem value_defaults_to_on (s : ToggleInput) :
  (ownProps s !! "value" = None ->
   this_value s = JStr (get_value s) /\
   (getAttribute "value" s = None -> this_value s = JStr "on") /\
   (forall v, looselyNull v = true ->
      getAttribute "value" (step (OAssign "value" v) s) = None /\
      this_value (step (OAssign "value" v) s) = JStr "on")) /\
  (getAttribute "value" s = None -> get_value s = "on") /\
  (hasAttribute "value" (set_value JNull s) = false /\ get_value (set_value JNull s) = "on") /\
  (hasAttribute "value" (set_value JUndefined s) = false /\
   get_value (set_value JUndefined s) = "on") /\
  (forall ops, ownProps (run ops (connectedCallback s)) !! "value" = None) /\
  (forall ai own atts c f ops,
     own !! "value" = None -> ownProps (run ops (upgrade ai own atts c f)) !! "value" = None).
Proof.
  assert (H : attrs (removeAttribute "value" s) !! "value" = None).
  { rewrite removeAttribute_attrs by reflexivity. now destruct (decide _). }
  split; [|split; [|split; [|split; [|split]]]].
  - intros Ho. split; [now apply this_value_unshadowed|]. split.
    + intros Ha. rewrite this_value_unshadowed by exact Ho.
      unfold get_value. now rewrite Ha.
    + intros v Hv.
      assert (E : step (OAssign "value" v) s = removeAttribute "value" s).
      { unfold step, assign. rewrite Ho. cbn [String.eqb Ascii.eqb Bool.eqb].
        unfold set_value. now rewrite Hv. }
      rewrite E. split; [exact H|].
      rewrite this_value_unshadowed.
      * unfold get_value, getAttribute. now rewrite H.
      * apply (unshadowed_same "value" s); [apply removeAttribute_own|exact Ho].
  - unfold get_value. now intros ->.
  - unfold get_value, hasAttribute, getAttribute, set_value. cbn [looselyNull].
    now rewrite H.
  - unfold get_value, hasAttribute, getAttribute, set_value. cbn [looselyNull].
    now rewrite H.
  - intros ops. apply (run_unshadowed "value" eq_refl).
    apply connectedCallback_replayed.
  - intros ai own atts c f ops Ho. apply (run_unshadowed "value" eq_refl).
    now apply upgrade_unshadowed.
Qed.

Lemma value_defaults_to_on_witness :
  ownProps (upgrade true ∅ [("value", "x")] true None) !! "value" = None /\
  this_value (step (OAssign "value" JNull) (upgrade true ∅ [("value", "x")] true None)) =
    JStr "on".
Proof.
  assert (H : ownProps (upgrade true ∅ [("value", "x")] true None) !! "value" = None)
    by (vm_compute; reflexivity).
  split; [exact H|].
  pose proof (value_defaults_to_on (upgrade true ∅ [("value", "x")] true None)) as T.
  destruct T as (T & _). destruct (T H) as (_ & _ & T3).
  exact (proj2 (T3 JNull eq_refl)).
Defined.

(** ** Form reset *)

Definition isPlace (o : Op) : bool :=
  match o with
  | OPlace _ _ => true
  | _ => false
  end.

Definition noPlace (ops : list Op) : bool := forallb (fun o => negb (isPlace o)) ops.

Lemma step_host o s : isPlace o = false -> sameHost s (step o s).
Proof.
  destruct o as [name value|name|prop value| | | |message| | | |key|f|c f]; cbn;
    try discriminate; intros _.
  - apply setAttribute_host.
  - apply removeAttribute_host.
  - apply assign_host.
  - apply toggle_host.
  - rewrite checkValidity_state. apply updateValidity_host.
  - apply reportValidity_host.
  - apply setCustomValidity_host.
  - apply focus_host.
  - apply blur_host.
  - destruct (clickListener s); [apply onClick_host|apply sameHost_refl].
  - destruct (keydownListener s); [apply onKeyDown_host|apply sameHost_refl].
  - destruct (bool_decide _); [apply onFormReset_host|apply sameHost_refl].
Qed.

Lemma run_host ops s : noPlace ops = true -> sameHost s (run ops s).
Proof.
  revert s. induction ops as [|o ops IH]; intros s H; [apply sameHost_refl|].
  cbn in H. apply andb_prop in H as (Ho & Hops). apply negb_true_iff in Ho.
  cbn. apply (sameHost_trans _ (step o s)); [now apply step_host|now apply IH].
Qed.

Lemma onFormReset_attributes s :
  hasAttribute "checked" (_onFormReset s) = defaultChecked s /\
  hasAttribute "indeterminate" (_onFormReset s) = defaultIndeterminate s.
Proof.
  unfold _onFormReset. cbv zeta.
  set (s1 := if defaultChecked s then setAttribute "checked" "" s
             else removeAttribute "checked" s).
  assert (H1 : sameHost s s1) by (unfold s1; destruct (defaultChecked s); auto with host).
  assert (E1 : hasAttribute "checked" s1 = defaultChecked s).
  { unfold s1. destruct (defaultChecked s).
    - rewrite hasAttribute_setAttribute by reflexivity. now destruct (decide _).
    - rewrite hasAttribute_removeAttribute by reflexivity. now destruct (decide _). }
  rewrite (sh_defaultIndeterminate _ _ H1).
  unfold hasAttribute in *. push.
  destruct (defaultIndeterminate s).
  - rewrite !setAttribute_attrs by reflexivity.
    destruct (decide ("checked" = "indeterminate")); [discriminate|].
    destruct (decide ("indeterminate" = "indeterminate")); [|contradiction].
    now split.
  - rewrite !removeAttribute_attrs by reflexivity.
    destruct (decide ("checked" = "indeterminate")); [discriminate|].
    destruct (decide ("indeterminate" = "indeterminate")); [|contradiction].
    now split.
Qed.

Lemma onFormReset_current s : validityCurrent (_onFormReset s).
Proof. unfold _onFormReset. cbv zeta. apply render_current, updateValidity_current. Qed.

(** The reset of form [f] reaches a connected element that listens on
    [f]: the attributes go back to the captured defaults, whatever happened
    since, and form value and validity are computed afresh. *)
Lemma reset_after_connect f ops s1 :
  Inv s1 -> isConnected s1 = true -> f ∈ resetListeners s1 -> noPlace ops = true ->
  let s3 := step (OFormReset f) (run ops s1) in
  hasAttribute "checked" s3 = defaultChecked s1 /\
  hasAttribute "indeterminate" s3 = defaultIndeterminate s1 /\
  get_checked s3 = defaultChecked s1 /\
  (this_name s3 = ofAttribute (get_name s3) /\ this_value s3 = JStr (get_value s3)) /\
  valueSynced s3 /\ validityCurrent s3.
Proof.
  intros HI Hcon Hf Hn s3.
  pose proof (run_host ops s1 Hn) as [Ed Ei Ec _ _ _ Er].
  pose proof (step_host (OFormReset f) (run ops s1) eq_refl) as [_ _ Ec' _ _ _ _].
  pose proof (step_Inv (OFormReset f) _ (run_Inv ops s1 HI)) as (Hc & (_ & Hs) & _).
  fold s3 in Hc, Hs, Ec'.
  assert (E3 : s3 = _onFormReset (run ops s1)).
  { unfold s3, step. rewrite Er. now rewrite bool_decide_eq_true_2. }
  assert (Hcon3 : isConnected s3 = true) by congruence.
  destruct (Hs Hcon3) as ((_ & _ & Hrn & Hrv & _) & Hv & _).
  clearbody s3. subst s3.
  destruct (onFormReset_attributes (run ops s1)) as (Ha & Hb).
  rewrite Ed in Ha. rewrite Ei in Hb.
  split; [exact Ha|]. split; [exact Hb|]. split; [now rewrite Hc|].
  split; [split; [now apply this_name_unshadowed|now apply this_value_unshadowed]|].
  split; [exact Hv|apply onFormReset_current].
Qed.

Lemma place_connected f s :
  let s1 := place true (Some f) s in
  defaultChecked s1 = hasAttribute "checked" s /\
  defaultIndeterminate s1 = hasAttribute "indeterminate" s /\
  f ∈ resetListeners s1 /\ isConnected s1 = true.
Proof.
  intros s1. unfold s1, place. cbv zeta.
  set (s0 := set_position true (Some f) s).
  set (s2 := if isConnected s then disconnectedCallback s0 else s0).
  assert (Ha : attrs s2 = attrs s).
  { unfold s2. destruct (isConnected s); [|reflexivity].
    unfold disconnectedCallback. cbv zeta. cbn. reflexivity. }
  assert (Hp : isConnected s2 = true /\ form s2 = Some f).
  { unfold s2. destruct (isConnected s); [|now split].
    destruct (disconnectedCallback_fields s0) as (_ & _ & (E1 & E2) & _). now split. }
  destruct Hp as (Hc & Hf).
  destruct (connectedCallback_fields s2) as (E1 & E2 & _ & _ & E3).
  destruct (connectedCallback_place s2) as (E4 & _).
  rewrite E1, E2, E3, E4, Hf. unfold hasAttribute. rewrite Ha.
  split; [reflexivity|]. split; [reflexivity|]. split; [|exact Hc].
  apply elem_of_union. left. now apply elem_of_singleton.
Qed.

Lemma upgrade_connected ai own atts f :
  let s1 := upgrade ai own atts true (Some f) in
  let s0 := upgrade ai own atts false (Some f) in
  defaultChecked s1 = hasAttribute "checked" s0 /\
  defaultIndeterminate s1 = hasAttribute "indeterminate" s0 /\
  f ∈ resetListeners s1 /\ isConnected s1 = true.
Proof.
  intros s1 s0. unfold s1, s0, upgrade. cbv zeta.
  set (a := set_position true (Some f) _). set (b := set_position false (Some f) _).
  destruct (connectedCallback_fields (fold_left upgradeReaction atts a)) as (E1 & E2 & _ & _ & E3).
  destruct (connectedCallback_place (fold_left upgradeReaction atts a)) as (E4 & _).
  rewrite E1, E2, E3, E4. unfold hasAttribute.
  rewrite !reactions_attrs by reflexivity.
  destruct (reactions_host atts a) as [_ _ Ec Ef _ _ _]. rewrite Ef, Ec.
  split; [reflexivity|]. split; [reflexivity|]. split; [|reflexivity].
  apply elem_of_union. left. now apply elem_of_singleton.
Qed.

(** C8.  An element is connected inside form [f], either by insertion
    ([place]) or by being upgraded in place; any operations other than a
    move follow, the assignments among them being to properties of the
    class; the form is reset.  Then the [checked] and [indeterminate]
    attributes are present exactly if they were present when
    [connectedCallback] ran, the [checked] property agrees, [this.name] and
    [this.value] are the accessors' values, the form value follows the
    restored checked state ([valueSynced]) and the validity is the one
    [_updateValidity] computes from it and from [this.required]
    ([validityCurrent]). *)
Theorem form_reset_restores_defaults
    (ai : bool) (own : gmap string JSVal) (atts : list (string * string))
    (c0 : bool) (f0 : option nat) (ops1 : list Op) (f : nat) (ops2 : list Op) :
  forallb pageOp ops1 = true -> forallb pageOp ops2 = true -> noPlace ops2 = true ->
  let s0 := run ops1 (upgrade ai own atts c0 f0) in
  let s3 := step (OFormReset f) (run ops2 (place true (Some f) s0)) in
  let u0 := upgrade ai own atts false (Some f) in
  let u3 := step (OFormReset f) (run ops2 (upgrade ai own atts true (Some f))) in
  (hasAttribute "checked" s3 = hasAttribute "checked" s0 /\
   hasAttribute "indeterminate" s3 = hasAttribute "indeterminate" s0 /\
   get_checked s3 = hasAttribute "checked" s0 /\
   (this_name s3 = ofAttribute (get_name s3) /\ this_value s3 = JStr (get_value s3)) /\
   valueSynced s3 /\ validityCurrent s3) /\
  (hasAttribute "checked" u3 = hasAttribute "checked" u0 /\
   hasAttribute "indeterminate" u3 = hasAttribute "indeterminate" u0 /\
   get_checked u3 = hasAttribute "checked" u0 /\
   (this_name u3 = ofAttribute (get_name u3) /\ this_value u3 = JStr (get_value u3)) /\
   valueSynced u3 /\ validityCurrent u3).
Proof.
  intros _ _ Hn s0 s3 u0 u3. split.
  - pose proof (run_Inv ops1 _ (upgrade_Inv ai own atts c0 f0)) as HI. fold s0 in HI.
    clearbody s0.
    destruct (place_connected f s0) as (Ec & Ei & Hf & Hcon).
    pose proof (reset_after_connect f ops2 _ (place_Inv true (Some f) s0 HI) Hcon Hf Hn) as H.
    cbv zeta in H. fold s3 in H. clearbody s3. rewrite Ec, Ei in H. exact H.
  - destruct (upgrade_connected ai own atts f) as (Ec & Ei & Hf & Hcon). fold u0 in Ec, Ei.
    pose proof (reset_after_connect f ops2 _ (upgrade_Inv ai own atts true (Some f)) Hcon Hf Hn)
      as H.
    cbv zeta in H. fold u3 in H. clearbody u3 u0. rewrite Ec, Ei in H. exact H.
Qed.

Lemma form_reset_restores_defaults_witness :
  forallb pageOp [] = true /\
  forallb pageOp [OUserClick; OAssign "indeterminate" (JBool true)] = true /\
  noPlace [OUserClick; OAssign "indeterminate" (JBool true)] = true /\
  hasAttribute "checked"
    (step (OFormReset 0)
       (run [OUserClick; OAssign "indeterminate" (JBool true)]
          (place true (Some 0) (run [] (upgrade true ∅ [("checked", "")] false None))))) =
  hasAttribute "checked" (run [] (upgrade true ∅ [("checked", "")] false None)).
Proof.
  assert (Hp : forallb pageOp [OUserClick; OAssign "indeterminate" (JBool true)] = true)
    by (vm_compute; reflexivity).
  assert (Hn : noPlace [OUserClick; OAssign "indeterminate" (JBool true)] = true)
    by reflexivity.
  split; [reflexivity|]. split; [exact Hp|]. split; [exact Hn|].
  pose proof (form_reset_restores_defaults true ∅ [("checked", "")] false None [] 0
                [OUserClick; OAssign "indeterminate" (JBool true)] eq_refl Hp Hn) as T.
  cbv zeta in T. destruct T as ((T & _) & _). exact T.
Defined.

(** ** The hidden input *)

(** C4 as stated fails.  An element without [ElementInternals] sits in a
    form that is not in a document and has a name: all three conditions of
    the claim hold, and [_ensureHiddenInput] creates nothing, nor does any
    later attribute change or [toggle()] (line 294). *)
Lemma hidden_input_needs_connection :
  let s := upgrade false ∅ [("name", "n")] false (Some 0) in
  internals s = None /\ form s = Some 0 /\ this_name s = JStr "n" /\
  hiddenInput s = None /\
  hiddenInput (_ensureHiddenInput s) = None /\
  hiddenInput (run [OSetAttribute "value" "x"; OToggle] s) = None.
Proof. vm_compute. repeat split. Qed.

(** The removal of lines 296-300 runs from [connectedCallback] only.  An
    element taken out of its form and out of the document ([el.remove()])
    gets [disconnectedCallback], which does not call [_ensureHiddenInput]:
    the hidden input stays in the form and goes on submitting [n=on]. *)
Lemma hidden_input_survives_removal :
  let r := run [OPlace false None]
             (upgrade false ∅ [("name", "n"); ("checked", "")] true (Some 0)) in
  isConnected r = false /\ form r = None /\
  hiddenInput r = Some (mkHidden (Some "n") (Some "on") (Some 0)).
Proof. vm_compute. repeat split. Qed.

Lemma ensureHiddenInput_created s :
  hiddenInput s = None ->
  (hiddenInput (_ensureHiddenInput s) <> None <->
   isConnected s = true /\ internals s = None /\ form s <> None /\
   truthy (this_name s) = true).
Proof.
  intros Hh. unfold _ensureHiddenInput. rewrite Hh.
  assert (No : forall P : Prop, (P -> False) -> (None <> @None HiddenInput <-> P)).
  { intros P HP. split; [intros H; now contradict H|intros H; now apply HP in H]. }
  destruct (isConnected s), (form s) as [g|], (internals s), (truthy (this_name s));
    cbn; rewrite ?Hh;
    first [ apply No; intros (H1 & H2 & H3 & H4); congruence
          | split; [intros _; repeat split; discriminate|discriminate] ].
Qed.

(** [connectedCallback] on an element outside any form leaves no hidden
    input (lines 144 and 296-300). *)
Lemma connectedCallback_removes s :
  isConnected s = true -> form s = None -> hiddenInput (connectedCallback s) = None.
Proof.
  intros Hc Hf. unfold connectedCallback.
  set (x := cc_listen (cc_upgrade (cc_capture (cc_prepare s)))).
  assert (Hx : samePlace s x)
    by (unfold x, cc_listen, cc_upgrade, cc_capture, cc_prepare; place_chain).
  clearbody x. destruct Hx as (Hxc & Hxf). rewrite Hc in Hxc. rewrite Hf in Hxf.
  unfold cc_form. cbv zeta.
  set (y := _updateValidity (_updateFormValue x)).
  assert (Hy : samePlace x y) by (unfold y; place_chain).
  clearbody y. destruct Hy as (Hyc & Hyf). rewrite Hxc in Hyc. rewrite Hxf in Hyf.
  assert (Hz : hiddenInput (_ensureHiddenInput y) = None /\ form (_ensureHiddenInput y) = None).
  { unfold _ensureHiddenInput. rewrite Hyc, Hyf. cbn.
    destruct (hiddenInput y) eqn:E; [now split|]. destruct (internals y); now split. }
  revert Hz. generalize (_ensureHiddenInput y). intros z (Hz1 & Hz2).
  unfold cc_finish. cbv zeta. rewrite Hz2. destruct (hasAttribute _ _); exact Hz1.
Qed.

Lemma place_outside_removes s : hiddenInput (place true None s) = None.
Proof.
  unfold place. cbv zeta.
  destruct (disconnectedCallback_fields (set_position true None s)) as (_ & _ & (E1 & E2) & _).
  apply connectedCallback_removes; (destruct (isConnected s); [|reflexivity]).
  - now rewrite E1.
  - now rewrite E2.
Qed.

(** C4, amended.  The constructor takes [ElementInternals] when
    [attachInternals] exists and no hidden input; [_updateFormValue] writes
    to the internals when there are some and to the hidden input
    otherwise; no reachable state has both.  [_ensureHiddenInput] creates
    the hidden input, in the element's form, exactly when the element is
    connected, has no [ElementInternals], is inside a form and [this.name]
    is truthy (and there is no hidden input yet); [this.name] is the [name]
    attribute unless an own [name] property shadows the accessor, which no
    connected reachable state has.  Run on a connected element outside any
    form, [_ensureHiddenInput] removes the hidden input, and so does
    [connectedCallback], hence every insertion of the element into a
    document outside any form; run on a disconnected element
    [_ensureHiddenInput] does nothing. *)
Theorem hidden_input_fallback (s : ToggleInput) :
  (forall ai own,
     internals (constructor ai own) =
       (if ai then Some (mkInternals None false false "") else None) /\
     hiddenInput (constructor ai own) = None) /\
  (forall i, internals s = Some i ->
     _updateFormValue s =
     set_internals
       (Some (setFormValue
                (if get_checked s then submissionValue (this_value s) else None) i)) s) /\
  (internals s = None -> _updateFormValue s = _updateHiddenInput s) /\
  (forall ai own atts c f ops,
     let r := run ops (upgrade ai own atts c f) in
     (internals r <> None -> hiddenInput r = None) /\
     (isConnected r = true -> this_name r = ofAttribute (get_name r))) /\
  (hiddenInput s = None ->
   (hiddenInput (_ensureHiddenInput s) <> None <->
    isConnected s = true /\ internals s = None /\ form s <> None /\
    truthy (this_name s) = true) /\
   (forall h, hiddenInput (_ensureHiddenInput s) = Some h -> h_parent h = form s)) /\
  (ownProps s !! "name" = None -> truthy (this_name s) = truthyStr (get_name s)) /\
  (isConnected s = true -> form s = None ->
   hiddenInput (_ensureHiddenInput s) = None /\ hiddenInput (connectedCallback s) = None) /\
  hiddenInput (place true None s) = None /\
  (isConnected s = false -> _ensureHiddenInput s = s).
Proof.
  split; [intros ai own; now destruct ai|].
  split; [intros i Hi; unfold _updateFormValue, get_checked; rewrite Hi;
          now destruct (n_checked _)|].
  split; [intros Hi; unfold _updateFormValue; now rewrite Hi|].
  split.
  { intros ai own atts c f ops r.
    pose proof (run_Inv ops _ (upgrade_Inv ai own atts c f)) as (_ & (Hf & Hs) & _).
    fold r in Hf, Hs. clearbody r. split.
    - destruct Hf as [Hf|Hf]; [congruence|now intros _].
    - intros Hc. destruct (Hs Hc) as ((_ & _ & Hn & _) & _).
      now apply this_name_unshadowed. }
  split.
  { intros Hh. split; [now apply ensureHiddenInput_created|].
    intros h. unfold _ensureHiddenInput. rewrite Hh.
    destruct (isConnected s), (form s) as [g|], (internals s),
      (truthy (this_name s)); cbn; rewrite ?Hh; try discriminate.
    intros E. injection E as <-. unfold writeHiddenInput. now destruct (n_checked _). }
  split.
  { intros Ho. rewrite this_name_unshadowed by exact Ho. apply truthy_ofAttribute. }
  split.
  { intros Hc Hf. split; [|now apply connectedCallback_removes].
    unfold _ensureHiddenInput. rewrite Hc, Hf. cbn.
    destruct (hiddenInput s) eqn:E; [reflexivity|]. destruct (internals s); exact E. }
  split; [apply place_outside_removes|].
  intros Hc. unfold _ensureHiddenInput. now rewrite Hc.
Qed.

Lemma hidden_input_fallback_witness :
  hiddenInput (run [OSetAttribute "name" "n"] (upgrade false ∅ [] true (Some 0))) <> None /\
  isConnected (set_hiddenInput None
                 (run [OSetAttribute "name" "n"] (upgrade false ∅ [] true (Some 0)))) = true /\
  hiddenInput
    (_ensureHiddenInput
       (set_hiddenInput None
          (run [OSetAttribute "name" "n"] (upgrade false ∅ [] true (Some 0))))) <> None.
Proof.
  split; [vm_compute; discriminate|]. split; [vm_compute; reflexivity|].
  pose proof (hidden_input_fallback
                (set_hiddenInput None
                   (run [OSetAttribute "name" "n"] (upgrade false ∅ [] true (Some 0))))) as T.
  destruct T as (_ & _ & _ & _ & T & _).
  assert (Hh : hiddenInput
                 (set_hiddenInput None
                    (run [OSetAttribute "name" "n"] (upgrade false ∅ [] true (Some 0)))) = None)
    by reflexivity.
  destruct (T Hh) as (T1 & _). apply T1.
  vm_compute. repeat split; discriminate.
Defined.

(** * Further properties of the component *)

(** ** The other attributes mirrored into the native checkbox *)

Lemma reflectAttribute_attrs name k s :
  observed name = true -> internalAttr k = false ->
  attrs (reflectAttribute name s) !! k = attrs s !! k.
Proof.
  intros H Hk.
  rewrite <- (attributeChangedCallback_changed name None (Some "")) by discriminate.
  now apply attributeChangedCallback_attrs.
Qed.

Lemma reflectAttribute_disabled name s :
  observed name = true ->
  n_disabled (native (reflectAttribute name s)) =
  if String.eqb name "disabled" then hasAttribute "disabled" s else n_disabled (native s).
Proof.
  intros H. names H; unfold reflectAttribute; eval_names; cbv zeta;
    repeat case_match; push; reflexivity.
Qed.

Lemma reflectAttribute_name name s :
  observed name = true ->
  n_name (native (reflectAttribute name s)) =
  if String.eqb name "name" then orElse (getAttribute "name" s) "" else n_name (native s).
Proof.
  intros H. names H; unfold reflectAttribute; eval_names; cbv zeta;
    repeat case_match; push; reflexivity.
Qed.

Lemma reflectAttribute_value name s :
  observed name = true ->
  n_value (native (reflectAttribute name s)) =
  if String.eqb name "value" then nullish (getAttribute "value" s) "on"
  else n_value (native s).
Proof.
  intros H. names H; unfold reflectAttribute; eval_names; cbv zeta;
    repeat case_match; push; reflexivity.
Qed.

(** An observed attribute [key] that lines 164-168 copy into a field
    [read] of the native checkbox, as [want] of the attribute's value. *)
Section Mirror.
Context {A : Type} (key : string) (read : Native -> A) (want : option string -> A).
Hypothesis key_stable : internalAttr key = false.
Hypothesis key_observed : observed key = true.
Hypothesis read_reflect : forall name s,
  observed name = true ->
  read (native (reflectAttribute name s)) =
  if String.eqb name key then want (attrs s !! key) else read (native s).
Hypothesis read_checked : forall b n, read (nat_checked b n) = read n.
Hypothesis read_indeterminate : forall b n, read (nat_indeterminate b n) = read n.
Hypothesis read_initial : read (mkNative false false false "" "on") = want None.

Definition mirrored (s : ToggleInput) : Prop := read (native s) = want (attrs s !! key).

Lemma mirrored_same s s' :
  native s' = native s -> attrs s' !! key = attrs s !! key -> mirrored s -> mirrored s'.
Proof. unfold mirrored. now intros -> ->. Qed.

Lemma reflectAttribute_mirrored name s :
  observed name = true -> (name <> key -> mirrored s) -> mirrored (reflectAttribute name s).
Proof.
  intros H Hs. unfold mirrored.
  rewrite read_reflect, reflectAttribute_attrs by assumption.
  destruct (String.eqb_spec name key) as [E|E]; [reflexivity|now apply Hs].
Qed.

Lemma setAttribute_mirrored name value s : mirrored s -> mirrored (setAttribute name value s).
Proof.
  intros Hs. unfold setAttribute, getAttribute. cbv zeta.
  destruct (observed name) eqn:H.
  - destruct (decide (attrs s !! name = Some value)) as [E|E].
    + rewrite E, attributeChangedCallback_same. now rewrite setAttribute0_same.
    + rewrite attributeChangedCallback_changed by exact E.
      apply reflectAttribute_mirrored; [assumption|]. intros Hn.
      apply (mirrored_same s); [reflexivity| |exact Hs].
      cbn. now apply lookup_insert_ne.
  - apply (mirrored_same s); [reflexivity| |exact Hs].
    cbn. apply lookup_insert_ne. intros ->. congruence.
Qed.

Lemma removeAttribute_mirrored name s : mirrored s -> mirrored (removeAttribute name s).
Proof.
  intros Hs. unfold removeAttribute, getAttribute.
  destruct (attrs s !! name) eqn:E; [|assumption]. cbv zeta.
  destruct (observed name) eqn:H.
  - rewrite attributeChangedCallback_changed by discriminate.
    apply reflectAttribute_mirrored; [assumption|]. intros Hn.
    apply (mirrored_same s); [reflexivity| |exact Hs].
    cbn. now apply lookup_delete_ne.
  - apply (mirrored_same s); [reflexivity| |exact Hs].
    cbn. apply lookup_delete_ne. intros ->. congruence.
Qed.

Lemma mirrorChecked_mirrored s : mirrored s -> mirrored (mirrorChecked s).
Proof.
  intros H. unfold mirrorChecked.
  destruct (n_checked _); [now apply setAttribute_mirrored|now apply removeAttribute_mirrored].
Qed.

Lemma assign_mirrored prop v s : mirrored s -> mirrored (assign prop v s).
Proof.
  intros H. apply assign_cases; try exact H;
    unfold set_checked, set_disabled, set_name, set_value, set_required, set_indeterminate;
    repeat case_match;
    first [now apply setAttribute_mirrored | now apply removeAttribute_mirrored].
Qed.

Lemma upgradeProperty_mirrored prop s : mirrored s -> mirrored (_upgradeProperty prop s).
Proof.
  intros H. unfold _upgradeProperty. destruct (ownProps s !! prop); [|assumption].
  apply assign_mirrored. exact H.
Qed.

Lemma low_mirrored s s' :
  native s' = native s -> (forall k, internalAttr k = false -> attrs s' !! k = attrs s !! k) ->
  mirrored s -> mirrored s'.
Proof. intros Hn Ha. apply mirrored_same; [exact Hn|now apply Ha]. Qed.

Ltac keep_mirrored :=
  first
    [ simple apply setAttribute_mirrored | simple apply removeAttribute_mirrored
    | simple apply mirrorChecked_mirrored | simple apply assign_mirrored
    | simple apply upgradeProperty_mirrored
    | lazymatch goal with
      | |- mirrored (?f ?s) =>
          is_low (f s); apply (low_mirrored s);
          [ push; reflexivity
          | let k := fresh in let Hk := fresh in intros k Hk; push; reflexivity
          | ]
      end ].

Ltac mirror_chain :=
  cbv zeta; repeat (first [assumption | chain_step mirrored keep_mirrored]).

Lemma set_native_checked_mirrored b s :
  mirrored s -> mirrored (set_native (nat_checked b) s).
Proof. unfold mirrored. cbn. now rewrite read_checked. Qed.

Lemma set_native_indeterminate_mirrored b s :
  mirrored s -> mirrored (set_native (nat_indeterminate b) s).
Proof. unfold mirrored. cbn. now rewrite read_indeterminate. Qed.

Lemma toggle_mirrored s : mirrored s -> mirrored (toggle s).
Proof.
  intros H. unfold toggle. cbv zeta.
  set (s1 := set_native _ s).
  assert (H1 : mirrored s1) by (unfold mirrored, s1; cbn; now rewrite read_checked).
  clearbody s1.
  set (s2 := if n_indeterminate (native s1) then _ else s1).
  assert (H2 : mirrored s2).
  { unfold s2. destruct (n_indeterminate _); [|exact H1].
    now apply set_native_indeterminate_mirrored. }
  clearbody s2. mirror_chain.
Qed.

Lemma onFormReset_mirrored s : mirrored s -> mirrored (_onFormReset s).
Proof. intros H. unfold _onFormReset. mirror_chain. Qed.

Lemma onNativeInput_mirrored s : mirrored s -> mirrored (_onNativeInput s).
Proof. intros H. unfold _onNativeInput. mirror_chain. Qed.

Lemma onNativeChange_mirrored s : mirrored s -> mirrored (_onNativeChange s).
Proof. intros H. unfold _onNativeChange. mirror_chain. Qed.

Lemma nativeClick_mirrored s : mirrored s -> mirrored (nativeClick s).
Proof.
  intros H. unfold nativeClick. destruct (n_disabled _); [exact H|]. cbv zeta.
  set (s1 := set_native _ s).
  assert (H1 : mirrored s1).
  { unfold mirrored, s1. cbn. now rewrite read_indeterminate, read_checked. }
  clearbody s1. destruct (isConnected s1); [|exact H1].
  now apply onNativeChange_mirrored, onNativeInput_mirrored.
Qed.

Lemma connectedCallback_mirrored s : mirrored s -> mirrored (connectedCallback s).
Proof. intros H. unfold_cc. mirror_chain. Qed.

Lemma place_mirrored c f s : mirrored s -> mirrored (place c f s).
Proof.
  intros H. unfold place. cbv zeta. set (s1 := set_position c f s).
  assert (H1 : mirrored s1) by exact H. clearbody s1.
  set (s2 := if isConnected s then disconnectedCallback s1 else s1).
  assert (H2 : mirrored s2).
  { unfold s2. destruct (isConnected s); [|exact H1].
    unfold disconnectedCallback. cbv zeta. now destruct (form _). }
  clearbody s2. destruct c; [now apply connectedCallback_mirrored|exact H2].
Qed.

Lemma step_mirrored o s : mirrored s -> mirrored (step o s).
Proof.
  intros H.
  destruct o as [name value|name|prop value| | | |message| | | |key0|f|c f]; unfold step.
  - now apply setAttribute_mirrored.
  - now apply removeAttribute_mirrored.
  - now apply assign_mirrored.
  - now apply toggle_mirrored.
  - rewrite checkValidity_state. mirror_chain.
  - unfold reportValidity. cbv zeta. destruct (internals (_updateValidity s)).
    + destruct (barred _ || valid _); cbn [fst]; mirror_chain.
    + destruct (checkValidity (_updateValidity s)) as [s' ok] eqn:E.
      assert (Hs : s' = _updateValidity (_updateValidity s))
        by (now rewrite <- checkValidity_state, E).
      subst s'. destruct ok; cbn [fst]; mirror_chain.
  - unfold setCustomValidity. cbv zeta. set (s1 := set_customValidity _ s).
    assert (H1 : mirrored s1) by exact H. clearbody s1.
    destruct (internals s1); [destruct (nonEmpty _)|]; mirror_chain.
  - exact H.
  - exact H.
  - destruct (clickListener s); [|exact H]. unfold _onClick.
    destruct (get_disabled s); [exact H|]. now apply nativeClick_mirrored.
  - destruct (keydownListener s); [|exact H]. unfold _onKeyDown.
    destruct (get_disabled s); [exact H|]. destruct (togglingKey key0); [|exact H].
    now apply (nativeClick_mirrored (perform PreventDefault s)).
  - destruct (bool_decide _); [|exact H]. now apply onFormReset_mirrored.
  - now apply place_mirrored.
Qed.

Lemma run_mirrored ops s : mirrored s -> mirrored (run ops s).
Proof.
  revert s. induction ops as [|o ops IH]; intros s H; [exact H|].
  cbn. apply IH. now apply step_mirrored.
Qed.

Lemma upgradeReaction_mirrored s a :
  (a.1 <> key -> mirrored s) -> mirrored (upgradeReaction s a).
Proof.
  intros H. destruct (observed a.1) eqn:Ho.
  - rewrite upgradeReaction_changed by assumption. now apply reflectAttribute_mirrored.
  - rewrite upgradeReaction_unobserved by assumption. apply H. intros E.
    rewrite E in Ho. congruence.
Qed.

Lemma reactions_mirrored atts s :
  key ∈ atts.*1 \/ mirrored s -> mirrored (fold_left upgradeReaction atts s).
Proof.
  revert s. induction atts as [|a l IH]; intros s H.
  - destruct H as [H|H]; [now apply elem_of_nil in H|exact H].
  - cbn [fold_left]. apply IH. destruct H as [H|H].
    + cbn in H. apply elem_of_cons in H as [H|H]; [|now left].
      right. apply upgradeReaction_mirrored. intros E. congruence.
    + right. apply upgradeReaction_mirrored. now intros _.
Qed.

Lemma upgrade_mirrored ai own atts c f : mirrored (upgrade ai own atts c f).
Proof.
  unfold upgrade. cbv zeta.
  set (s0 := set_position c f (set_attrs _ (constructor ai own))).
  assert (H1 : mirrored (fold_left upgradeReaction atts s0)).
  { apply reactions_mirrored. destruct (decide (key ∈ atts.*1)) as [Hin|Hout]; [now left|].
    right. unfold mirrored, s0. cbn.
    apply not_elem_of_list_to_map_1 in Hout. rewrite Hout. exact read_initial. }
  destruct c; [now apply connectedCallback_mirrored|exact H1].
Qed.

Lemma reachable_mirrored ai own atts c f ops :
  mirrored (run ops (upgrade ai own atts c f)).
Proof. apply run_mirrored, upgrade_mirrored. Qed.

End Mirror.

(** X1.  In every reachable state the [disabled] property, read from the
    native checkbox, equals the presence of the [disabled] attribute on the
    host (lines 165, 187-188). *)
Theorem disabled_property_mirrors_attribute
    (ai : bool) (own : gmap string JSVal) (atts : list (string * string))
    (c : bool) (f : option nat) (ops : list Op) :
  let s := run ops (upgrade ai own atts c f) in
  get_disabled s = hasAttribute "disabled" s.
Proof.
  intros s.
  apply (reachable_mirrored "disabled" n_disabled
           (fun o => match o with Some _ => true | None => false end));
    try reflexivity.
  intros name t H. now apply reflectAttribute_disabled.
Qed.

(** X2.  In every reachable state the native checkbox carries the name of
    the host (the empty string without one) and its [value] property
    (lines 166-167). *)
Theorem native_name_and_value_mirror_attributes
    (ai : bool) (own : gmap string JSVal) (atts : list (string * string))
    (c : bool) (f : option nat) (ops : list Op) :
  let s := run ops (upgrade ai own atts c f) in
  n_name (native s) = orElse (get_name s) "" /\ n_value (native s) = get_value s.
Proof.
  intros s. split.
  - apply (reachable_mirrored "name" n_name (fun o => orElse o "")); try reflexivity.
    intros name t H. now apply reflectAttribute_name.
  - apply (reachable_mirrored "value" n_value (fun o => nullish o "on")); try reflexivity.
    intros name t H. now apply reflectAttribute_value.
Qed.

(** ** [toggle()] and the user's toggle *)

Lemma checkedMirrored_reads x :
  checkedMirrored x -> hasAttribute "checked" x = n_checked (native x).
Proof. unfold checkedMirrored, get_checked. now intros ->. Qed.


Lemma toggle_n_checked s : n_checked (native (toggle s)) = negb (n_checked (native s)).
Proof.
  unfold toggle. cbv zeta. push. rewrite mirrorChecked_n_checked.
  set (s1 := set_native _ s). now destruct (n_indeterminate (native s1)).
Qed.

Lemma toggle_n_indeterminate s : n_indeterminate (native (toggle s)) = false.
Proof.
  unfold toggle. cbv zeta. push. rewrite mirrorChecked_n_indeterminate.
  set (s1 := set_native _ s). now destruct (n_indeterminate (native s1)) eqn:E.
Qed.

(** X3.  [toggle()] flips the checked state from any state, disabled or
    not: the [checked] property becomes the negation of what it was, the
    [checked] attribute is present exactly if the property is now true,
    the [indeterminate] property is false, and toggling twice gives the
    checked state back (lines 259-267). *)
Theorem toggle_flips_checked (s : ToggleInput) :
  get_checked (toggle s) = negb (get_checked s) /\
  hasAttribute "checked" (toggle s) = negb (get_checked s) /\
  get_indeterminate (toggle s) = false /\
  get_checked (toggle (toggle s)) = get_checked s.
Proof.
  unfold get_checked, get_indeterminate.
  split; [apply toggle_n_checked|]. split.
  - rewrite <- toggle_n_checked. apply checkedMirrored_reads, toggle_checkedMirrored.
  - split; [apply toggle_n_indeterminate|].
    rewrite !toggle_n_checked. apply negb_involutive.
Qed.

Lemma onNativeInput_n_checked s :
  n_checked (native (_onNativeInput s)) = n_checked (native s).
Proof.
  unfold _onNativeInput. cbv zeta. cbn [native dispatchEvent]. push.
  rewrite mirrorChecked_n_checked. destruct (n_indeterminate _); [|reflexivity].
  rewrite removeAttribute_n_checked. now destruct (decide _).
Qed.

Lemma onNativeChange_n_checked s :
  n_checked (native (_onNativeChange s)) = n_checked (native s).
Proof.
  unfold _onNativeChange. cbv zeta. cbn [native dispatchEvent]. push.
  rewrite mirrorChecked_n_checked. destruct (n_indeterminate _); [|reflexivity].
  rewrite removeAttribute_n_checked. now destruct (decide _).
Qed.

Lemma nativeClick_n_checked s :
  n_disabled (native s) = false ->
  n_checked (native (nativeClick s)) = negb (n_checked (native s)).
Proof.
  intros Hd. unfold nativeClick. rewrite Hd. cbv zeta.
  set (s1 := set_native _ s).
  assert (E : n_checked (native s1) = negb (n_checked (native s))) by reflexivity.
  clearbody s1. destruct (isConnected s1); [|exact E].
  now rewrite onNativeChange_n_checked, onNativeInput_n_checked.
Qed.

Lemma nativeClick_mirrors s :
  isConnected s = true -> n_disabled (native s) = false ->
  hasAttribute "checked" (nativeClick s) = n_checked (native (nativeClick s)).
Proof.
  intros Hc Hd. apply checkedMirrored_reads. unfold nativeClick. rewrite Hd. cbv zeta.
  set (s1 := set_native _ s). assert (H1 : isConnected s1 = true) by exact Hc.
  clearbody s1. rewrite H1. apply onNativeChange_checkedMirrored.
Qed.

Lemma onClick_reads s :
  n_disabled (native s) = false ->
  native (_onClick s) = native (nativeClick s) /\ attrs (_onClick s) = attrs (nativeClick s).
Proof.
  intros Hd. unfold _onClick, get_disabled. rewrite Hd.
  generalize (nativeClick s). intros x. split; reflexivity.
Qed.

(** X4.  A click, or a press of the key [" "], ["Spacebar"] or ["Enter"],
    on a connected enabled element flips the checked state: the property
    becomes the negation of what it was and the [checked] attribute
    follows; any other key leaves the element as it is (lines 210-248). *)
Theorem user_toggle_flips_checked (s : ToggleInput) :
  isConnected s = true -> get_disabled s = false ->
  (get_checked (_onClick s) = negb (get_checked s) /\
   hasAttribute "checked" (_onClick s) = negb (get_checked s)) /\
  (forall key, key = " " \/ key = "Spacebar" \/ key = "Enter" ->
     get_checked (_onKeyDown key s) = negb (get_checked s) /\
     hasAttribute "checked" (_onKeyDown key s) = negb (get_checked s)) /\
  (forall key, key <> " " -> key <> "Spacebar" -> key <> "Enter" -> _onKeyDown key s = s).
Proof.
  intros Hc Hd. unfold get_checked, get_disabled in *.
  split; [|split].
  - destruct (onClick_reads s Hd) as (En & Ea). unfold hasAttribute. rewrite En, Ea.
    fold (hasAttribute "checked" (nativeClick s)).
    rewrite nativeClick_mirrors by assumption. now rewrite nativeClick_n_checked.
  - intros key Hk. apply togglingKey_keys in Hk.
    unfold _onKeyDown, get_disabled. rewrite Hd, Hk.
    rewrite (nativeClick_mirrors (perform PreventDefault s)) by assumption.
    now rewrite (nativeClick_n_checked (perform PreventDefault s)).
  - intros key H1 H2 H3.
    assert (Hk : togglingKey key = false).
    { destruct (togglingKey key) eqn:E; [|reflexivity].
      apply togglingKey_keys in E. tauto. }
    unfold _onKeyDown, get_disabled. now rewrite Hd, Hk.
Qed.

Lemma user_toggle_flips_checked_witness :
  isConnected (upgrade true ∅ [("checked", "")] true None) = true /\
  get_disabled (upgrade true ∅ [("checked", "")] true None) = false /\
  get_checked (_onClick (upgrade true ∅ [("checked", "")] true None)) =
    negb (get_checked (upgrade true ∅ [("checked", "")] true None)) /\
  get_checked (_onKeyDown " " (upgrade true ∅ [("checked", "")] true None)) =
    negb (get_checked (upgrade true ∅ [("checked", "")] true None)) /\
  hasAttribute "checked" (_onKeyDown "Enter" (upgrade true ∅ [("checked", "")] true None)) =
    negb (get_checked (upgrade true ∅ [("checked", "")] true None)).
Proof.
  assert (Hc : isConnected (upgrade true ∅ [("checked", "")] true None) = true)
    by (vm_compute; reflexivity).
  assert (Hd : get_disabled (upgrade true ∅ [("checked", "")] true None) = false)
    by (vm_compute; reflexivity).
  split; [exact Hc|]. split; [exact Hd|].
  pose proof (user_toggle_flips_checked (upgrade true ∅ [("checked", "")] true None) Hc Hd)
    as T.
  destruct T as ((T & _) & Tk & _).
  split; [exact T|]. split.
  - exact (proj1 (Tk " " (or_introl eq_refl))).
  - exact (proj2 (Tk "Enter" (or_intror (or_intror eq_refl)))).
Defined.

(** ** Attribute writes that change nothing *)

Lemma internalAttr_unobserved k : internalAttr k = true -> observed k = false.
Proof.
  unfold internalAttr. intros H. apply bool_decide_eq_true in H.
  repeat (apply elem_of_cons in H as [->|H]; [reflexivity|]).
  now apply elem_of_nil in H.
Qed.

Lemma setAttribute_same name value s :
  attrs s !! name = Some value -> setAttribute name value s = s.
Proof.
  intros H. unfold setAttribute, getAttribute. cbv zeta. rewrite H.
  rewrite setAttribute0_same by exact H.
  destruct (observed name); [apply attributeChangedCallback_same|reflexivity].
Qed.

Lemma setAttribute_written name value s :
  attrs (setAttribute name value s) !! name = Some value.
Proof.
  destruct (internalAttr name) eqn:Hk.
  - rewrite setAttribute_unobserved by now apply internalAttr_unobserved.
    cbn. apply lookup_insert_eq.
  - rewrite setAttribute_attrs by assumption. now destruct (decide _).
Qed.

(** X5.  Writing an attribute with the value it already has changes
    nothing at all, whatever the name ([oldVal === newVal], line 162); so
    [setAttribute] is idempotent, and removing an absent attribute or
    removing twice is the same as removing once. *)
Theorem attribute_writes_idempotent (name value : string) (s : ToggleInput) :
  (getAttribute name s = Some value -> setAttribute name value s = s) /\
  setAttribute name value (setAttribute name value s) = setAttribute name value s /\
  (getAttribute name s = None -> removeAttribute name s = s) /\
  removeAttribute name (removeAttribute name s) = removeAttribute name s.
Proof.
  split; [apply setAttribute_same|].
  split; [apply setAttribute_same, setAttribute_written|].
  assert (R : forall t, getAttribute name t = None -> removeAttribute name t = t).
  { intros t H. unfold removeAttribute. now rewrite H. }
  split; [apply R|]. apply R. unfold getAttribute.
  destruct (internalAttr name) eqn:Hk.
  - rewrite removeAttribute_unobserved by now apply internalAttr_unobserved.
    cbn. apply lookup_delete_eq.
  - rewrite removeAttribute_attrs by assumption. now destruct (decide _).
Qed.

Lemma attribute_writes_idempotent_witness :
  getAttribute "checked" (upgrade true ∅ [("checked", "")] true None) = Some "" /\
  setAttribute "checked" "" (upgrade true ∅ [("checked", "")] true None) =
    upgrade true ∅ [("checked", "")] true None.
Proof.
  assert (H : getAttribute "checked" (upgrade true ∅ [("checked", "")] true None) = Some "")
    by (vm_compute; reflexivity).
  split; [exact H|].
  pose proof (attribute_writes_idempotent "checked" ""
                (upgrade true ∅ [("checked", "")] true None)) as T.
  destruct T as (T & _). exact (T H).
Defined.

(** ** Property setters *)

Lemma assign_unshadowed prop v s :
  ownProps s !! prop = None ->
  assign prop v s =
  if String.eqb prop "checked" then set_checked v s
  else if String.eqb prop "disabled" then set_disabled v s
  else if String.eqb prop "name" then set_name v s
  else if String.eqb prop "value" then set_value v s
  else if String.eqb prop "required" then set_required v s
  else if String.eqb prop "indeterminate" then set_indeterminate v s
  else set_ownProps (fun m => <[prop := v]> m) s.
Proof. intros H. unfold assign. now rewrite H. Qed.

Lemma flag_setter_attribute k v s :
  internalAttr k = false ->
  hasAttribute k (if truthy v then setAttribute k "" s else removeAttribute k s) = truthy v.
Proof.
  intros Hk. destruct (truthy v).
  - rewrite hasAttribute_setAttribute by assumption. now destruct (decide _).
  - rewrite hasAttribute_removeAttribute by assumption. now destruct (decide _).
Qed.

Lemma string_setter_attribute k v s :
  internalAttr k = false ->
  getAttribute k (if looselyNull v then removeAttribute k s else setAttribute k (toString v) s) =
  if looselyNull v then None else Some (toString v).
Proof.
  intros Hk. unfold getAttribute. destruct (looselyNull v).
  - rewrite removeAttribute_attrs by assumption. now destruct (decide _).
  - rewrite setAttribute_attrs by assumption. now destruct (decide _).
Qed.

(** X6.  Setter and getter agree.  In every reachable state, assigning to
    [checked] or [disabled] (when no own property shadows the accessor)
    makes the property read the truthiness of the value assigned; from any
    state, [required] reads the truthiness, [name] reads the string
    assigned ([null] after [null] or [undefined]) and [value] reads the
    string assigned (["on"] after [null] or [undefined]); the
    [indeterminate] setter makes the attribute present exactly for a truthy
    value (lines 184-200). *)
Theorem setters_and_getters_agree
    (ai : bool) (own : gmap string JSVal) (atts : list (string * string))
    (c : bool) (f : option nat) (ops : list Op) (v : JSVal) :
  let s := run ops (upgrade ai own atts c f) in
  (ownProps s !! "checked" = None -> get_checked (step (OAssign "checked" v) s) = truthy v) /\
  (ownProps s !! "disabled" = None ->
   get_disabled (step (OAssign "disabled" v) s) = truthy v) /\
  get_required (set_required v s) = truthy v /\
  get_name (set_name v s) = (if looselyNull v then None else Some (toString v)) /\
  get_value (set_value v s) = (if looselyNull v then "on" else toString v) /\
  hasAttribute "indeterminate" (set_indeterminate v s) = truthy v.
Proof.
  intros s.
  pose proof (run_Inv ops _ (upgrade_Inv ai own atts c f)) as (Hck & _).
  pose proof (reachable_mirrored "disabled" n_disabled
                (fun o => match o with Some _ => true | None => false end)
                eq_refl eq_refl
                (fun name t H => reflectAttribute_disabled name t H)
                (fun _ _ => eq_refl) (fun _ _ => eq_refl) eq_refl
                ai own atts c f ops) as Hdis.
  fold s in Hck, Hdis. clearbody s.
  split; [|split; [|split; [|split; [|split]]]].
  - intros Ho. unfold step. rewrite assign_unshadowed by exact Ho. eval_names.
    unfold get_checked. rewrite <- checkedMirrored_reads
      by now apply set_checked_checkedMirrored.
    now apply flag_setter_attribute.
  - intros Ho. unfold step. rewrite assign_unshadowed by exact Ho. eval_names.
    pose proof (assign_mirrored "disabled" n_disabled
                  (fun o => match o with Some _ => true | None => false end)
                  eq_refl eq_refl
                  (fun name t H => reflectAttribute_disabled name t H)
                  "disabled" v s Hdis) as H.
    rewrite assign_unshadowed in H by exact Ho. revert H. eval_names.
    unfold mirrored, get_disabled. intros ->.
    now apply (flag_setter_attribute "disabled").
  - now apply (flag_setter_attribute "required").
  - now apply (string_setter_attribute "name").
  - unfold get_value, set_value. rewrite (string_setter_attribute "value") by reflexivity.
    now destruct (looselyNull v).
  - now apply (flag_setter_attribute "indeterminate").
Qed.

Lemma setters_and_getters_agree_witness :
  ownProps (run [OToggle] (upgrade true ∅ [] true None)) !! "checked" = None /\
  get_checked
    (step (OAssign "checked" (JStr "yes")) (run [OToggle] (upgrade true ∅ [] true None))) =
  truthy (JStr "yes").
Proof.
  assert (H : ownProps (run [OToggle] (upgrade true ∅ [] true None)) !! "checked" = None)
    by (vm_compute; reflexivity).
  split; [exact H|].
  pose proof (setters_and_getters_agree true ∅ [] true None [OToggle] (JStr "yes")) as T.
  cbv zeta in T. destruct T as (T & _). exact (T H).
Defined.

(** ** [reportValidity] and [setCustomValidity] *)

Lemma updateValidity_internals s :
  match internals s with
  | Some _ => exists i', internals (_updateValidity s) = Some i'
  | None => internals (_updateValidity s) = None
  end.
Proof.
  unfold _updateValidity. cbv zeta. destruct (internals s) eqn:E.
  - destruct (_ || _); eexists; reflexivity.
  - destruct (_ || _); cbn; exact E.
Qed.

Lemma updateValidity_log s :
  events (_updateValidity s) = events s /\ effects (_updateValidity s) = effects s /\
  customValidity (_updateValidity s) = customValidity s.
Proof. repeat split; frame. Qed.

Lemma events_dispatchEvent e x : events (dispatchEvent e x) = (events x ++ [e])%list.
Proof. reflexivity. Qed.
Lemma effects_dispatchEvent e x : effects (dispatchEvent e x) = effects x.
Proof. reflexivity. Qed.
Lemma events_perform e x : events (perform e x) = events x.
Proof. reflexivity. Qed.
Lemma effects_perform e x : effects (perform e x) = (effects x ++ [e])%list.
Proof. reflexivity. Qed.
Lemma events_focus x : events (focus x) = events x.
Proof. reflexivity. Qed.
Lemma effects_focus x : effects (focus x) = (effects x ++ [ButtonFocus])%list.
Proof. reflexivity. Qed.

Lemma checkValidity_again s : (checkValidity (_updateValidity s)).2 = (checkValidity s).2.
Proof.
  rewrite !checkValidity_result.
  now destruct (updateValidity_reads s) as (-> & -> & ->).
Qed.

Lemma updateValidity_barred s : barred (_updateValidity s) = barred s.
Proof. unfold barred, hasAttribute. push. reflexivity. Qed.

(** X7.  Without an [ElementInternals], [reportValidity()] returns what
    [checkValidity()] returns; with one it returns that as well, unless
    the element is barred from constraint validation (it carries the
    [disabled] or the [readonly] attribute), in which case the answer is
    true whatever the flags.  When the answer is true no event is
    dispatched and nothing else happens.  When it is false an [invalid]
    event is fired where there is an [ElementInternals]; without one the
    button is focused and an alert shows the custom message, or "Please
    fill out this field." when there is none, and no event is dispatched
    (lines 357-365). *)
Theorem reportValidity_result_and_effects (s : ToggleInput) :
  (reportValidity s).2 =
    match internals s with
    | Some _ => barred s || (checkValidity s).2
    | None => (checkValidity s).2
    end /\
  events (reportValidity s).1 =
    (if (reportValidity s).2 then events s
     else match internals s with
          | Some _ => events s ++ [invalidEvent]
          | None => events s
          end)%list /\
  effects (reportValidity s).1 =
    (if (reportValidity s).2 then effects s
     else match internals s with
          | Some _ => effects s
          | None =>
              effects s ++
              [ButtonFocus; Alert (orElse (Some (customValidity s)) "Please fill out this field.")]
          end)%list.
Proof.
  pose proof (updateValidity_internals s) as Hi.
  destruct (updateValidity_log s) as (Hev & Hef & Hcv).
  destruct (updateValidity_log (_updateValidity s)) as (Hev2 & Hef2 & Hcv2).
  pose proof (checkValidity_again s) as Hsame.
  pose proof (checkValidity_state (_updateValidity s)) as Hst.
  unfold reportValidity. cbv zeta. destruct (internals s) eqn:E.
  - destruct Hi as (i' & Ei). rewrite Ei.
    assert (Hv : (checkValidity s).2 = valid i')
      by (unfold checkValidity; cbv zeta; now rewrite Ei).
    rewrite Hv, updateValidity_barred. destruct (barred s || valid i'); cbn [fst snd].
    + split; [reflexivity|]. split; assumption.
    + rewrite events_dispatchEvent, effects_dispatchEvent, Hev, Hef.
      repeat split; reflexivity.
  - rewrite Hi. destruct (checkValidity (_updateValidity s)) as [s' ok] eqn:E2.
    cbn [fst snd] in Hst, Hsame. subst s'. rewrite <- Hsame.
    destruct ok; cbn [fst snd].
    + rewrite Hev2, Hef2, Hev, Hef. repeat split; reflexivity.
    + rewrite events_perform, events_focus, effects_perform, effects_focus.
      rewrite Hev2, Hef2, Hcv2, Hev, Hef, Hcv, <- app_assoc.
      repeat split; reflexivity.
Qed.

(** X8.  With an [ElementInternals], [setCustomValidity(m)] with a truthy
    [m] reports a custom error alone, with [m] as the message: the
    [valueMissing] flag is cleared even on a required unchecked element.
    The next [checkValidity()] computes it again, from [this.required] and
    the checked state, and keeps the message (lines 335-349, 367-373). *)
Theorem setCustomValidity_custom_error_only
    (s : ToggleInput) (i : ElementInternals) (m : JSVal) :
  internals s = Some i -> truthy m = true ->
  internals (setCustomValidity m s) =
    Some (mkInternals (formValue i) false true (toString m)) /\
  internals (checkValidity (setCustomValidity m s)).1 =
    Some (mkInternals (formValue i) (this_required s && negb (get_checked s)) true (toString m)).
Proof.
  intros Hi Ht.
  assert (Hn : nonEmpty (toString m) = true).
  { pose proof (truthy_nonEmpty m) as T. rewrite Ht in T. exact T. }
  assert (Ho : forall d, orElse (Some (toString m)) d = toString m).
  { intros d. unfold orElse. unfold nonEmpty in Hn.
    destruct (String.eqb (toString m) ""); [discriminate|reflexivity]. }
  unfold setCustomValidity. cbv zeta. rewrite Ht.
  set (s1 := set_customValidity (toString m) s).
  assert (E1 : internals s1 = Some i) by exact Hi.
  assert (E2 : customValidity s1 = toString m) by reflexivity.
  assert (E3 : native s1 = native s) by reflexivity.
  assert (E4 : this_required s1 = this_required s) by reflexivity.
  clearbody s1. rewrite E1, E2, Hn.
  set (s2 := set_internals _ s1).
  assert (F1 : internals s2 = Some (mkInternals (formValue i) false true (toString m)))
    by reflexivity.
  assert (F2 : customValidity s2 = toString m) by exact E2.
  assert (F3 : native s2 = native s) by exact E3.
  assert (F4 : this_required s2 = this_required s) by exact E4.
  clearbody s2. split; [exact F1|].
  rewrite checkValidity_state. unfold _updateValidity, get_checked.
  cbv zeta. rewrite F1, F2, F3, F4, Hn, Ho, orb_true_r. reflexivity.
Qed.

Lemma setCustomValidity_custom_error_only_witness :
  internals (setCustomValidity (JStr "no") (upgrade true ∅ [("required", "")] true None)) =
  Some (mkInternals None false true "no").
Proof.
  assert (Hi : internals (upgrade true ∅ [("required", "")] true None) =
               Some (mkInternals None true false "This checkbox cannot be left unchecked."))
    by (vm_compute; reflexivity).
  assert (Ht : truthy (JStr "no") = true) by reflexivity.
  pose proof (setCustomValidity_custom_error_only
                (upgrade true ∅ [("required", "")] true None)
                (mkInternals None true false "This checkbox cannot be left unchecked.")
                (JStr "no") Hi Ht) as T.
  destruct T as (T & _). exact T.
Defined.

(** ** [_render] *)

(** The attributes and the classes [_render] leaves, as functions of what
    it reads. *)
Definition ariaAttrs (n : Native) (required : bool) (a : gmap string string) :
    gmap string string :=
  let a := <["aria-checked" :=
               if n_indeterminate n then "mixed" else if n_checked n then "true" else "false"]> a in
  let a := if n_disabled n then <["aria-disabled" := "true"]> a else delete "aria-disabled" a in
  if required then <["aria-required" := "true"]> a else delete "aria-required" a.

Definition buttonClasses (n : Native) (c : gset string) : gset string :=
  let c := if n_indeterminate n then ({[ "indeterminate" ]} ∪ c) ∖ {[ "on" ]}
           else if n_checked n then ({[ "on" ]} ∪ c) ∖ {[ "indeterminate" ]}
           else (c ∖ {[ "on" ]}) ∖ {[ "indeterminate" ]} in
  if n_disabled n then {[ "disabled" ]} ∪ c else c ∖ {[ "disabled" ]}.

Lemma render_fields s :
  attrs (_render s) = ariaAttrs (native s) (this_required s) (attrs s) /\
  classList (_render s) = buttonClasses (native s) (classList s).
Proof.
  unfold _render, ariaAttrs, buttonClasses. cbv zeta.
  destruct (n_indeterminate (native s)), (n_checked (native s)), (n_disabled (native s)),
    (this_required s); split; reflexivity.
Qed.

Lemma render_reads s :
  native (_render s) = native s /\ this_required (_render s) = this_required s.
Proof.
  split; [push; reflexivity|].
  unfold this_required, get_required, hasAttribute. push. reflexivity.
Qed.

Lemma ariaAttrs_twice n r a : ariaAttrs n r (ariaAttrs n r a) = ariaAttrs n r a.
Proof.
  unfold ariaAttrs. cbv zeta. apply map_eq. intros k.
  destruct (decide (k = "aria-required")) as [->|];
    [destruct r; simplify_map_eq; reflexivity|].
  destruct (decide (k = "aria-disabled")) as [->|];
    [destruct r, (n_disabled n); simplify_map_eq; reflexivity|].
  destruct (decide (k = "aria-checked")) as [->|];
    destruct r, (n_disabled n); simplify_map_eq; reflexivity.
Qed.

Lemma buttonClasses_twice n c : buttonClasses n (buttonClasses n c) = buttonClasses n c.
Proof.
  unfold buttonClasses. cbv zeta.
  destruct (n_indeterminate n), (n_checked n), (n_disabled n); set_solver.
Qed.

Lemma render_twice s : _render (_render s) = _render s.
Proof.
  destruct (render_fields (_render s)) as (A2 & C2).
  destruct (render_reads s) as (N & R). rewrite N, R in A2. rewrite N in C2.
  destruct (render_fields s) as (A1 & C1).
  rewrite A1, ariaAttrs_twice in A2. rewrite C1, buttonClasses_twice in C2.
  rewrite (render_shape (_render s)), A2, C2.
  rewrite (render_shape s), A1, C1. reflexivity.
Qed.

(** X9.  [_render] writes the ARIA state and the classes of the button from
    the native checkbox and from [this.required] alone: [aria-checked] is
    [mixed], [true] or [false]; [aria-disabled] is present exactly when the
    native checkbox is disabled; [aria-required] is present exactly when
    [this.required] is truthy, which is the presence of the [required]
    attribute unless an own [required] property shadows the accessor; the
    classes [on], [indeterminate] and [disabled] do not depend on the
    classes the button had; and rendering twice is rendering once (lines
    269-291). *)
Theorem render_reflects_state (s : ToggleInput) :
  getAttribute "aria-checked" (_render s) =
    Some (if n_indeterminate (native s) then "mixed"
          else if n_checked (native s) then "true" else "false") /\
  getAttribute "aria-disabled" (_render s) =
    (if n_disabled (native s) then Some "true" else None) /\
  getAttribute "aria-required" (_render s) = (if this_required s then Some "true" else None) /\
  (ownProps s !! "required" = None -> this_required s = hasAttribute "required" s) /\
  (forall v, ownProps s !! "required" = Some v -> this_required s = truthy v) /\
  ("on" ∈ classList (_render s) <->
   n_checked (native s) = true /\ n_indeterminate (native s) = false) /\
  ("indeterminate" ∈ classList (_render s) <-> n_indeterminate (native s) = true) /\
  ("disabled" ∈ classList (_render s) <-> n_disabled (native s) = true) /\
  _render (_render s) = _render s.
Proof.
  destruct (render_fields s) as (A & C). unfold getAttribute. rewrite A, C.
  unfold ariaAttrs, buttonClasses. cbv zeta.
  clear A C.
  split; [|split; [|split; [|split; [|split; [|split; [|split; [|split]]]]]]].
  - destruct (this_required s), (n_disabled (native s)); simplify_map_eq; reflexivity.
  - destruct (this_required s), (n_disabled (native s)); simplify_map_eq; reflexivity.
  - destruct (this_required s); simplify_map_eq; reflexivity.
  - unfold this_required, get_required. now intros ->.
  - unfold this_required. now intros v ->.
  - destruct (n_indeterminate (native s)), (n_checked (native s)), (n_disabled (native s));
      set_solver.
  - destruct (n_indeterminate (native s)), (n_checked (native s)), (n_disabled (native s));
      set_solver.
  - destruct (n_indeterminate (native s)), (n_checked (native s)), (n_disabled (native s));
      set_solver.
  - apply render_twice.
Qed.

Lemma render_reflects_state_witness :
  ownProps (upgrade true {["required" := JBool true]} [] false None) !! "required" =
    Some (JBool true) /\
  this_required (upgrade true {["required" := JBool true]} [] false None) = true.
Proof.
  assert (H : ownProps (upgrade true {["required" := JBool true]} [] false None) !! "required" =
              Some (JBool true)) by (vm_compute; reflexivity).
  split; [exact H|].
  pose proof (render_reflects_state (upgrade true {["required" := JBool true]} [] false None))
    as T.
  destruct T as (_ & _ & _ & _ & T & _). exact (T (JBool true) H).
Defined.

(** ** Connection *)

Lemma attributeChangedCallback_ownProps name o n s :
  observed name = true -> ownProps (attributeChangedCallback name o n s) = ownProps s.
Proof.
  intros H. names H; (callback o n; [reflexivity|]); repeat case_match; push; reflexivity.
Qed.

Lemma setAttribute_ownProps name value s : ownProps (setAttribute name value s) = ownProps s.
Proof.
  unfold setAttribute. cbv zeta. destruct (observed name) eqn:H; [|reflexivity].
  now rewrite attributeChangedCallback_ownProps.
Qed.

Lemma removeAttribute_ownProps name s : ownProps (removeAttribute name s) = ownProps s.
Proof.
  unfold removeAttribute. destruct (getAttribute name s); [|reflexivity].
  cbv zeta. destruct (observed name) eqn:H; [|reflexivity].
  now rewrite attributeChangedCallback_ownProps.
Qed.

(** An attribute that is none of the six reflected ones, and none the
    component writes for itself, is left alone by assignments. *)
Section Kept.

Context (k : string).
Hypothesis k_stable : internalAttr k = false.
Hypothesis k_free :
  k ∉ ["checked"; "disabled"; "name"; "value"; "required"; "indeterminate"].

Lemma kept_setAttribute name value s :
  name ∈ ["checked"; "disabled"; "name"; "value"; "required"; "indeterminate"] ->
  attrs (setAttribute name value s) !! k = attrs s !! k.
Proof.
  intros H. rewrite setAttribute_attrs by exact k_stable.
  destruct (decide (k = name)) as [->|]; [contradiction|reflexivity].
Qed.

Lemma kept_removeAttribute name s :
  name ∈ ["checked"; "disabled"; "name"; "value"; "required"; "indeterminate"] ->
  attrs (removeAttribute name s) !! k = attrs s !! k.
Proof.
  intros H. rewrite removeAttribute_attrs by exact k_stable.
  destruct (decide (k = name)) as [->|]; [contradiction|reflexivity].
Qed.

Lemma kept_assign prop v s : attrs (assign prop v s) !! k = attrs s !! k.
Proof.
  apply (assign_cases (fun t => attrs t !! k = attrs s !! k)); [reflexivity|..];
    unfold set_checked, set_disabled, set_name, set_value, set_required, set_indeterminate;
    match goal with |- context [if ?c then _ else _] => destruct c end;
    first [apply kept_setAttribute | apply kept_removeAttribute];
    repeat first [apply list_elem_of_here | apply list_elem_of_further].
Qed.

Lemma kept_upgradeProperty prop s : attrs (_upgradeProperty prop s) !! k = attrs s !! k.
Proof.
  unfold _upgradeProperty. destruct (ownProps s !! prop); [|reflexivity].
  now rewrite kept_assign.
Qed.

Lemma kept_cc_finish s : attrs (cc_finish s) = attrs s.
Proof.
  unfold cc_finish. cbv zeta. destruct (form s); destruct (hasAttribute _ _); reflexivity.
Qed.

Lemma kept_cc_form s : attrs (cc_form s) !! k = attrs s !! k.
Proof.
  unfold cc_form. cbv zeta.
  rewrite attrs_ensureHiddenInput, attrs_updateValidity by exact k_stable.
  now rewrite attrs_updateFormValue.
Qed.

Lemma kept_cc_upgrade s : attrs (cc_upgrade s) !! k = attrs s !! k.
Proof.
  unfold cc_upgrade. cbv zeta. rewrite attrs_render by exact k_stable.
  now rewrite !kept_upgradeProperty.
Qed.

Lemma kept_after_prepare s :
  attrs (cc_finish (cc_form (cc_listen (cc_upgrade (cc_capture s))))) !! k = attrs s !! k.
Proof.
  rewrite kept_cc_finish, kept_cc_form.
  generalize (cc_upgrade (cc_capture s)) (kept_cc_upgrade (cc_capture s)).
  intros x Hx. transitivity (attrs x !! k); [reflexivity|]. rewrite Hx. reflexivity.
Qed.

End Kept.

(** X10.  [connectedCallback] gives the element the role [checkbox] and the
    tab index [0] unless the page set these attributes, and keeps what the
    page set; it records as defaults for a form reset the presence of the
    [checked] and [indeterminate] attributes at the time of the call,
    before the early property assignments are replayed; and it registers
    the click and keydown listeners (lines 125-140). *)
Theorem connectedCallback_setup (s : ToggleInput) :
  getAttribute "role" (connectedCallback s) = Some (nullish (getAttribute "role" s) "checkbox") /\
  getAttribute "tabindex" (connectedCallback s) = Some (nullish (getAttribute "tabindex" s) "0") /\
  defaultChecked (connectedCallback s) = hasAttribute "checked" s /\
  defaultIndeterminate (connectedCallback s) = hasAttribute "indeterminate" s /\
  clickListener (connectedCallback s) = true /\
  keydownListener (connectedCallback s) = true.
Proof.
  destruct (connectedCallback_fields s) as (D1 & D2 & L1 & L2 & _).
  assert (F : forall k, k ∈ ["role"; "tabindex"] ->
            attrs (connectedCallback s) !! k = attrs (cc_prepare s) !! k).
  { intros k Hk. unfold connectedCallback. apply kept_after_prepare.
    - apply elem_of_cons in Hk as [->|Hk]; [reflexivity|].
      apply elem_of_cons in Hk as [->|Hk]; [reflexivity|]. now apply elem_of_nil in Hk.
    - intros Hn. apply elem_of_cons in Hk as [->|Hk];
        [|apply elem_of_cons in Hk as [->|Hk]; [|now apply elem_of_nil in Hk]];
        repeat (apply elem_of_cons in Hn as [Hn|Hn]; [discriminate|]);
        now apply elem_of_nil in Hn. }
  unfold getAttribute.
  rewrite (F "role") by (apply elem_of_cons; now left).
  rewrite (F "tabindex") by (apply elem_of_cons; right; apply elem_of_cons; now left).
  clear F. repeat split; try assumption.
  - unfold cc_prepare, hasAttribute. cbv zeta.
    destruct (attrs s !! "role") as [r|] eqn:Er; cbn [negb].
    + destruct (negb _); [|exact Er].
      rewrite setAttribute_attrs by reflexivity. exact Er.
    + set (s1 := setAttribute "role" "checkbox" s).
      assert (E1 : attrs s1 !! "role" = Some "checkbox")
        by (unfold s1; now rewrite setAttribute_attrs by reflexivity).
      clearbody s1. destruct (negb _); [|exact E1].
      rewrite setAttribute_attrs by reflexivity. exact E1.
  - unfold cc_prepare. cbv zeta.
    set (s1 := if negb (hasAttribute "role" s) then setAttribute "role" "checkbox" s else s).
    assert (E1 : attrs s1 !! "tabindex" = attrs s !! "tabindex").
    { unfold s1. destruct (negb _); [|reflexivity].
      now rewrite setAttribute_attrs by reflexivity. }
    clearbody s1. rewrite <- E1. unfold hasAttribute.
    destruct (attrs s1 !! "tabindex") as [t|] eqn:Et; cbn [negb nullish]; [exact Et|].
    now rewrite setAttribute_attrs by reflexivity.
Qed.

(** X11.  A [checked] property assigned before the upgrade is replayed by
    [_upgradeProperty]: the own property is deleted, and afterwards the
    [checked] property and the presence of the [checked] attribute are the
    truthiness of the value assigned (lines 132, 202-208). *)
Theorem upgradeProperty_replays_checked (s : ToggleInput) (v : JSVal) :
  ownProps s !! "checked" = Some v -> checkedMirrored s ->
  ownProps (_upgradeProperty "checked" s) !! "checked" = None /\
  get_checked (_upgradeProperty "checked" s) = truthy v /\
  hasAttribute "checked" (_upgradeProperty "checked" s) = truthy v.
Proof.
  intros Ho Hm. unfold _upgradeProperty. rewrite Ho.
  set (s1 := set_ownProps (fun m => delete "checked" m) s).
  assert (O1 : ownProps s1 !! "checked" = None) by apply lookup_delete_eq.
  assert (M1 : checkedMirrored s1) by exact Hm.
  clearbody s1. rewrite assign_unshadowed by exact O1. eval_names.
  assert (Ha : hasAttribute "checked" (set_checked v s1) = truthy v)
    by now apply flag_setter_attribute.
  split; [|split; [|exact Ha]].
  - unfold set_checked.
    destruct (truthy v); [rewrite setAttribute_ownProps|rewrite removeAttribute_ownProps];
      exact O1.
  - unfold get_checked. rewrite <- checkedMirrored_reads
      by now apply set_checked_checkedMirrored.
    exact Ha.
Qed.

Lemma upgradeProperty_replays_checked_witness :
  get_checked
    (_upgradeProperty "checked" (upgrade true {[ "checked" := JBool true ]} [] false None)) =
  truthy (JBool true).
Proof.
  assert (Ho : ownProps (upgrade true {[ "checked" := JBool true ]} [] false None) !! "checked" =
               Some (JBool true)) by (vm_compute; reflexivity).
  assert (Hm : checkedMirrored (upgrade true {[ "checked" := JBool true ]} [] false None))
    by (vm_compute; reflexivity).
  pose proof (upgradeProperty_replays_checked
                (upgrade true {[ "checked" := JBool true ]} [] false None) (JBool true) Ho Hm)
    as T.
  destruct T as (_ & T & _). exact T.
Defined.

(** ** Listeners *)

(** X12.  In every reachable state a click or a key press reaches its
    handler exactly while the element is connected: the listeners set up
    by [connectedCallback] are removed by [disconnectedCallback], so a
    detached element is not toggled by them (lines 139-140, 154-156). *)
Theorem handlers_follow_connection
    (ai : bool) (own : gmap string JSVal) (atts : list (string * string))
    (c : bool) (f : option nat) (ops : list Op) :
  let s := run ops (upgrade ai own atts c f) in
  step OUserClick s = (if isConnected s then _onClick s else s) /\
  forall key, step (OKeyDown key) s = (if isConnected s then _onKeyDown key s else s).
Proof.
  intros s.
  pose proof (run_Inv ops _ (upgrade_Inv ai own atts c f)) as (_ & _ & Hc & Hk).
  fold s in Hc, Hk. clearbody s. unfold step. rewrite Hc, Hk. now split.
Qed.

(** X13.  Taking the element out of the document leaves the reset
    listeners alone when the element has no form ancestor afterwards, as
    after [el.remove()]: [disconnectedCallback] looks for the form when the
    element has already left it.  A reset of the old form still runs
    [_onFormReset] on the detached element.  The listener is removed only
    when the element leaves the document together with its form
    (lines 154-159). *)
Theorem removal_keeps_reset_listener (s : ToggleInput) (f : nat) :
  resetListeners (place false None s) = resetListeners s /\
  (isConnected s = true ->
   resetListeners (place false (Some f) s) = resetListeners s ∖ {[ f ]}) /\
  (f ∈ resetListeners s ->
   step (OFormReset f) (place false None s) = _onFormReset (place false None s)).
Proof.
  assert (E : resetListeners (place false None s) = resetListeners s).
  { unfold place, disconnectedCallback. cbv zeta. now destruct (isConnected s). }
  split; [exact E|]. split.
  - intros Hc. unfold place, disconnectedCallback. cbv zeta. now rewrite Hc.
  - intros Hf. unfold step. rewrite E. now rewrite bool_decide_eq_true_2.
Qed.

Lemma removal_keeps_reset_listener_witness :
  1 ∈ resetListeners (upgrade true ∅ [] true (Some 1)) /\
  step (OFormReset 1) (place false None (upgrade true ∅ [] true (Some 1))) =
  _onFormReset (place false None (upgrade true ∅ [] true (Some 1))).
Proof.
  assert (H : 1 ∈ resetListeners (upgrade true ∅ [] true (Some 1))).
  { assert (E : resetListeners (upgrade true ∅ [] true (Some 1)) = {[ 1 ]} ∪ ∅)
      by (vm_compute; reflexivity).
    rewrite E. apply elem_of_union. left. now apply elem_of_singleton. }
  split; [exact H|].
  pose proof (removal_keeps_reset_listener (upgrade true ∅ [] true (Some 1)) 1) as T.
  destruct T as (_ & _ & T). exact (T H).
Defined.

(** ** ARIA state and classes in the reachable states *)

(** An assignment that ends in an own property leaves [this.required]
    alone on an element that has no own [required] property. *)
Lemma assign_cases_required (P : ToggleInput -> Prop) prop v s :
  unshadowed "required" s ->
  (prop <> "required" -> P (set_ownProps (fun m => <[prop := v]> m) s)) ->
  P (set_checked v s) -> P (set_disabled v s) -> P (set_name v s) ->
  P (set_value v s) -> P (set_required v s) -> P (set_indeterminate v s) ->
  P (assign prop v s).
Proof.
  intros Hu He. intros. unfold assign. destruct (ownProps s !! prop) eqn:E.
  - apply He. intros ->. unfold unshadowed in Hu. congruence.
  - repeat match goal with
    | |- context [String.eqb prop ?n] =>
        destruct (String.eqb_spec prop n) as [->|?]; cbv iota; [assumption|]
    end.
    now apply He.
Qed.

Lemma this_required_expando prop v s :
  prop <> "required" ->
  this_required (set_ownProps (fun m => <[prop := v]> m) s) = this_required s.
Proof.
  intros Hp. unfold this_required, get_required, hasAttribute. cbn.
  now rewrite lookup_insert_ne by exact Hp.
Qed.

Lemma this_required_deleted prop s :
  unshadowed "required" s ->
  this_required (set_ownProps (fun m => delete prop m) s) = this_required s.
Proof.
  unfold unshadowed. intros Hu. unfold this_required, get_required, hasAttribute. cbn.
  destruct (decide (prop = "required")) as [->|Hp].
  - now rewrite lookup_delete_eq, Hu.
  - now rewrite lookup_delete_ne by exact Hp.
Qed.

(** The ARIA attributes of the host and the classes of the button say what
    the native checkbox and [this.required] say: rendering again would
    change nothing. *)
Definition ariaCurrent (s : ToggleInput) : Prop :=
  attrs s = ariaAttrs (native s) (this_required s) (attrs s) /\
  classList s = buttonClasses (native s) (classList s).

Lemma render_ariaCurrent s : ariaCurrent (_render s).
Proof.
  unfold ariaCurrent. destruct (render_reads s) as (-> & ->).
  destruct (render_fields s) as (-> & ->).
  now rewrite ariaAttrs_twice, buttonClasses_twice.
Qed.

Lemma ariaCurrent_same s s' :
  native s' = native s -> classList s' = classList s -> attrs s' = attrs s ->
  ownProps s' = ownProps s ->
  ariaCurrent s -> ariaCurrent s'.
Proof.
  unfold ariaCurrent, this_required, get_required, hasAttribute. now intros -> -> -> ->.
Qed.

Lemma ariaCurrent_required s s' :
  native s' = native s -> classList s' = classList s -> attrs s' = attrs s ->
  this_required s' = this_required s ->
  ariaCurrent s -> ariaCurrent s'.
Proof. unfold ariaCurrent. now intros -> -> -> ->. Qed.

(** The names [_render] reads or writes. *)
Definition renderAttr (k : string) : bool :=
  bool_decide (k ∈ ["aria-checked"; "aria-disabled"; "aria-required"; "required"]).

Lemma renderAttr_false k :
  renderAttr k = false ->
  k <> "aria-checked" /\ k <> "aria-disabled" /\ k <> "aria-required" /\ k <> "required".
Proof.
  unfold renderAttr. intros H. apply bool_decide_eq_false in H.
  repeat split; intros ->; apply H; set_solver.
Qed.

Lemma ariaAttrs_insert n r k v a :
  renderAttr k = false ->
  ariaAttrs n r (<[k := v]> a) = <[k := v]> (ariaAttrs n r a).
Proof.
  intros Hk. apply renderAttr_false in Hk as (H1 & H2 & H3 & _).
  unfold ariaAttrs. cbv zeta. apply map_eq. intros j.
  destruct (decide (j = k)) as [->|];
    destruct r, (n_disabled n); simplify_map_eq; try reflexivity;
    destruct (decide (j = "aria-required")) as [->|]; simplify_map_eq; try reflexivity;
    destruct (decide (j = "aria-disabled")) as [->|]; simplify_map_eq; try reflexivity;
    destruct (decide (j = "aria-checked")) as [->|]; simplify_map_eq; reflexivity.
Qed.

Lemma ariaAttrs_delete n r k a :
  renderAttr k = false ->
  ariaAttrs n r (delete k a) = delete k (ariaAttrs n r a).
Proof.
  intros Hk. apply renderAttr_false in Hk as (H1 & H2 & H3 & _).
  unfold ariaAttrs. cbv zeta. apply map_eq. intros j.
  destruct (decide (j = k)) as [->|];
    destruct r, (n_disabled n); simplify_map_eq; try reflexivity;
    destruct (decide (j = "aria-required")) as [->|]; simplify_map_eq; try reflexivity;
    destruct (decide (j = "aria-disabled")) as [->|]; simplify_map_eq; try reflexivity;
    destruct (decide (j = "aria-checked")) as [->|]; simplify_map_eq; reflexivity.
Qed.

Lemma setAttribute0_ariaCurrent k v s :
  renderAttr k = false -> ariaCurrent s -> ariaCurrent (setAttribute0 k v s).
Proof.
  intros Hk (Ha & Hc). pose proof (renderAttr_false k Hk) as (_ & _ & _ & H4).
  unfold ariaCurrent, this_required, get_required, hasAttribute in *. cbn.
  rewrite lookup_insert_ne by congruence.
  rewrite ariaAttrs_insert by exact Hk. rewrite <- Ha. now split.
Qed.

Lemma removeAttribute0_ariaCurrent k s :
  renderAttr k = false -> ariaCurrent s -> ariaCurrent (removeAttribute0 k s).
Proof.
  intros Hk (Ha & Hc). pose proof (renderAttr_false k Hk) as (_ & _ & _ & H4).
  unfold ariaCurrent, this_required, get_required, hasAttribute in *. cbn.
  rewrite lookup_delete_ne by congruence.
  rewrite ariaAttrs_delete by exact Hk. rewrite <- Ha. now split.
Qed.

Lemma updateValidity_ariaCurrent s : ariaCurrent s -> ariaCurrent (_updateValidity s).
Proof.
  intros H. unfold _updateValidity. cbv zeta. destruct (internals s).
  - destruct (_ || _); exact H.
  - destruct (_ || _);
      [now apply setAttribute0_ariaCurrent|now apply removeAttribute0_ariaCurrent].
Qed.

Ltac aria_low :=
  idtac;
  lazymatch goal with
  | |- ariaCurrent (_updateValidity _) => simple apply updateValidity_ariaCurrent
  | |- ariaCurrent (_ensureHiddenInput ?s) =>
      apply (ariaCurrent_same s); [frame|frame|apply attrs_ensureHiddenInput|frame|]
  | |- ariaCurrent (_updateHiddenInput ?s) =>
      apply (ariaCurrent_same s); [frame|frame|apply attrs_updateHiddenInput|frame|]
  | |- ariaCurrent (_updateFormValue ?s) =>
      apply (ariaCurrent_same s); [frame|frame|apply attrs_updateFormValue|frame|]
  | |- ariaCurrent (focus ?s) => apply (ariaCurrent_same s); [reflexivity..|]
  | |- ariaCurrent (blur ?s) => apply (ariaCurrent_same s); [reflexivity..|]
  | |- ariaCurrent (perform _ ?s) => apply (ariaCurrent_same s); [reflexivity..|]
  | |- ariaCurrent (dispatchEvent _ ?s) => apply (ariaCurrent_same s); [reflexivity..|]
  | |- ariaCurrent (set_defaults _ _ ?s) => apply (ariaCurrent_same s); [reflexivity..|]
  | |- ariaCurrent (set_listeners _ _ ?s) => apply (ariaCurrent_same s); [reflexivity..|]
  | |- ariaCurrent (set_resetListeners _ ?s) => apply (ariaCurrent_same s); [reflexivity..|]
  | |- ariaCurrent (set_position _ _ ?s) => apply (ariaCurrent_same s); [reflexivity..|]
  | |- ariaCurrent (set_customValidity _ ?s) => apply (ariaCurrent_same s); [reflexivity..|]
  | |- ariaCurrent (set_internals _ ?s) => apply (ariaCurrent_same s); [reflexivity..|]
  | |- ariaCurrent (set_hiddenInput _ ?s) => apply (ariaCurrent_same s); [reflexivity..|]
  end.

(** Along a chain of calls: everything after the last [_render] leaves its
    result alone. *)
Ltac aria_chain keep :=
  cbv zeta;
  repeat first
    [ assumption
    | simple apply render_ariaCurrent
    | chain_step ariaCurrent keep ].

Ltac keep_aria0 := idtac; aria_low.

Lemma reflectAttribute_ariaCurrent name s :
  observed name = true -> ariaCurrent (reflectAttribute name s).
Proof.
  intros H. names H; unfold reflectAttribute; eval_names; aria_chain keep_aria0.
Qed.

Lemma setAttribute_ariaCurrent name value s :
  internalAttr name = false -> ariaCurrent s -> ariaCurrent (setAttribute name value s).
Proof.
  intros Hk H. unfold setAttribute. cbv zeta. destruct (observed name) eqn:Ho.
  - destruct (decide (getAttribute name s = Some value)) as [E|E].
    + rewrite E, attributeChangedCallback_same, setAttribute0_same by exact E. exact H.
    + rewrite attributeChangedCallback_changed by exact E.
      now apply reflectAttribute_ariaCurrent.
  - apply setAttribute0_ariaCurrent; [|exact H].
    apply internalAttr_false in Hk as (H1 & H2 & H3 & _).
    apply bool_decide_eq_false. intros Hin.
    repeat (apply elem_of_cons in Hin as [Hin|Hin]; [congruence|]).
    apply elem_of_cons in Hin as [->|Hin]; [vm_compute in Ho; discriminate|].
    now apply elem_of_nil in Hin.
Qed.

Lemma removeAttribute_ariaCurrent name s :
  internalAttr name = false -> ariaCurrent s -> ariaCurrent (removeAttribute name s).
Proof.
  intros Hk H. unfold removeAttribute. destruct (getAttribute name s) eqn:Ea; [|exact H].
  cbv zeta. destruct (observed name) eqn:Ho.
  - rewrite attributeChangedCallback_changed by discriminate.
    now apply reflectAttribute_ariaCurrent.
  - apply removeAttribute0_ariaCurrent; [|exact H].
    apply internalAttr_false in Hk as (H1 & H2 & H3 & _).
    apply bool_decide_eq_false. intros Hin.
    repeat (apply elem_of_cons in Hin as [Hin|Hin]; [congruence|]).
    apply elem_of_cons in Hin as [->|Hin]; [vm_compute in Ho; discriminate|].
    now apply elem_of_nil in Hin.
Qed.

Lemma mirrorChecked_ariaCurrent s : ariaCurrent s -> ariaCurrent (mirrorChecked s).
Proof.
  intros H. unfold mirrorChecked.
  destruct (n_checked _);
    [now apply setAttribute_ariaCurrent|now apply removeAttribute_ariaCurrent].
Qed.

Lemma assign_ariaCurrent prop v s :
  unshadowed "required" s -> ariaCurrent s -> ariaCurrent (assign prop v s).
Proof.
  intros Hu H. apply assign_cases_required; [exact Hu| |..];
    [intros Hp; apply (ariaCurrent_required s);
       [reflexivity..|now apply this_required_expando|exact H]|..];
    unfold set_checked, set_disabled, set_name, set_value, set_required, set_indeterminate;
    match goal with |- context [if ?c then _ else _] => destruct c end;
    first [now apply setAttribute_ariaCurrent | now apply removeAttribute_ariaCurrent].
Qed.

Lemma upgradeProperty_ariaCurrent prop s :
  unshadowed "required" s -> ariaCurrent s -> ariaCurrent (_upgradeProperty prop s).
Proof.
  intros Hu H. unfold _upgradeProperty. destruct (ownProps s !! prop); [|exact H].
  apply assign_ariaCurrent.
  - unfold unshadowed in *. cbn. destruct (decide (prop = "required")) as [->|Hp].
    + apply lookup_delete_eq.
    + now rewrite lookup_delete_ne by exact Hp.
  - apply (ariaCurrent_required s); [reflexivity..|now apply this_required_deleted|exact H].
Qed.

Lemma toggle_ariaCurrent s : ariaCurrent (toggle s).
Proof. unfold toggle. cbv zeta. apply render_ariaCurrent. Qed.

Lemma onFormReset_ariaCurrent s : ariaCurrent (_onFormReset s).
Proof. unfold _onFormReset. cbv zeta. apply render_ariaCurrent. Qed.

Lemma onNativeInput_ariaCurrent s : ariaCurrent (_onNativeInput s).
Proof. unfold _onNativeInput. aria_chain keep_aria0. Qed.

Lemma onNativeChange_ariaCurrent s : ariaCurrent (_onNativeChange s).
Proof. unfold _onNativeChange. aria_chain keep_aria0. Qed.

(** Away from a document the click would flip the native checkbox without
    any rendering. *)
Lemma nativeClick_ariaCurrent s :
  isConnected s = true -> ariaCurrent s -> ariaCurrent (nativeClick s).
Proof.
  intros Hc H. unfold nativeClick. destruct (n_disabled _); [exact H|]. cbv zeta.
  set (s1 := set_native _ s). assert (H1 : isConnected s1 = true) by exact Hc.
  clearbody s1. rewrite H1. apply onNativeChange_ariaCurrent.
Qed.

Lemma onClick_ariaCurrent s :
  isConnected s = true -> ariaCurrent s -> ariaCurrent (_onClick s).
Proof.
  intros Hc H. unfold _onClick. destruct (get_disabled s); [exact H|].
  apply (ariaCurrent_same (nativeClick s)); [reflexivity..|].
  now apply nativeClick_ariaCurrent.
Qed.

Lemma onKeyDown_ariaCurrent key s :
  isConnected s = true -> ariaCurrent s -> ariaCurrent (_onKeyDown key s).
Proof.
  intros Hc H. unfold _onKeyDown. destruct (get_disabled s); [exact H|].
  destruct (togglingKey key); [|exact H].
  now apply (nativeClick_ariaCurrent (perform PreventDefault s)).
Qed.

Lemma reportValidity_ariaCurrent s : ariaCurrent s -> ariaCurrent (reportValidity s).1.
Proof.
  intros H. unfold reportValidity. cbv zeta. destruct (internals (_updateValidity s)).
  - destruct (barred _ || valid _); cbn [fst]; aria_chain keep_aria0.
  - destruct (checkValidity (_updateValidity s)) as [s' ok] eqn:E.
    assert (Hs : s' = _updateValidity (_updateValidity s))
      by (now rewrite <- checkValidity_state, E).
    subst s'. destruct ok; cbn [fst]; aria_chain keep_aria0.
Qed.

Lemma setCustomValidity_ariaCurrent m s : ariaCurrent s -> ariaCurrent (setCustomValidity m s).
Proof.
  intros H. unfold setCustomValidity. cbv zeta. set (s1 := set_customValidity _ s).
  assert (H1 : ariaCurrent s1) by exact H. clearbody s1.
  destruct (internals s1); [destruct (nonEmpty _)|];
    first [exact H1 | now apply updateValidity_ariaCurrent].
Qed.

(** [connectedCallback] renders whatever the state was; the calls after
    [_render] leave its result alone. *)
Lemma connectedCallback_ariaCurrent s : ariaCurrent (connectedCallback s).
Proof.
  unfold connectedCallback. generalize (cc_capture (cc_prepare s)). intros x.
  assert (H : ariaCurrent (cc_upgrade x))
    by (unfold cc_upgrade; cbv zeta; apply render_ariaCurrent).
  revert H. generalize (cc_upgrade x). clear x. intros x H.
  unfold cc_finish, cc_form, cc_listen. aria_chain keep_aria0.
Qed.

Lemma disconnectedCallback_ariaCurrent s :
  ariaCurrent s -> ariaCurrent (disconnectedCallback s).
Proof.
  intros H. unfold disconnectedCallback. cbv zeta.
  destruct (form _); exact H.
Qed.

Lemma place_ariaCurrent c f s : ariaCurrent s -> ariaCurrent (place c f s).
Proof.
  intros H. unfold place. cbv zeta. destruct c; [apply connectedCallback_ariaCurrent|].
  set (s1 := set_position false f s). assert (H1 : ariaCurrent s1) by exact H.
  clearbody s1. destruct (isConnected s); [|exact H1].
  now apply disconnectedCallback_ariaCurrent.
Qed.

(** The operations of a page that write one of the attributes the
    component keeps for itself by [setAttribute] or [removeAttribute]. *)
Definition writesInternalAttr (o : Op) : bool :=
  match o with
  | OSetAttribute name _ | ORemoveAttribute name => internalAttr name
  | _ => false
  end.

Lemma step_ariaCurrent o s :
  writesInternalAttr o = false -> listening s -> unshadowed "required" s ->
  ariaCurrent s -> ariaCurrent (step o s).
Proof.
  intros Ho (Hl1 & Hl2) Hu H.
  destruct o as [name value|name|prop value| | | |message| | | |key|f|c f]; unfold step.
  - now apply setAttribute_ariaCurrent.
  - now apply removeAttribute_ariaCurrent.
  - now apply assign_ariaCurrent.
  - apply toggle_ariaCurrent.
  - rewrite checkValidity_state. now apply updateValidity_ariaCurrent.
  - now apply reportValidity_ariaCurrent.
  - now apply setCustomValidity_ariaCurrent.
  - exact H.
  - exact H.
  - destruct (clickListener s) eqn:E; [|exact H].
    apply onClick_ariaCurrent; [congruence|exact H].
  - destruct (keydownListener s) eqn:E; [|exact H].
    apply onKeyDown_ariaCurrent; [congruence|exact H].
  - destruct (bool_decide _); [|exact H]. apply onFormReset_ariaCurrent.
  - now apply place_ariaCurrent.
Qed.

Lemma run_ariaCurrent ops s :
  forallb (fun o => negb (writesInternalAttr o)) ops = true ->
  Inv s -> unshadowed "required" s -> ariaCurrent s -> ariaCurrent (run ops s).
Proof.
  revert s. induction ops as [|o ops IH]; intros s Ho HI Hu H; [exact H|].
  cbn in Ho. apply andb_true_iff in Ho as (Ho1 & Ho2).
  apply negb_true_iff in Ho1.
  change (run (o :: ops) s) with (run ops (step o s)).
  apply IH; [exact Ho2|now apply step_Inv|now apply step_unshadowed|].
  apply step_ariaCurrent; [exact Ho1|apply HI|exact Hu|exact H].
Qed.

Lemma ariaCurrent_reads s :
  ariaCurrent s ->
  getAttribute "aria-checked" s =
    Some (if get_indeterminate s then "mixed" else if get_checked s then "true" else "false") /\
  getAttribute "aria-disabled" s = (if get_disabled s then Some "true" else None) /\
  getAttribute "aria-required" s = (if this_required s then Some "true" else None) /\
  ("on" ∈ classList s <-> get_checked s = true /\ get_indeterminate s = false) /\
  ("indeterminate" ∈ classList s <-> get_indeterminate s = true) /\
  ("disabled" ∈ classList s <-> get_disabled s = true).
Proof.
  intros (Ha & Hc). unfold getAttribute. rewrite Ha, Hc.
  unfold get_indeterminate, get_checked, get_disabled, ariaAttrs, buttonClasses. cbv zeta.
  generalize (this_required s) (attrs s) (classList s). intros r a c.
  split; [|split; [|split; [|split; [|split]]]].
  - destruct r, (n_disabled (native s)); simplify_map_eq; reflexivity.
  - destruct r, (n_disabled (native s)); simplify_map_eq; reflexivity.
  - destruct r; simplify_map_eq; reflexivity.
  - destruct (n_indeterminate (native s)), (n_checked (native s)), (n_disabled (native s));
      set_solver.
  - destruct (n_indeterminate (native s)), (n_checked (native s)), (n_disabled (native s));
      set_solver.
  - destruct (n_indeterminate (native s)), (n_checked (native s)), (n_disabled (native s));
      set_solver.
Qed.

(** X14.  Take an element that had no [required] property assigned before
    its upgrade, and a page that assigns to the properties of the class
    only.  Once the element has been connected, its ARIA state and the
    classes of its button follow the component's state through every
    sequence of operations in which the page does not write the
    [aria-checked], [aria-disabled], [aria-required] or [aria-invalid]
    attribute itself: [aria-checked] is [mixed] for an indeterminate
    element and otherwise [true] or [false] as the property [checked],
    [aria-disabled] and [aria-required] are present exactly when the
    element is disabled or required, and the classes [on],
    [indeterminate] and [disabled] say the same (lines 170, 233, 245, 256,
    266, 269-291). *)
Theorem aria_follows_state
    (ai : bool) (own : gmap string JSVal) (atts : list (string * string))
    (c : bool) (f f' : option nat) (before after : list Op) :
  own !! "required" = None ->
  forallb pageOp before = true -> forallb pageOp after = true ->
  forallb (fun o => negb (writesInternalAttr o)) after = true ->
  let s := run after (place true f' (run before (upgrade ai own atts c f))) in
  getAttribute "aria-checked" s =
    Some (if get_indeterminate s then "mixed" else if get_checked s then "true" else "false") /\
  getAttribute "aria-disabled" s = (if get_disabled s then Some "true" else None) /\
  getAttribute "aria-required" s = (if get_required s then Some "true" else None) /\
  this_required s = get_required s /\
  ("on" ∈ classList s <-> get_checked s = true /\ get_indeterminate s = false) /\
  ("indeterminate" ∈ classList s <-> get_indeterminate s = true) /\
  ("disabled" ∈ classList s <-> get_disabled s = true).
Proof.
  intros Hown _ _ Ho s.
  assert (Hu1 : unshadowed "required" (place true f' (run before (upgrade ai own atts c f)))).
  { apply (place_unshadowed "required" eq_refl), (run_unshadowed "required" eq_refl).
    now apply upgrade_unshadowed. }
  assert (Hu : unshadowed "required" s)
    by (unfold s; now apply (run_unshadowed "required" eq_refl)).
  assert (H : ariaCurrent s).
  { unfold s. apply run_ariaCurrent; [exact Ho| |exact Hu1|].
    - apply place_Inv, run_Inv, upgrade_Inv.
    - unfold place. cbv zeta. apply connectedCallback_ariaCurrent. }
  clearbody s. clear Hu1.
  destruct (ariaCurrent_reads s H) as (H1 & H2 & H3 & H4 & H5 & H6).
  rewrite (this_required_unshadowed s Hu) in H3.
  repeat split; try assumption; try (now apply this_required_unshadowed);
    first [apply H4 | apply H5 | apply H6]; assumption.
Qed.

Lemma aria_follows_state_witness :
  getAttribute "aria-checked"
    (run [OToggle; OSetAttribute "indeterminate" ""]
       (place true None (run [] (upgrade true ∅ [] false None)))) = Some "mixed".
Proof.
  assert (Ho : forallb (fun o => negb (writesInternalAttr o))
                 [OToggle; OSetAttribute "indeterminate" ""] = true)
    by (vm_compute; reflexivity).
  assert (Hp : forallb pageOp [OToggle; OSetAttribute "indeterminate" ""] = true)
    by (vm_compute; reflexivity).
  pose proof (aria_follows_state true ∅ [] false None None []
                [OToggle; OSetAttribute "indeterminate" ""] eq_refl eq_refl Hp Ho) as T.
  cbv zeta in T. destruct T as (T & _).
  assert (Hi : get_indeterminate
                 (run [OToggle; OSetAttribute "indeterminate" ""]
                    (place true None (run [] (upgrade true ∅ [] false None)))) = true)
    by (vm_compute; reflexivity).
  rewrite Hi in T. exact T.
Defined.

(** ** The place of the hidden input *)

(** The hidden input is a child of form [p], and the element is not
    connected outside every form, where [_ensureHiddenInput] would remove
    it. *)
Section HiddenParent.

Context (p : option nat).

Definition hiddenKept (s : ToggleInput) : Prop :=
  (isConnected s = false \/ form s <> None) /\
  exists h, hiddenInput s = Some h /\ h_parent h = p.

Lemma hiddenKept_same s s' :
  isConnected s' = isConnected s -> form s' = form s -> hiddenInput s' = hiddenInput s ->
  hiddenKept s -> hiddenKept s'.
Proof. unfold hiddenKept. now intros -> -> ->. Qed.

Lemma ensureHiddenInput_hiddenKept s : hiddenKept s -> hiddenKept (_ensureHiddenInput s).
Proof.
  intros (Hp & h & Hh & Hq). unfold _ensureHiddenInput. rewrite Hh.
  destruct (negb (isConnected s)) eqn:Ec; [now split; [|exists h]|].
  destruct (form s) eqn:Ef.
  - destruct (internals s); split; try (exists h; now split); rewrite Ef; exact Hp.
  - apply negb_false_iff in Ec. destruct Hp as [Hp|Hp]; congruence.
Qed.

Lemma updateHiddenInput_hiddenKept s : hiddenKept s -> hiddenKept (_updateHiddenInput s).
Proof.
  intros (Hp & h & Hh & Hq). unfold _updateHiddenInput. cbv zeta. rewrite Hh, Hh.
  split; [exact Hp|]. eexists. split; [reflexivity|].
  unfold writeHiddenInput. now destruct (n_checked _).
Qed.

Lemma updateFormValue_hiddenKept s : hiddenKept s -> hiddenKept (_updateFormValue s).
Proof.
  intros H. unfold _updateFormValue. destruct (internals s).
  - destruct (n_checked _); exact H.
  - now apply updateHiddenInput_hiddenKept.
Qed.

Ltac hidden_low :=
  idtac;
  lazymatch goal with
  | |- hiddenKept (_ensureHiddenInput _) => simple apply ensureHiddenInput_hiddenKept
  | |- hiddenKept (_updateHiddenInput _) => simple apply updateHiddenInput_hiddenKept
  | |- hiddenKept (_updateFormValue _) => simple apply updateFormValue_hiddenKept
  | |- hiddenKept (set_position _ _ _) => fail
  | |- hiddenKept (set_hiddenInput _ _) => fail
  | |- hiddenKept (?f ?s) => is_low (f s); apply (hiddenKept_same s); [frame|frame|frame|]
  end.

Ltac keep_hidden := idtac; hidden_low.

Ltac hidden_chain :=
  cbv zeta; repeat first [assumption | chain_step hiddenKept keep_hidden].

Lemma reflectAttribute_hiddenKept name s :
  observed name = true -> hiddenKept s -> hiddenKept (reflectAttribute name s).
Proof.
  intros H Hs. names H; unfold reflectAttribute; eval_names; hidden_chain.
Qed.

Lemma setAttribute_hiddenKept name value s :
  hiddenKept s -> hiddenKept (setAttribute name value s).
Proof.
  intros H. unfold setAttribute. cbv zeta.
  assert (H0 : hiddenKept (setAttribute0 name value s)) by exact H.
  destruct (observed name) eqn:Ho; [|exact H0].
  destruct (decide (getAttribute name s = Some value)) as [E|E].
  - now rewrite E, attributeChangedCallback_same.
  - rewrite attributeChangedCallback_changed by exact E.
    now apply reflectAttribute_hiddenKept.
Qed.

Lemma removeAttribute_hiddenKept name s :
  hiddenKept s -> hiddenKept (removeAttribute name s).
Proof.
  intros H. unfold removeAttribute. destruct (getAttribute name s) eqn:Ea; [|exact H].
  cbv zeta. assert (H0 : hiddenKept (removeAttribute0 name s)) by exact H.
  destruct (observed name) eqn:Ho; [|exact H0].
  rewrite attributeChangedCallback_changed by discriminate.
  now apply reflectAttribute_hiddenKept.
Qed.

Lemma mirrorChecked_hiddenKept s : hiddenKept s -> hiddenKept (mirrorChecked s).
Proof.
  intros H. unfold mirrorChecked.
  destruct (n_checked _);
    [now apply setAttribute_hiddenKept|now apply removeAttribute_hiddenKept].
Qed.

Lemma assign_hiddenKept prop v s : hiddenKept s -> hiddenKept (assign prop v s).
Proof.
  intros H. apply assign_cases; [exact H|..];
    unfold set_checked, set_disabled, set_name, set_value, set_required, set_indeterminate;
    match goal with |- context [if ?c then _ else _] => destruct c end;
    first [now apply setAttribute_hiddenKept | now apply removeAttribute_hiddenKept].
Qed.

Lemma upgradeProperty_hiddenKept prop s :
  hiddenKept s -> hiddenKept (_upgradeProperty prop s).
Proof.
  intros H. unfold _upgradeProperty. destruct (ownProps s !! prop); [|exact H].
  apply assign_hiddenKept. exact H.
Qed.

Ltac keep_hidden ::=
  first
    [ simple apply setAttribute_hiddenKept | simple apply removeAttribute_hiddenKept
    | simple apply mirrorChecked_hiddenKept | simple apply assign_hiddenKept
    | simple apply upgradeProperty_hiddenKept | hidden_low ].

Lemma toggle_hiddenKept s : hiddenKept s -> hiddenKept (toggle s).
Proof. intros H. unfold toggle. hidden_chain. Qed.

Lemma onFormReset_hiddenKept s : hiddenKept s -> hiddenKept (_onFormReset s).
Proof. intros H. unfold _onFormReset. hidden_chain. Qed.

Lemma onNativeInput_hiddenKept s : hiddenKept s -> hiddenKept (_onNativeInput s).
Proof. intros H. unfold _onNativeInput. hidden_chain. Qed.

Lemma onNativeChange_hiddenKept s : hiddenKept s -> hiddenKept (_onNativeChange s).
Proof. intros H. unfold _onNativeChange. hidden_chain. Qed.

Lemma nativeClick_hiddenKept s : hiddenKept s -> hiddenKept (nativeClick s).
Proof.
  intros H. unfold nativeClick. destruct (n_disabled _); [exact H|]. cbv zeta.
  set (s1 := set_native _ s). assert (H1 : hiddenKept s1) by exact H.
  clearbody s1. destruct (isConnected s1); [|exact H1].
  now apply onNativeChange_hiddenKept, onNativeInput_hiddenKept.
Qed.

Lemma onClick_hiddenKept s : hiddenKept s -> hiddenKept (_onClick s).
Proof.
  intros H. unfold _onClick. destruct (get_disabled s); [exact H|].
  apply (hiddenKept_same (nativeClick s)); [reflexivity..|].
  now apply nativeClick_hiddenKept.
Qed.

Lemma onKeyDown_hiddenKept key s : hiddenKept s -> hiddenKept (_onKeyDown key s).
Proof.
  intros H. unfold _onKeyDown. destruct (get_disabled s); [exact H|].
  destruct (togglingKey key); [|exact H].
  now apply (nativeClick_hiddenKept (perform PreventDefault s)).
Qed.

Lemma reportValidity_hiddenKept s : hiddenKept s -> hiddenKept (reportValidity s).1.
Proof.
  intros H. unfold reportValidity. cbv zeta. destruct (internals (_updateValidity s)).
  - destruct (barred _ || valid _); cbn [fst]; hidden_chain.
  - destruct (checkValidity (_updateValidity s)) as [s' ok] eqn:E.
    assert (Hs : s' = _updateValidity (_updateValidity s))
      by (now rewrite <- checkValidity_state, E).
    subst s'. destruct ok; cbn [fst]; hidden_chain.
Qed.

Lemma setCustomValidity_hiddenKept m s : hiddenKept s -> hiddenKept (setCustomValidity m s).
Proof.
  intros H. unfold setCustomValidity. cbv zeta. set (s1 := set_customValidity _ s).
  assert (H1 : hiddenKept s1) by exact H. clearbody s1.
  destruct (internals s1); [destruct (nonEmpty _)|]; hidden_chain.
Qed.

Lemma connectedCallback_hiddenKept s : hiddenKept s -> hiddenKept (connectedCallback s).
Proof. intros H. unfold_cc. hidden_chain. Qed.

Lemma disconnectedCallback_hiddenKept s :
  hiddenKept s -> hiddenKept (disconnectedCallback s).
Proof.
  intros H. unfold disconnectedCallback. cbv zeta.
  destruct (form _) eqn:E; exact H.
Qed.

(** The operation that connects the element outside every form. *)
Definition leavesForms (o : Op) : bool :=
  match o with
  | OPlace true None => true
  | _ => false
  end.

Lemma place_hiddenKept c f s :
  leavesForms (OPlace c f) = false -> hiddenKept s -> hiddenKept (place c f s).
Proof.
  intros Ho (_ & Hh). unfold place. cbv zeta.
  set (s1 := set_position c f s).
  assert (H1 : hiddenKept s1).
  { split; [|exact Hh]. cbn. destruct c; [|now left]. destruct f; [now right|discriminate]. }
  clearbody s1.
  assert (H2 : hiddenKept (if isConnected s then disconnectedCallback s1 else s1))
    by (destruct (isConnected s); [now apply disconnectedCallback_hiddenKept|exact H1]).
  destruct c; [now apply connectedCallback_hiddenKept|exact H2].
Qed.

Lemma step_hiddenKept o s : leavesForms o = false -> hiddenKept s -> hiddenKept (step o s).
Proof.
  intros Ho H.
  destruct o as [name value|name|prop value| | | |message| | | |key|f|c f]; unfold step.
  - now apply setAttribute_hiddenKept.
  - now apply removeAttribute_hiddenKept.
  - now apply assign_hiddenKept.
  - now apply toggle_hiddenKept.
  - rewrite checkValidity_state. hidden_chain.
  - now apply reportValidity_hiddenKept.
  - now apply setCustomValidity_hiddenKept.
  - exact H.
  - exact H.
  - destruct (clickListener s); [now apply onClick_hiddenKept|exact H].
  - destruct (keydownListener s); [now apply onKeyDown_hiddenKept|exact H].
  - destruct (bool_decide _); [now apply onFormReset_hiddenKept|exact H].
  - now apply place_hiddenKept.
Qed.

Lemma run_hiddenKept ops s :
  forallb (fun o => negb (leavesForms o)) ops = true -> hiddenKept s -> hiddenKept (run ops s).
Proof.
  revert s. induction ops as [|o ops IH]; intros s Ho H; [exact H|].
  cbn in Ho. apply andb_true_iff in Ho as (Ho1 & Ho2). apply negb_true_iff in Ho1.
  change (run (o :: ops) s) with (run ops (step o s)).
  apply IH; [exact Ho2|]. now apply step_hiddenKept.
Qed.

End HiddenParent.

(** X15.  Once created, the hidden input stays a child of the form it was
    appended to, through every sequence of operations that does not
    connect the element outside every form: neither a move of the element
    into another form nor its removal from the document moves or removes
    the hidden input (lines 293-324). *)
Theorem hidden_input_stays_in_first_form
    (s : ToggleInput) (h : HiddenInput) (ops : list Op) :
  hiddenInput s = Some h ->
  isConnected s = false \/ form s <> None ->
  forallb (fun o => negb (leavesForms o)) ops = true ->
  exists h', hiddenInput (run ops s) = Some h' /\ h_parent h' = h_parent h.
Proof.
  intros Hh Hp Ho.
  assert (H : hiddenKept (h_parent h) s) by (split; [exact Hp|now exists h]).
  apply (run_hiddenKept (h_parent h) ops s Ho) in H. apply H.
Qed.

Lemma hidden_input_stays_in_first_form_witness :
  exists h',
    hiddenInput (run [OPlace true (Some 2)] (upgrade false ∅ [("name", "n")] true (Some 1))) =
      Some h' /\
    h_parent h' = Some 1.
Proof.
  assert (Hh : hiddenInput (upgrade false ∅ [("name", "n")] true (Some 1)) =
               Some (mkHidden None None (Some 1))) by (vm_compute; reflexivity).
  assert (Hp : isConnected (upgrade false ∅ [("name", "n")] true (Some 1)) = false \/
               form (upgrade false ∅ [("name", "n")] true (Some 1)) <> None)
    by (right; vm_compute; discriminate).
  assert (Ho : forallb (fun o => negb (leavesForms o)) [OPlace true (Some 2)] = true)
    by reflexivity.
  pose proof (hidden_input_stays_in_first_form
                (upgrade false ∅ [("name", "n")] true (Some 1))
                (mkHidden None None (Some 1)) [OPlace true (Some 2)] Hh Hp Ho) as T.
  exact T.
Defined.

(** ** The form value in the connected states *)

(** The element is in no form and has no hidden input: nothing but an
    insertion changes that. *)
Definition outside (s : ToggleInput) : Prop := form s = None /\ hiddenInput s = None.

Lemma outside_same s s' :
  form s' = form s -> hiddenInput s' = hiddenInput s -> outside s -> outside s'.
Proof. unfold outside. now intros -> ->. Qed.

Lemma ensureHiddenInput_outside s : outside s -> outside (_ensureHiddenInput s).
Proof.
  intros H. pose proof H as (Hf & Hh). unfold _ensureHiddenInput. rewrite Hf, Hh.
  destruct (negb _); [exact H|]. destruct (internals s); exact H.
Qed.

Lemma updateHiddenInput_outside s : outside s -> outside (_updateHiddenInput s).
Proof.
  intros H. pose proof (ensureHiddenInput_outside s H) as H1.
  destruct H as (_ & Hh). unfold _updateHiddenInput. cbv zeta. rewrite Hh.
  revert H1. generalize (_ensureHiddenInput s). intros x H1.
  pose proof H1 as (_ & ->). exact H1.
Qed.

Lemma updateFormValue_outside s : outside s -> outside (_updateFormValue s).
Proof.
  intros H. unfold _updateFormValue. destruct (internals s).
  - destruct (n_checked _); exact H.
  - now apply updateHiddenInput_outside.
Qed.

Ltac outside_low :=
  idtac;
  lazymatch goal with
  | |- outside (_ensureHiddenInput _) => simple apply ensureHiddenInput_outside
  | |- outside (_updateHiddenInput _) => simple apply updateHiddenInput_outside
  | |- outside (_updateFormValue _) => simple apply updateFormValue_outside
  | |- outside (set_position _ _ _) => fail
  | |- outside (set_hiddenInput _ _) => fail
  | |- outside (?f ?s) => is_low (f s); apply (outside_same s); [frame|frame|]
  end.

Ltac keep_outside := idtac; outside_low.

Ltac outside_chain :=
  cbv zeta; repeat first [assumption | chain_step outside keep_outside].

Lemma reflectAttribute_outside name s :
  observed name = true -> outside s -> outside (reflectAttribute name s).
Proof.
  intros H Hs. names H; unfold reflectAttribute; eval_names; outside_chain.
Qed.

Lemma setAttribute_outside name value s : outside s -> outside (setAttribute name value s).
Proof.
  intros H. unfold setAttribute. cbv zeta.
  assert (H0 : outside (setAttribute0 name value s)) by exact H.
  destruct (observed name) eqn:Ho; [|exact H0].
  destruct (decide (getAttribute name s = Some value)) as [E|E].
  - now rewrite E, attributeChangedCallback_same.
  - rewrite attributeChangedCallback_changed by exact E.
    now apply reflectAttribute_outside.
Qed.

Lemma removeAttribute_outside name s : outside s -> outside (removeAttribute name s).
Proof.
  intros H. unfold removeAttribute. destruct (getAttribute name s) eqn:Ea; [|exact H].
  cbv zeta. assert (H0 : outside (removeAttribute0 name s)) by exact H.
  destruct (observed name) eqn:Ho; [|exact H0].
  rewrite attributeChangedCallback_changed by discriminate.
  now apply reflectAttribute_outside.
Qed.

Lemma mirrorChecked_outside s : outside s -> outside (mirrorChecked s).
Proof.
  intros H. unfold mirrorChecked.
  destruct (n_checked _); [now apply setAttribute_outside|now apply removeAttribute_outside].
Qed.

Lemma assign_outside prop v s : outside s -> outside (assign prop v s).
Proof.
  intros H. apply assign_cases; [exact H|..];
    unfold set_checked, set_disabled, set_name, set_value, set_required, set_indeterminate;
    match goal with |- context [if ?c then _ else _] => destruct c end;
    first [now apply setAttribute_outside | now apply removeAttribute_outside].
Qed.

Ltac keep_outside ::=
  first
    [ simple apply setAttribute_outside | simple apply removeAttribute_outside
    | simple apply mirrorChecked_outside | simple apply assign_outside
    | outside_low ].

Lemma toggle_outside s : outside s -> outside (toggle s).
Proof. intros H. unfold toggle. outside_chain. Qed.

Lemma onFormReset_outside s : outside s -> outside (_onFormReset s).
Proof. intros H. unfold _onFormReset. outside_chain. Qed.

Lemma onNativeInput_outside s : outside s -> outside (_onNativeInput s).
Proof. intros H. unfold _onNativeInput. outside_chain. Qed.

Lemma onNativeChange_outside s : outside s -> outside (_onNativeChange s).
Proof. intros H. unfold _onNativeChange. outside_chain. Qed.

Lemma nativeClick_outside s : outside s -> outside (nativeClick s).
Proof.
  intros H. unfold nativeClick. destruct (n_disabled _); [exact H|]. cbv zeta.
  set (s1 := set_native _ s). assert (H1 : outside s1) by exact H.
  clearbody s1. destruct (isConnected s1); [|exact H1].
  now apply onNativeChange_outside, onNativeInput_outside.
Qed.

Lemma reportValidity_outside s : outside s -> outside (reportValidity s).1.
Proof.
  intros H. unfold reportValidity. cbv zeta. destruct (internals (_updateValidity s)).
  - destruct (barred _ || valid _); cbn [fst]; outside_chain.
  - destruct (checkValidity (_updateValidity s)) as [s' ok] eqn:E.
    assert (Hs : s' = _updateValidity (_updateValidity s))
      by (now rewrite <- checkValidity_state, E).
    subst s'. destruct ok; cbn [fst]; outside_chain.
Qed.

Lemma setCustomValidity_outside m s : outside s -> outside (setCustomValidity m s).
Proof.
  intros H. unfold setCustomValidity. cbv zeta. set (s1 := set_customValidity _ s).
  assert (H1 : outside s1) by exact H. clearbody s1.
  destruct (internals s1); [destruct (nonEmpty _)|]; outside_chain.
Qed.

Lemma step_outside o s : isPlace o = false -> outside s -> outside (step o s).
Proof.
  intros Ho H.
  destruct o as [name value|name|prop value| | | |message| | | |key|f|c f];
    try discriminate; unfold step.
  - now apply setAttribute_outside.
  - now apply removeAttribute_outside.
  - now apply assign_outside.
  - now apply toggle_outside.
  - rewrite checkValidity_state. outside_chain.
  - now apply reportValidity_outside.
  - now apply setCustomValidity_outside.
  - exact H.
  - exact H.
  - destruct (clickListener s); [|exact H]. unfold _onClick.
    destruct (get_disabled s); [exact H|].
    apply (outside_same (nativeClick s)); [reflexivity..|].
    now apply nativeClick_outside.
  - destruct (keydownListener s); [|exact H]. unfold _onKeyDown.
    destruct (get_disabled s); [exact H|]. destruct (togglingKey key); [|exact H].
    now apply (nativeClick_outside (perform PreventDefault s)).
  - destruct (bool_decide _); [now apply onFormReset_outside|exact H].
Qed.

(** A connected element outside every form has no hidden input. *)
Definition hiddenInForm (s : ToggleInput) : Prop :=
  isConnected s = true -> form s = None -> hiddenInput s = None.

Lemma hiddenInForm_keep s s' :
  sameHost s s' -> (outside s -> outside s') -> hiddenInForm s -> hiddenInForm s'.
Proof.
  intros [_ _ Ec Ef _ _ _] Ho H Hc Hf. rewrite Ec in Hc. rewrite Ef in Hf.
  apply Ho. split; [exact Hf|now apply H].
Qed.

Lemma connectedCallback_hiddenInForm s : hiddenInForm (connectedCallback s).
Proof.
  intros Hc Hf. destruct (connectedCallback_place s) as (Ec & Ef).
  apply connectedCallback_removes; congruence.
Qed.

Lemma place_hiddenInForm c f s : hiddenInForm (place c f s).
Proof.
  unfold place. cbv zeta. destruct c; [apply connectedCallback_hiddenInForm|].
  intros Hc. exfalso. revert Hc.
  destruct (disconnectedCallback_fields (set_position false f s)) as (_ & _ & (E & _) & _).
  destruct (isConnected s); [rewrite E|]; discriminate.
Qed.

Lemma step_hiddenInForm o s : hiddenInForm s -> hiddenInForm (step o s).
Proof.
  intros H. destruct (isPlace o) eqn:Ho.
  - destruct o; try discriminate. apply place_hiddenInForm.
  - apply (hiddenInForm_keep s); [now apply step_host|now apply step_outside|exact H].
Qed.

Lemma run_hiddenInForm ops s : hiddenInForm s -> hiddenInForm (run ops s).
Proof.
  revert s. induction ops as [|o ops IH]; intros s H; [exact H|].
  change (run (o :: ops) s) with (run ops (step o s)).
  apply IH. now apply step_hiddenInForm.
Qed.

Lemma upgrade_hiddenInForm ai own atts c f : hiddenInForm (upgrade ai own atts c f).
Proof.
  unfold upgrade. cbv zeta. destruct c; [apply connectedCallback_hiddenInForm|].
  set (s0 := set_position false f (set_attrs _ (constructor ai own))).
  assert (H0 : hiddenInForm s0) by (intros _ _; reflexivity).
  clearbody s0. revert s0 H0.
  induction atts as [|a atts IH]; intros s0 H0; [exact H0|].
  cbn [fold_left]. apply IH.
  apply (hiddenInForm_keep s0); [apply upgradeReaction_host| |exact H0].
  intros Ho. unfold upgradeReaction. destruct (observed a.1) eqn:E; [|exact Ho].
  rewrite attributeChangedCallback_changed by discriminate.
  now apply reflectAttribute_outside.
Qed.

(** X19.  Take a page that assigns to the properties of the class only, and
    an element that is never put into a form other than [f0].  In every
    connected state no own property shadows [name] or [value], and what
    the form is given follows the checked state.  With [ElementInternals]
    there is no hidden input and the form value is the [value] property
    when the element is checked and [null] otherwise.  On the fallback
    path the hidden input is a child of the element's form and carries the
    [name] attribute and the [value] property when the element is checked,
    and neither attribute otherwise; and an element with a non-empty name
    inside a form has its hidden input (lines 142-144, 172-175, 293-333). *)
Theorem form_value_follows_checked
    (ai : bool) (own : gmap string JSVal) (atts : list (string * string))
    (c : bool) (f : option nat) (ops : list Op) (f0 : nat) :
  f = None \/ f = Some f0 ->
  forallb (staysIn f0) ops = true -> forallb pageOp ops = true ->
  let s := run ops (upgrade ai own atts c f) in
  isConnected s = true ->
  (this_name s = ofAttribute (get_name s) /\ this_value s = JStr (get_value s)) /\
  (forall i, internals s = Some i ->
     hiddenInput s = None /\
     formValue i = if get_checked s then Some (get_value s) else None) /\
  (forall h, hiddenInput s = Some h ->
     internals s = None /\
     h_parent h = form s /\
     h_name h = (if get_checked s then Some (orElse (get_name s) "") else None) /\
     h_value h = (if get_checked s then Some (get_value s) else None)) /\
  (internals s = None -> form s <> None -> truthyStr (get_name s) = true ->
   hiddenInput s <> None).
Proof.
  intros Hf Hstay _ s Hc.
  pose proof (run_Inv ops _ (upgrade_Inv ai own atts c f)) as HI.
  pose proof (run_hiddenHome f0 ops _ Hstay (upgrade_hiddenHome f0 ai own atts c f Hf)) as HH.
  pose proof (run_hiddenInForm ops _ (upgrade_hiddenInForm ai own atts c f)) as HK.
  fold s in HI, HH, HK. clearbody s.
  destruct HI as (_ & (Hfb & Hcs) & _).
  destruct (Hcs Hc) as ((_ & _ & Hn & Hv & _) & ((Hi & Hh) & Hp & _)).
  pose proof (this_name_unshadowed s Hn) as En.
  pose proof (this_value_unshadowed s Hv) as Ev.
  rewrite Ev in Hi. rewrite En, Ev in Hh. unfold hiddenPresent in Hp. rewrite En, truthy_ofAttribute in Hp.
  split; [now split|]. split; [|split].
  - intros i E. split; [destruct Hfb as [Hfb|Hfb]; [congruence|exact Hfb]|].
    now apply Hi.
  - intros h E. split; [destruct Hfb as [Hfb|Hfb]; [exact Hfb|congruence]|].
    destruct HH as (Hform & Hpar). split.
    + rewrite (Hpar h E). destruct Hform as [Hform|Hform]; [|now rewrite Hform].
      specialize (HK Hc Hform). congruence.
    + destruct (Hh h E) as (H1 & H2). rewrite orEmpty_ofAttribute in H1. now split.
  - intros Hint Hform Hname. now apply Hp.
Qed.

Lemma form_value_follows_checked_witness :
  exists h,
    hiddenInput (run [OToggle; OPlace true (Some 1)]
                   (upgrade false ∅ [("name", "n"); ("value", "v")] true (Some 1))) = Some h /\
    h_parent h = Some 1 /\ h_name h = Some "n" /\ h_value h = Some "v".
Proof.
  assert (Hs : forallb (staysIn 1) [OToggle; OPlace true (Some 1)] = true)
    by (vm_compute; reflexivity).
  assert (Hp : forallb pageOp [OToggle; OPlace true (Some 1)] = true)
    by (vm_compute; reflexivity).
  assert (Hc : isConnected (run [OToggle; OPlace true (Some 1)]
                 (upgrade false ∅ [("name", "n"); ("value", "v")] true (Some 1))) = true)
    by (vm_compute; reflexivity).
  assert (Hh : hiddenInput (run [OToggle; OPlace true (Some 1)]
                 (upgrade false ∅ [("name", "n"); ("value", "v")] true (Some 1))) =
               Some (mkHidden (Some "n") (Some "v") (Some 1)))
    by (vm_compute; reflexivity).
  assert (Hf : form (run [OToggle; OPlace true (Some 1)]
                 (upgrade false ∅ [("name", "n"); ("value", "v")] true (Some 1))) = Some 1)
    by (vm_compute; reflexivity).
  assert (Hk : get_checked (run [OToggle; OPlace true (Some 1)]
                 (upgrade false ∅ [("name", "n"); ("value", "v")] true (Some 1))) = true)
    by (vm_compute; reflexivity).
  assert (Hn : get_name (run [OToggle; OPlace true (Some 1)]
                 (upgrade false ∅ [("name", "n"); ("value", "v")] true (Some 1))) = Some "n")
    by (vm_compute; reflexivity).
  assert (Hv : get_value (run [OToggle; OPlace true (Some 1)]
                 (upgrade false ∅ [("name", "n"); ("value", "v")] true (Some 1))) = "v")
    by (vm_compute; reflexivity).
  pose proof (form_value_follows_checked false ∅ [("name", "n"); ("value", "v")] true
                (Some 1) [OToggle; OPlace true (Some 1)] 1 (or_intror eq_refl) Hs Hp Hc) as T.
  destruct T as (_ & _ & T & _).
  exists (mkHidden (Some "n") (Some "v") (Some 1)). split; [exact Hh|].
  destruct (T _ Hh) as (_ & T1 & T2 & T3).
  rewrite Hf in T1. rewrite Hk, Hn in T2. rewrite Hk, Hv in T3.
  split; [exact T1|]. split; [exact T2|exact T3].
Defined.

(** ** Validity in the reachable states *)

(** The validity kept by the [ElementInternals] gives the right answer:
    the custom error flag says whether there is a custom message and,
    without one, [valueMissing] says whether a required element is
    unchecked, [required] being what [this.required] reads.  Without
    internals [aria-invalid] says the same. *)
Definition validityKnown (s : ToggleInput) : Prop :=
  let missing := this_required s && negb (get_checked s) in
  match internals s with
  | Some i =>
      customError i = nonEmpty (customValidity s) /\
      (customError i = false -> valueMissing i = missing)
  | None =>
      getAttribute "aria-invalid" s =
      if missing || nonEmpty (customValidity s) then Some "true" else None
  end.

Lemma validityCurrent_known s : validityCurrent s -> validityKnown s.
Proof.
  unfold validityCurrent, validityKnown. cbv zeta.
  destruct (internals s); [|exact id]. intros (-> & ->). now split.
Qed.

Lemma updateValidity_known s : validityKnown (_updateValidity s).
Proof. apply validityCurrent_known, updateValidity_current. Qed.

(** All that [validityKnown] reads. *)
Definition validityView (s : ToggleInput) :=
  (n_checked (native s), this_required s, attrs s !! "aria-invalid",
   customValidity s,
   (fun i => (valueMissing i, customError i)) <$> internals s).

Lemma validityKnown_view s s' :
  validityView s' = validityView s -> validityKnown s -> validityKnown s'.
Proof.
  unfold validityView. intros E. injection E as E1 E2 E3 E4 E5.
  unfold validityKnown, get_checked, getAttribute. cbv zeta.
  rewrite E1, E2, E3, E4.
  destruct (internals s) as [i|], (internals s') as [i'|]; try discriminate; [|exact id].
  cbn in E5. injection E5 as -> ->. exact id.
Qed.

Lemma render_validityView s : validityView (_render s) = validityView s.
Proof.
  unfold validityView. rewrite render_aria_invalid, (proj2 (render_reads s)).
  push. reflexivity.
Qed.

Lemma ensureHiddenInput_validityView s : validityView (_ensureHiddenInput s) = validityView s.
Proof. unfold validityView, this_required, get_required, hasAttribute. push. reflexivity. Qed.

Lemma updateHiddenInput_validityView s : validityView (_updateHiddenInput s) = validityView s.
Proof. unfold validityView, this_required, get_required, hasAttribute. push. reflexivity. Qed.

Lemma updateFormValue_validityView s : validityView (_updateFormValue s) = validityView s.
Proof.
  unfold validityView.
  assert (E : (fun i => (valueMissing i, customError i)) <$> internals (_updateFormValue s) =
              (fun i => (valueMissing i, customError i)) <$> internals s).
  { unfold _updateFormValue. destruct (internals s) eqn:Ei.
    - destruct (n_checked _); reflexivity.
    - rewrite updateHiddenInput_shape. cbn. now rewrite Ei. }
  rewrite E. unfold this_required, get_required, hasAttribute. push. reflexivity.
Qed.

Ltac validity_low :=
  idtac;
  lazymatch goal with
  | |- validityKnown (_render ?s) =>
      apply (validityKnown_view s); [apply render_validityView|]
  | |- validityKnown (_ensureHiddenInput ?s) =>
      apply (validityKnown_view s); [apply ensureHiddenInput_validityView|]
  | |- validityKnown (_updateHiddenInput ?s) =>
      apply (validityKnown_view s); [apply updateHiddenInput_validityView|]
  | |- validityKnown (_updateFormValue ?s) =>
      apply (validityKnown_view s); [apply updateFormValue_validityView|]
  | |- validityKnown (setAttribute0 _ _ _) => fail
  | |- validityKnown (removeAttribute0 _ _) => fail
  | |- validityKnown (set_attrs _ _) => fail
  | |- validityKnown (set_internals _ _) => fail
  | |- validityKnown (set_customValidity _ _) => fail
  | |- validityKnown (?f ?s) => is_low (f s); apply (validityKnown_view s); [reflexivity|]
  end.

Ltac keep_validity := idtac; validity_low.

Ltac validity_chain :=
  cbv zeta;
  repeat first
    [ assumption
    | simple apply updateValidity_known
    | chain_step validityKnown keep_validity ].

Lemma setAttribute0_validityKnown name value s :
  name <> "required" -> name <> "aria-invalid" ->
  validityKnown s -> validityKnown (setAttribute0 name value s).
Proof.
  intros H4 H5. apply validityKnown_view.
  unfold validityView, this_required, get_required, hasAttribute. cbn.
  now rewrite !lookup_insert_ne by congruence.
Qed.

Lemma removeAttribute0_validityKnown name s :
  name <> "required" -> name <> "aria-invalid" ->
  validityKnown s -> validityKnown (removeAttribute0 name s).
Proof.
  intros H4 H5. apply validityKnown_view.
  unfold validityView, this_required, get_required, hasAttribute. cbn.
  now rewrite !lookup_delete_ne by congruence.
Qed.

Ltac keep_validity ::=
  first
    [ simple apply setAttribute0_validityKnown; [discriminate|discriminate|]
    | simple apply removeAttribute0_validityKnown; [discriminate|discriminate|]
    | validity_low ].

(** A reaction that ends with [_updateValidity] makes the validity right;
    the others follow a change of an attribute the validity does not
    read. *)
Lemma reflectAttribute_set_validityKnown name value s :
  observed name = true -> validityKnown s ->
  validityKnown (reflectAttribute name (setAttribute0 name value s)).
Proof.
  intros H Hs. names H; unfold reflectAttribute; eval_names; validity_chain.
Qed.

Lemma reflectAttribute_remove_validityKnown name s :
  observed name = true -> validityKnown s ->
  validityKnown (reflectAttribute name (removeAttribute0 name s)).
Proof.
  intros H Hs. names H; unfold reflectAttribute; eval_names; validity_chain.
Qed.

Lemma unobserved_free name :
  internalAttr name = false -> observed name = false ->
  name <> "required" /\ name <> "aria-invalid".
Proof.
  intros Hk Ho. split; intros ->; [vm_compute in Ho|vm_compute in Hk]; discriminate.
Qed.

Lemma setAttribute_validityKnown name value s :
  internalAttr name = false -> validityKnown s -> validityKnown (setAttribute name value s).
Proof.
  intros Hk H. unfold setAttribute. cbv zeta. destruct (observed name) eqn:Ho.
  - destruct (decide (getAttribute name s = Some value)) as [E|E].
    + rewrite E, attributeChangedCallback_same, setAttribute0_same by exact E. exact H.
    + rewrite attributeChangedCallback_changed by exact E.
      now apply reflectAttribute_set_validityKnown.
  - destruct (unobserved_free name Hk Ho). now apply setAttribute0_validityKnown.
Qed.

Lemma removeAttribute_validityKnown name s :
  internalAttr name = false -> validityKnown s -> validityKnown (removeAttribute name s).
Proof.
  intros Hk H. unfold removeAttribute. destruct (getAttribute name s) eqn:Ea; [|exact H].
  cbv zeta. destruct (observed name) eqn:Ho.
  - rewrite attributeChangedCallback_changed by discriminate.
    now apply reflectAttribute_remove_validityKnown.
  - destruct (unobserved_free name Hk Ho). now apply removeAttribute0_validityKnown.
Qed.

Lemma mirrorChecked_validityKnown s : validityKnown s -> validityKnown (mirrorChecked s).
Proof.
  intros H. unfold mirrorChecked.
  destruct (n_checked _);
    [now apply setAttribute_validityKnown|now apply removeAttribute_validityKnown].
Qed.

Lemma assign_validityKnown prop v s :
  unshadowed "required" s -> validityKnown s -> validityKnown (assign prop v s).
Proof.
  intros Hu H. apply assign_cases_required; [exact Hu| |..];
    [intros Hp; apply (validityKnown_view s); [|exact H];
     unfold validityView; now rewrite this_required_expando by exact Hp|..];
    unfold set_checked, set_disabled, set_name, set_value, set_required, set_indeterminate;
    match goal with |- context [if ?c then _ else _] => destruct c end;
    first [now apply setAttribute_validityKnown | now apply removeAttribute_validityKnown].
Qed.

Lemma toggle_validityKnown s : validityKnown (toggle s).
Proof. unfold toggle. validity_chain. Qed.

Lemma onFormReset_validityKnown s : validityKnown (_onFormReset s).
Proof. unfold _onFormReset. validity_chain. Qed.

Lemma onNativeInput_validityKnown s : validityKnown (_onNativeInput s).
Proof. unfold _onNativeInput. validity_chain. Qed.

Lemma onNativeChange_validityKnown s : validityKnown (_onNativeChange s).
Proof. unfold _onNativeChange. validity_chain. Qed.

(** Away from a document the click would flip the native checkbox and
    leave the validity behind. *)
Lemma nativeClick_validityKnown s :
  isConnected s = true -> validityKnown s -> validityKnown (nativeClick s).
Proof.
  intros Hc H. unfold nativeClick. destruct (n_disabled _); [exact H|]. cbv zeta.
  set (s1 := set_native _ s). assert (H1 : isConnected s1 = true) by exact Hc.
  clearbody s1. rewrite H1. apply onNativeChange_validityKnown.
Qed.

Lemma onClick_validityKnown s :
  isConnected s = true -> validityKnown s -> validityKnown (_onClick s).
Proof.
  intros Hc H. unfold _onClick. destruct (get_disabled s); [exact H|].
  apply (validityKnown_view (nativeClick s)); [reflexivity|].
  now apply nativeClick_validityKnown.
Qed.

Lemma onKeyDown_validityKnown key s :
  isConnected s = true -> validityKnown s -> validityKnown (_onKeyDown key s).
Proof.
  intros Hc H. unfold _onKeyDown. destruct (get_disabled s); [exact H|].
  destruct (togglingKey key); [|exact H].
  now apply (nativeClick_validityKnown (perform PreventDefault s)).
Qed.

Lemma reportValidity_validityKnown s : validityKnown (reportValidity s).1.
Proof.
  unfold reportValidity. cbv zeta. destruct (internals (_updateValidity s)).
  - destruct (barred _ || valid _); cbn [fst]; validity_chain.
  - destruct (checkValidity (_updateValidity s)) as [s' ok] eqn:E.
    assert (Hs : s' = _updateValidity (_updateValidity s))
      by (now rewrite <- checkValidity_state, E).
    subst s'. destruct ok; cbn [fst]; validity_chain.
Qed.

Lemma setCustomValidity_validityKnown m s : validityKnown (setCustomValidity m s).
Proof.
  unfold setCustomValidity. cbv zeta. set (s1 := set_customValidity _ s). clearbody s1.
  destruct (internals s1) eqn:Ei; [|apply updateValidity_known].
  destruct (nonEmpty _) eqn:En; [|apply updateValidity_known].
  unfold validityKnown. cbv zeta. cbn. rewrite En. split; [reflexivity|discriminate].
Qed.

Lemma connectedCallback_validityKnown s : validityKnown (connectedCallback s).
Proof.
  unfold connectedCallback. generalize (cc_listen (cc_upgrade (cc_capture (cc_prepare s)))).
  intros x. unfold cc_finish, cc_form. validity_chain.
Qed.

Lemma disconnectedCallback_validityKnown s :
  validityKnown s -> validityKnown (disconnectedCallback s).
Proof.
  intros H. unfold disconnectedCallback. cbv zeta.
  destruct (form _); exact H.
Qed.

Lemma place_validityKnown c f s : validityKnown s -> validityKnown (place c f s).
Proof.
  intros H. unfold place. cbv zeta. destruct c; [apply connectedCallback_validityKnown|].
  set (s1 := set_position false f s). assert (H1 : validityKnown s1) by exact H.
  clearbody s1. destruct (isConnected s); [|exact H1].
  now apply disconnectedCallback_validityKnown.
Qed.

Lemma step_validityKnown o s :
  writesInternalAttr o = false -> listening s -> unshadowed "required" s ->
  validityKnown s -> validityKnown (step o s).
Proof.
  intros Ho (Hl1 & Hl2) Hu H.
  destruct o as [name value|name|prop value| | | |message| | | |key|f|c f]; unfold step.
  - now apply setAttribute_validityKnown.
  - now apply removeAttribute_validityKnown.
  - now apply assign_validityKnown.
  - apply toggle_validityKnown.
  - rewrite checkValidity_state. apply updateValidity_known.
  - apply reportValidity_validityKnown.
  - apply setCustomValidity_validityKnown.
  - exact H.
  - exact H.
  - destruct (clickListener s) eqn:E; [|exact H].
    apply onClick_validityKnown; [congruence|exact H].
  - destruct (keydownListener s) eqn:E; [|exact H].
    apply onKeyDown_validityKnown; [congruence|exact H].
  - destruct (bool_decide _); [|exact H]. apply onFormReset_validityKnown.
  - now apply place_validityKnown.
Qed.

Lemma run_validityKnown ops s :
  forallb (fun o => negb (writesInternalAttr o)) ops = true ->
  Inv s -> unshadowed "required" s -> validityKnown s -> validityKnown (run ops s).
Proof.
  revert s. induction ops as [|o ops IH]; intros s Ho HI Hu H; [exact H|].
  cbn in Ho. apply andb_true_iff in Ho as (Ho1 & Ho2).
  apply negb_true_iff in Ho1.
  change (run (o :: ops) s) with (run ops (step o s)).
  apply IH; [exact Ho2|now apply step_Inv|now apply step_unshadowed|].
  apply step_validityKnown; [exact Ho1|apply HI|exact Hu|exact H].
Qed.

Lemma validityKnown_reads s :
  validityKnown s ->
  match internals s with
  | Some i =>
      valid i =
      negb (this_required s && negb (get_checked s)) && negb (nonEmpty (customValidity s))
  | None =>
      getAttribute "aria-invalid" s =
      if (this_required s && negb (get_checked s)) || nonEmpty (customValidity s)
      then Some "true" else None
  end.
Proof.
  unfold validityKnown. cbv zeta. destruct (internals s) as [i|]; [|exact id].
  intros (Hc & Hm). unfold valid. rewrite <- Hc.
  destruct (customError i); [now rewrite orb_true_r, andb_false_r|].
  rewrite Hm by reflexivity. now rewrite orb_false_r, andb_true_r.
Qed.

(** X16.  Take an element that had no [required] property assigned before
    its upgrade, and a page that assigns to the properties of the class
    only.  Once the element has been connected, its validity is right at
    every moment, without a call of [checkValidity]: through every
    sequence of operations in which the page does not write the
    component's own ARIA attributes, [this.required] is the presence of the
    [required] attribute, the [ElementInternals] report the element valid
    exactly when it is not required-and-unchecked and has no custom
    message; without internals, [aria-invalid="true"] is on the host
    exactly when the element is invalid in that sense
    (lines 142-143, 176-178, 232, 244, 255, 265, 335-349, 367-373). *)
Theorem validity_follows_state
    (ai : bool) (own : gmap string JSVal) (atts : list (string * string))
    (c : bool) (f f' : option nat) (before after : list Op) :
  own !! "required" = None ->
  forallb pageOp before = true -> forallb pageOp after = true ->
  forallb (fun o => negb (writesInternalAttr o)) after = true ->
  let s := run after (place true f' (run before (upgrade ai own atts c f))) in
  this_required s = hasAttribute "required" s /\
  match internals s with
  | Some i =>
      valid i =
      negb (get_required s && negb (get_checked s)) && negb (nonEmpty (customValidity s))
  | None =>
      getAttribute "aria-invalid" s =
      if (get_required s && negb (get_checked s)) || nonEmpty (customValidity s)
      then Some "true" else None
  end.
Proof.
  intros Hown _ _ Ho s.
  assert (Hu1 : unshadowed "required" (place true f' (run before (upgrade ai own atts c f)))).
  { apply (place_unshadowed "required" eq_refl), (run_unshadowed "required" eq_refl).
    now apply upgrade_unshadowed. }
  assert (Hu : unshadowed "required" s)
    by (unfold s; now apply (run_unshadowed "required" eq_refl)).
  assert (H : validityKnown s).
  { unfold s. apply run_validityKnown; [exact Ho| |exact Hu1|].
    - apply place_Inv, run_Inv, upgrade_Inv.
    - unfold place. cbv zeta. apply connectedCallback_validityKnown. }
  clearbody s. clear Hu1.
  pose proof (validityKnown_reads s H) as R.
  rewrite (this_required_unshadowed s Hu) in R.
  split; [now apply this_required_unshadowed|exact R].
Qed.

Lemma validity_follows_state_witness :
  getAttribute "aria-invalid"
    (run [OSetAttribute "required" ""; OToggle; OToggle]
       (place true None (run [] (upgrade false ∅ [] false None)))) = Some "true".
Proof.
  assert (Ho : forallb (fun o => negb (writesInternalAttr o))
                 [OSetAttribute "required" ""; OToggle; OToggle] = true)
    by (vm_compute; reflexivity).
  assert (Hp : forallb pageOp [OSetAttribute "required" ""; OToggle; OToggle] = true)
    by (vm_compute; reflexivity).
  pose proof (validity_follows_state false ∅ [] false None None []
                [OSetAttribute "required" ""; OToggle; OToggle] eq_refl eq_refl Hp Ho) as T.
  cbv zeta in T. destruct T as (_ & T).
  assert (Hi : internals
                 (run [OSetAttribute "required" ""; OToggle; OToggle]
                    (place true None (run [] (upgrade false ∅ [] false None)))) = None)
    by (vm_compute; reflexivity).
  rewrite Hi in T.
  assert (Hm : (get_required
                  (run [OSetAttribute "required" ""; OToggle; OToggle]
                     (place true None (run [] (upgrade false ∅ [] false None)))) &&
                negb (get_checked
                  (run [OSetAttribute "required" ""; OToggle; OToggle]
                     (place true None (run [] (upgrade false ∅ [] false None))))) ||
                nonEmpty (customValidity
                  (run [OSetAttribute "required" ""; OToggle; OToggle]
                     (place true None (run [] (upgrade false ∅ [] false None)))))) = true)
    by (vm_compute; reflexivity).
  rewrite Hm in T. exact T.
Defined.

(** ** The [indeterminate] property and its attribute *)

(** The property is never true without the attribute. *)
Definition indeterminateBacked (s : ToggleInput) : Prop :=
  get_indeterminate s = true -> hasAttribute "indeterminate" s = true.

Definition indeterminateView (s : ToggleInput) :=
  (n_indeterminate (native s), attrs s !! "indeterminate").

Lemma indeterminateBacked_view s s' :
  indeterminateView s' = indeterminateView s ->
  indeterminateBacked s -> indeterminateBacked s'.
Proof.
  unfold indeterminateView. intros E. injection E as E1 E2.
  unfold indeterminateBacked, get_indeterminate, hasAttribute. now rewrite E1, E2.
Qed.

Lemma indeterminateBacked_clear s :
  n_indeterminate (native s) = false -> indeterminateBacked s.
Proof. unfold indeterminateBacked, get_indeterminate. now intros ->. Qed.

Lemma indeterminateBacked_reflected s :
  indeterminateBacked (set_native (nat_indeterminate (hasAttribute "indeterminate" s)) s).
Proof. unfold indeterminateBacked, get_indeterminate. cbn. exact id. Qed.

Lemma setAttribute0_indeterminateBacked name value s :
  indeterminateBacked s -> indeterminateBacked (setAttribute0 name value s).
Proof.
  unfold indeterminateBacked, get_indeterminate, hasAttribute. cbn. intros H Hn.
  destruct (decide (name = "indeterminate")) as [->|Hne].
  - now rewrite lookup_insert_eq.
  - rewrite lookup_insert_ne by congruence. now apply H.
Qed.

Lemma removeAttribute0_indeterminateBacked name s :
  name <> "indeterminate" ->
  indeterminateBacked s -> indeterminateBacked (removeAttribute0 name s).
Proof.
  intros Hne. apply indeterminateBacked_view. unfold indeterminateView. cbn.
  now rewrite lookup_delete_ne by congruence.
Qed.

Ltac indeterminate_low :=
  idtac;
  lazymatch goal with
  | |- indeterminateBacked (setAttribute0 _ _ _) => fail
  | |- indeterminateBacked (removeAttribute0 _ _) => fail
  | |- indeterminateBacked (set_attrs _ _) => fail
  | |- indeterminateBacked (?f ?s) =>
      is_low (f s); apply (indeterminateBacked_view s);
      [unfold indeterminateView; first [reflexivity | push; reflexivity]|]
  end.

Ltac keep_indeterminate :=
  first
    [ simple apply setAttribute0_indeterminateBacked
    | simple apply removeAttribute0_indeterminateBacked; [discriminate|]
    | indeterminate_low ].

Ltac indeterminate_chain :=
  cbv zeta;
  repeat first
    [ assumption
    | simple apply indeterminateBacked_reflected
    | chain_step indeterminateBacked keep_indeterminate ].

Lemma reflectAttribute_indeterminateBacked name s :
  observed name = true -> indeterminateBacked s ->
  indeterminateBacked (reflectAttribute name s).
Proof.
  intros H Hs. names H; unfold reflectAttribute; eval_names; indeterminate_chain.
Qed.

Lemma reflectAttribute_indeterminate_backed s :
  indeterminateBacked (reflectAttribute "indeterminate" s).
Proof. unfold reflectAttribute; eval_names; indeterminate_chain. Qed.

Lemma setAttribute_indeterminateBacked name value s :
  indeterminateBacked s -> indeterminateBacked (setAttribute name value s).
Proof.
  intros H. unfold setAttribute. cbv zeta.
  assert (H0 : indeterminateBacked (setAttribute0 name value s))
    by now apply setAttribute0_indeterminateBacked.
  destruct (observed name) eqn:Ho; [|exact H0].
  destruct (decide (getAttribute name s = Some value)) as [E|E].
  - now rewrite E, attributeChangedCallback_same.
  - rewrite attributeChangedCallback_changed by exact E.
    now apply reflectAttribute_indeterminateBacked.
Qed.

Lemma removeAttribute_indeterminateBacked name s :
  indeterminateBacked s -> indeterminateBacked (removeAttribute name s).
Proof.
  intros H. unfold removeAttribute. destruct (getAttribute name s) eqn:Ea; [|exact H].
  cbv zeta. destruct (decide (name = "indeterminate")) as [->|Hne].
  - assert (Ho : observed "indeterminate" = true) by reflexivity. rewrite Ho.
    rewrite attributeChangedCallback_changed by discriminate.
    apply reflectAttribute_indeterminate_backed.
  - assert (H0 : indeterminateBacked (removeAttribute0 name s))
      by now apply removeAttribute0_indeterminateBacked.
    destruct (observed name) eqn:Ho; [|exact H0].
    rewrite attributeChangedCallback_changed by discriminate.
    now apply reflectAttribute_indeterminateBacked.
Qed.

Lemma mirrorChecked_indeterminateBacked s :
  indeterminateBacked s -> indeterminateBacked (mirrorChecked s).
Proof.
  intros H. unfold mirrorChecked.
  destruct (n_checked _);
    [now apply setAttribute_indeterminateBacked|now apply removeAttribute_indeterminateBacked].
Qed.

Lemma assign_indeterminateBacked prop v s :
  indeterminateBacked s -> indeterminateBacked (assign prop v s).
Proof.
  intros H. apply assign_cases; [exact H|..];
    unfold set_checked, set_disabled, set_name, set_value, set_required, set_indeterminate;
    match goal with |- context [if ?c then _ else _] => destruct c end;
    first [ now apply setAttribute_indeterminateBacked
          | now apply removeAttribute_indeterminateBacked ].
Qed.

Lemma upgradeProperty_indeterminateBacked prop s :
  indeterminateBacked s -> indeterminateBacked (_upgradeProperty prop s).
Proof.
  intros H. unfold _upgradeProperty. destruct (ownProps s !! prop); [|exact H].
  apply assign_indeterminateBacked. exact H.
Qed.

Ltac keep_indeterminate ::=
  first
    [ simple apply setAttribute_indeterminateBacked
    | simple apply removeAttribute_indeterminateBacked
    | simple apply mirrorChecked_indeterminateBacked
    | simple apply assign_indeterminateBacked
    | simple apply upgradeProperty_indeterminateBacked
    | simple apply setAttribute0_indeterminateBacked
    | simple apply removeAttribute0_indeterminateBacked; [discriminate|]
    | indeterminate_low ].

Lemma toggle_indeterminateBacked s : indeterminateBacked (toggle s).
Proof.
  unfold toggle. cbv zeta. set (s1 := set_native _ s). clearbody s1.
  assert (H : indeterminateBacked
                (if n_indeterminate (native s1)
                 then set_native (nat_indeterminate false) s1 else s1)).
  { apply indeterminateBacked_clear. now destruct (n_indeterminate (native s1)) eqn:E. }
  revert H. generalize (if n_indeterminate (native s1)
                        then set_native (nat_indeterminate false) s1 else s1).
  intros x H. indeterminate_chain.
Qed.

Lemma onFormReset_indeterminateBacked s :
  indeterminateBacked s -> indeterminateBacked (_onFormReset s).
Proof. intros H. unfold _onFormReset. indeterminate_chain. Qed.

Lemma onNativeInput_indeterminateBacked s :
  indeterminateBacked s -> indeterminateBacked (_onNativeInput s).
Proof. intros H. unfold _onNativeInput. indeterminate_chain. Qed.

Lemma onNativeChange_indeterminateBacked s :
  indeterminateBacked s -> indeterminateBacked (_onNativeChange s).
Proof. intros H. unfold _onNativeChange. indeterminate_chain. Qed.

Lemma nativeClick_indeterminateBacked s :
  indeterminateBacked s -> indeterminateBacked (nativeClick s).
Proof.
  intros H. unfold nativeClick. destruct (n_disabled _); [exact H|]. cbv zeta.
  set (s1 := set_native _ s).
  assert (H1 : indeterminateBacked s1) by now apply indeterminateBacked_clear.
  clearbody s1. destruct (isConnected s1); [|exact H1].
  now apply onNativeChange_indeterminateBacked, onNativeInput_indeterminateBacked.
Qed.

Lemma onClick_indeterminateBacked s :
  indeterminateBacked s -> indeterminateBacked (_onClick s).
Proof.
  intros H. unfold _onClick. destruct (get_disabled s); [exact H|].
  apply (indeterminateBacked_view (nativeClick s)); [reflexivity|].
  now apply nativeClick_indeterminateBacked.
Qed.

Lemma onKeyDown_indeterminateBacked key s :
  indeterminateBacked s -> indeterminateBacked (_onKeyDown key s).
Proof.
  intros H. unfold _onKeyDown. destruct (get_disabled s); [exact H|].
  destruct (togglingKey key); [|exact H].
  now apply (nativeClick_indeterminateBacked (perform PreventDefault s)).
Qed.

Lemma reportValidity_indeterminateBacked s :
  indeterminateBacked s -> indeterminateBacked (reportValidity s).1.
Proof.
  intros H. unfold reportValidity. cbv zeta. destruct (internals (_updateValidity s)).
  - destruct (barred _ || valid _); cbn [fst]; indeterminate_chain.
  - destruct (checkValidity (_updateValidity s)) as [s' ok] eqn:E.
    assert (Hs : s' = _updateValidity (_updateValidity s))
      by (now rewrite <- checkValidity_state, E).
    subst s'. destruct ok; cbn [fst]; indeterminate_chain.
Qed.

Lemma setCustomValidity_indeterminateBacked m s :
  indeterminateBacked s -> indeterminateBacked (setCustomValidity m s).
Proof.
  intros H. unfold setCustomValidity. cbv zeta. set (s1 := set_customValidity _ s).
  assert (H1 : indeterminateBacked s1) by exact H. clearbody s1.
  destruct (internals s1); [destruct (nonEmpty _)|]; indeterminate_chain.
Qed.

Lemma connectedCallback_indeterminateBacked s :
  indeterminateBacked s -> indeterminateBacked (connectedCallback s).
Proof. intros H. unfold_cc. indeterminate_chain. Qed.

Lemma place_indeterminateBacked c f s :
  indeterminateBacked s -> indeterminateBacked (place c f s).
Proof.
  intros H. unfold place. cbv zeta.
  set (s1 := set_position c f s). assert (H1 : indeterminateBacked s1) by exact H.
  clearbody s1.
  assert (H2 : indeterminateBacked (if isConnected s then disconnectedCallback s1 else s1)).
  { destruct (isConnected s); [|exact H1]. unfold disconnectedCallback. cbv zeta.
    destruct (form _); exact H1. }
  destruct c; [now apply connectedCallback_indeterminateBacked|exact H2].
Qed.

Lemma step_indeterminateBacked o s :
  indeterminateBacked s -> indeterminateBacked (step o s).
Proof.
  intros H.
  destruct o as [name value|name|prop value| | | |message| | | |key|f|c f]; unfold step.
  - now apply setAttribute_indeterminateBacked.
  - now apply removeAttribute_indeterminateBacked.
  - now apply assign_indeterminateBacked.
  - apply toggle_indeterminateBacked.
  - rewrite checkValidity_state. indeterminate_chain.
  - now apply reportValidity_indeterminateBacked.
  - now apply setCustomValidity_indeterminateBacked.
  - exact H.
  - exact H.
  - destruct (clickListener s); [now apply onClick_indeterminateBacked|exact H].
  - destruct (keydownListener s); [now apply onKeyDown_indeterminateBacked|exact H].
  - destruct (bool_decide _); [now apply onFormReset_indeterminateBacked|exact H].
  - now apply place_indeterminateBacked.
Qed.

Lemma run_indeterminateBacked ops s :
  indeterminateBacked s -> indeterminateBacked (run ops s).
Proof.
  revert s. induction ops as [|o ops IH]; intros s H; [exact H|].
  change (run (o :: ops) s) with (run ops (step o s)).
  apply IH. now apply step_indeterminateBacked.
Qed.

Lemma upgrade_indeterminateBacked ai own atts c f :
  indeterminateBacked (upgrade ai own atts c f).
Proof.
  unfold upgrade. cbv zeta.
  set (s0 := set_position c f (set_attrs _ (constructor ai own))).
  assert (H0 : indeterminateBacked s0) by now apply indeterminateBacked_clear.
  clearbody s0.
  assert (H1 : indeterminateBacked (fold_left upgradeReaction atts s0)).
  { revert s0 H0. induction atts as [|a atts IH]; intros s0 H0; [exact H0|].
    cbn [fold_left]. apply IH. unfold upgradeReaction.
    destruct (observed a.1) eqn:Ho; [|exact H0].
    rewrite attributeChangedCallback_changed by discriminate.
    now apply reflectAttribute_indeterminateBacked. }
  destruct c; [now apply connectedCallback_indeterminateBacked|exact H1].
Qed.

(** X17.  In every reachable state the [indeterminate] property is true
    only if the [indeterminate] attribute is present: [toggle()] and a
    click may leave the attribute behind a property that has become false,
    never the other way round (lines 168, 199-200, 226-267). *)
Theorem indeterminate_property_needs_attribute
    (ai : bool) (own : gmap string JSVal) (atts : list (string * string))
    (c : bool) (f : option nat) (ops : list Op) :
  let s := run ops (upgrade ai own atts c f) in
  get_indeterminate s = true -> hasAttribute "indeterminate" s = true.
Proof.
  intros s. apply run_indeterminateBacked, upgrade_indeterminateBacked.
Qed.

Lemma indeterminate_property_needs_attribute_witness :
  get_indeterminate (run [OSetAttribute "checked" ""]
                       (upgrade true ∅ [("indeterminate", "")] true None)) = true /\
  hasAttribute "indeterminate" (run [OSetAttribute "checked" ""]
                                  (upgrade true ∅ [("indeterminate", "")] true None)) = true.
Proof.
  assert (H : get_indeterminate (run [OSetAttribute "checked" ""]
                (upgrade true ∅ [("indeterminate", "")] true None)) = true)
    by (vm_compute; reflexivity).
  split; [exact H|].
  pose proof (indeterminate_property_needs_attribute true ∅ [("indeterminate", "")]
                true None [OSetAttribute "checked" ""]) as T.
  cbv zeta in T. exact (T H).
Defined.

(** ** Focus *)

Definition sameEffects (s s' : ToggleInput) : Prop := effects s' = effects s.

Lemma sameEffects_refl s : sameEffects s s.
Proof. reflexivity. Qed.
Lemma sameEffects_trans s1 s2 s3 : sameEffects s1 s2 -> sameEffects s2 s3 -> sameEffects s1 s3.
Proof. unfold sameEffects. congruence. Qed.

Create HintDb calm discriminated.
#[export] Hint Constants Opaque : calm.
#[export] Hint Resolve sameEffects_refl : calm.
#[export] Hint Extern 1 (sameEffects ?s (?f ?s)) =>
  (is_low (f s); unfold sameEffects; frame) : calm.

Ltac calm_chain :=
  cbv zeta; repeat rel_step sameEffects sameEffects_trans ltac:(solve [auto with calm]).

Lemma reflectAttribute_calm name s :
  observed name = true -> name <> "autofocus" -> sameEffects s (reflectAttribute name s).
Proof.
  intros H Hn. names H; try congruence; unfold reflectAttribute; eval_names; calm_chain.
Qed.

Lemma setAttribute_calm name value s :
  name <> "autofocus" -> sameEffects s (setAttribute name value s).
Proof.
  intros Hn. unfold setAttribute. cbv zeta. destruct (observed name) eqn:H; [|reflexivity].
  destruct (decide (getAttribute name s = Some value)) as [E|E].
  - rewrite E, attributeChangedCallback_same. reflexivity.
  - rewrite attributeChangedCallback_changed by exact E.
    apply (sameEffects_trans _ (setAttribute0 name value s)); [reflexivity|].
    now apply reflectAttribute_calm.
Qed.

Lemma removeAttribute_calm name s :
  name <> "autofocus" -> sameEffects s (removeAttribute name s).
Proof.
  intros Hn. unfold removeAttribute. destruct (getAttribute name s); [|reflexivity].
  cbv zeta. destruct (observed name) eqn:H; [|reflexivity].
  rewrite attributeChangedCallback_changed by discriminate.
  apply (sameEffects_trans _ (removeAttribute0 name s)); [reflexivity|].
  now apply reflectAttribute_calm.
Qed.

Lemma assign_calm prop v s : sameEffects s (assign prop v s).
Proof.
  apply assign_cases; [reflexivity|..];
    unfold set_checked, set_disabled, set_name, set_value, set_required, set_indeterminate;
    match goal with |- context [if ?c then _ else _] => destruct c end;
    first [now apply setAttribute_calm | now apply removeAttribute_calm].
Qed.

Lemma upgradeProperty_calm prop s : sameEffects s (_upgradeProperty prop s).
Proof.
  unfold _upgradeProperty. destruct (ownProps s !! prop); [|reflexivity].
  apply (sameEffects_trans _ (set_ownProps (fun m => delete prop m) s)); [reflexivity|].
  apply assign_calm.
Qed.

#[export] Hint Resolve upgradeProperty_calm : calm.
#[export] Hint Extern 2 (sameEffects _ (setAttribute _ _ _)) =>
  (apply setAttribute_calm; discriminate) : calm.

Lemma cc_form_calm s : sameEffects s (cc_form (cc_listen (cc_upgrade (cc_capture (cc_prepare s))))).
Proof. unfold cc_form, cc_listen, cc_upgrade, cc_capture, cc_prepare. calm_chain. Qed.

Lemma cc_prepare_attrs k s :
  internalAttr k = false -> k <> "role" -> k <> "tabindex" ->
  attrs (cc_prepare s) !! k = attrs s !! k.
Proof.
  intros Hk H1 H2. unfold cc_prepare. cbv zeta.
  assert (E : forall t, attrs (if negb (hasAttribute "role" t)
                then setAttribute "role" "checkbox" t else t) !! k = attrs t !! k).
  { intros t. destruct (negb _); [|reflexivity].
    rewrite setAttribute_attrs by assumption. now destruct (decide _). }
  destruct (negb _); [|apply E].
  rewrite setAttribute_attrs by assumption.
  destruct (decide _); [contradiction|apply E].
Qed.

Lemma cc_form_autofocus s :
  attrs (cc_form (cc_listen (cc_upgrade (cc_capture (cc_prepare s))))) !! "autofocus" =
  attrs s !! "autofocus".
Proof.
  assert (Hf : "autofocus" ∉
               ["checked"; "disabled"; "name"; "value"; "required"; "indeterminate"]).
  { intros Hn. repeat (apply elem_of_cons in Hn as [Hn|Hn]; [discriminate|]).
    now apply elem_of_nil in Hn. }
  rewrite (kept_cc_form "autofocus") by reflexivity.
  transitivity (attrs (cc_upgrade (cc_capture (cc_prepare s))) !! "autofocus");
    [generalize (cc_upgrade (cc_capture (cc_prepare s))); reflexivity|].
  rewrite (kept_cc_upgrade "autofocus" eq_refl Hf).
  transitivity (attrs (cc_prepare s) !! "autofocus");
    [generalize (cc_prepare s); reflexivity|].
  apply cc_prepare_attrs; [reflexivity|discriminate|discriminate].
Qed.

Lemma connectedCallback_effects s :
  effects (connectedCallback s) =
  (effects s ++ if hasAttribute "autofocus" s then [ButtonFocus] else [])%list.
Proof.
  unfold connectedCallback.
  pose proof (cc_form_calm s) as He. pose proof (cc_form_autofocus s) as Ha.
  revert He Ha. generalize (cc_form (cc_listen (cc_upgrade (cc_capture (cc_prepare s))))).
  intros x He Ha. unfold sameEffects in He. unfold cc_finish, hasAttribute. cbv zeta.
  rewrite <- He, <- Ha.
  destruct (form x); cbn [attrs set_resetListeners];
    destruct (attrs x !! "autofocus"); cbn; now rewrite ?app_nil_r.
Qed.

Lemma setAttribute_autofocus value s :
  getAttribute "autofocus" s <> Some value ->
  effects (setAttribute "autofocus" value s) = (effects s ++ [ButtonFocus])%list.
Proof.
  intros E. unfold setAttribute. cbv zeta.
  assert (Ho : observed "autofocus" = true) by reflexivity. rewrite Ho.
  rewrite attributeChangedCallback_changed by exact E.
  unfold reflectAttribute. eval_names. cbv zeta.
  set (x := _render (setAttribute0 "autofocus" value s)).
  assert (Ha : hasAttribute "autofocus" x = true).
  { unfold hasAttribute, x. rewrite attrs_render by reflexivity. cbn.
    now rewrite lookup_insert_eq. }
  assert (He : effects x = effects s) by (unfold x; rewrite render_shape; reflexivity).
  clearbody x. rewrite Ha. cbn. now rewrite He.
Qed.

Lemma removeAttribute_autofocus s :
  effects (removeAttribute "autofocus" s) = effects s.
Proof.
  unfold removeAttribute. destruct (getAttribute "autofocus" s) eqn:Ea; [|reflexivity].
  cbv zeta. assert (Ho : observed "autofocus" = true) by reflexivity. rewrite Ho.
  rewrite attributeChangedCallback_changed by discriminate.
  unfold reflectAttribute. eval_names. cbv zeta.
  set (x := _render (removeAttribute0 "autofocus" s)).
  assert (Ha : hasAttribute "autofocus" x = false).
  { unfold hasAttribute, x. rewrite attrs_render by reflexivity. cbn.
    now rewrite lookup_delete_eq. }
  assert (He : effects x = effects s) by (unfold x; rewrite render_shape; reflexivity).
  clearbody x. rewrite Ha. cbn. exact He.
Qed.

(** X18.  The [autofocus] attribute makes the component focus its button:
    [connectedCallback] focuses it once when the element carries the
    attribute and performs no effect when it does not; setting the
    attribute to a new value focuses the button once; setting it to the
    value it has, removing it, and a write of any other attribute perform
    no effect (lines 149-151, 162, 179-181).  The other call of [focus] in
    the class is the one of [reportValidity] on the fallback path (line
    362). *)
Theorem autofocus_focuses_button (s : ToggleInput) (name value : string) :
  effects (connectedCallback s) =
    (effects s ++ if hasAttribute "autofocus" s then [ButtonFocus] else [])%list /\
  (getAttribute "autofocus" s <> Some value ->
   effects (setAttribute "autofocus" value s) = (effects s ++ [ButtonFocus])%list) /\
  (getAttribute "autofocus" s = Some value ->
   effects (setAttribute "autofocus" value s) = effects s) /\
  effects (removeAttribute "autofocus" s) = effects s /\
  (name <> "autofocus" ->
   effects (setAttribute name value s) = effects s /\
   effects (removeAttribute name s) = effects s).
Proof.
  split; [apply connectedCallback_effects|]. split; [apply setAttribute_autofocus|].
  split.
  { intros E. unfold setAttribute. cbv zeta.
    assert (Ho : observed "autofocus" = true) by reflexivity. rewrite Ho.
    rewrite E, attributeChangedCallback_same. reflexivity. }
  split; [apply removeAttribute_autofocus|].
  intros Hn. split; [now apply setAttribute_calm|now apply removeAttribute_calm].
Qed.

Lemma autofocus_focuses_button_witness :
  effects (setAttribute "autofocus" "" (upgrade true ∅ [] true None)) =
  (effects (upgrade true ∅ [] true None) ++ [ButtonFocus])%list.
Proof.
  assert (H : getAttribute "autofocus" (upgrade true ∅ [] true None) <> Some "")
    by (vm_compute; discriminate).
  pose proof (autofocus_focuses_button (upgrade true ∅ [] true None) "autofocus" "") as T.
  destruct T as (_ & T & _). exact (T H).
Defined.
